(** * The HTML presenter of diffoscope ([diffoscope/presenters/html.py])

    A shallow embedding of the unified-diff presenter: the sanitizer, the
    character aligner [linediff], the HTML converter [convert], the
    unified-diff scanner with its pairing buffer, the paginated row sink and
    the report shell, followed by the properties of the specification that
    are settled on it. *)

From Stdlib Require Import ZArith NArith Lia Ascii String DecimalString HexadecimalString.
From Stdlib Require DecimalPos.
From stdpp Require Import base option list numbers.

Local Open Scope Z_scope.

(** ** Strings

    A Python [str] is a sequence of Unicode code points; a code point is a
    natural number.  Python integers are [Z]; list indices are [nat]. *)

Abbreviation char := N (only parsing).
Abbreviation str := (list N) (only parsing).

(** ASCII literals of the source.  A template of the source that holds a
    double quote is written with a backquote in its place (the source uses
    no backquote), and [q] puts the double quote (code point 34) back. *)
Definition lit (s : string) : str :=
  map (fun a => N_of_ascii a) (list_ascii_of_string s).

Definition q (s : string) : str :=
  map (fun c => if N.eqb c 96 then 34%N else c) (lit s).

Definition str_eqb (a b : str) : bool := bool_decide (a = b).

Definition len (s : str) : Z := Z.of_nat (length s).

(** ** Module constants *)

Definition LINESIZE : Z := 20.
Definition MAX_LINE_SIZE : nat := 1024.
Definition TABSIZE : Z := 8.
Definition WORDBREAK : str := lit " " ++ [9%N] ++ lit ";.,/):-".
Definition DIFFON : char := 1%N.
Definition DIFFOFF : char := 2%N.
Definition TAB : char := 9%N.
Definition NEWLINE : char := 10%N.

(** ** [sane] *)

Definition sane_char (i : char) : char :=
  if negb (N.eqb i TAB || N.eqb i NEWLINE) && N.ltb i 32 then 46%N else i.

(** [for i in x: r = r + ('.' or i)] *)
Definition sane (x : str) : str :=
  fold_left (fun r i => r ++ [sane_char i]) x [].

(** ** [linediff]: the edit-distance table *)

(** A cell of [d] is [(cost, (x, y))]; the coordinates are list indices
    (they are only ever built as [i], [i-1] with [i >= 1]). *)
Abbreviation cell := (Z * (nat * nat))%type (only parsing).
Abbreviation matrix := (list (list (Z * (nat * nat)))) (only parsing).

(** [d[i][j]]; out of range raises [IndexError], here [None]. *)
Definition mget (d : matrix) (i j : nat) : option cell :=
  row ← d !! i; row !! j.

(** [d[i][j] = v] *)
Definition mset (d : matrix) (i j : nat) (v : cell) : option matrix :=
  row ← d !! i;
  if decide (j < length row)%nat then Some (<[i := <[j := v]> row]> d) else None.

(** Python's [<] on tuples [(cost, (x, y))]: lexicographic. *)
Definition cell_ltb (a b : cell) : bool :=
  let '(ca, (xa, ya)) := a in
  let '(cb, (xb, yb)) := b in
  if ca <? cb then true
  else if cb <? ca then false
  else if (xa <? xb)%nat then true
  else if (xb <? xa)%nat then false
  else (ya <? yb)%nat.

(** Python's [min(a, b, c)]: the first smallest argument. *)
Definition py_min3 (a b c : cell) : cell :=
  let m := if cell_ltb b a then b else a in
  if cell_ltb c m then c else m.

(** [for x in l: st = body(x, st)], stopping at the first failure. *)
Definition for_each {A S : Type} (body : A -> S -> option S) : list A -> S -> option S :=
  fix go l st :=
    match l with
    | [] => Some st
    | a :: l' => match body a st with Some st' => go l' st' | None => None end
    end.

(** The body of the inner loop, for the cell [(i, j)]. *)
Definition fill_cell (s t : str) (i j : nat) (d : matrix) : option matrix :=
  sc ← s !! (i - 1)%nat;
  tc ← t !! (j - 1)%nat;
  let cost := if N.eqb sc tc then 0 else 1 in
  up ← mget d (i - 1) j;
  left ← mget d i (j - 1);
  diag ← mget d (i - 1) (j - 1);
  mset d i j (py_min3 (up.1 + 1, ((i - 1)%nat, j))
                      (left.1 + 1, (i, (j - 1)%nat))
                      (diag.1 + cost, ((i - 1)%nat, (j - 1)%nat))).

(** The table of [linediff], from its creation to the end of the nested
    loops; [range(m+1)[1:]] is [seq 1 m].  The cells are created as the
    placeholder [(0, 0)], which is overwritten before it is read; the
    model's placeholder is [(0, (0, 0))]. *)
Definition fill_table (s t : str) : option matrix :=
  let m := length s in
  let n := length t in
  let d := replicate (S m) (replicate (S n) ((0, (0%nat, 0%nat)) : cell)) in
  d ← mset d 0 0 (0, (0%nat, 0%nat));
  d ← for_each (fun i d => mset d i 0 (Z.of_nat i, ((i - 1)%nat, 0%nat))) (seq 1 m) d;
  d ← for_each (fun j d => mset d 0 j (Z.of_nat j, (0%nat, (j - 1)%nat))) (seq 1 n) d;
  for_each (fun i d => for_each (fun j d => fill_cell s t i j d) (seq 1 n) d) (seq 1 m) d.

(** [while coord != (0, 0): l.insert(0, coord); coord = d[x][y][1]].
    The loop is bounded by [fuel]; [None] is an [IndexError] or the bound
    being hit ([walk_total] shows that [m + n] steps are enough). *)
Fixpoint walk (fuel : nat) (d : matrix) (coord : nat * nat) (l : list (nat * nat))
  : option (list (nat * nat)) :=
  if decide (coord = (0%nat, 0%nat)) then Some l
  else match fuel with
       | O => None
       | S fuel' =>
           c ← mget d coord.1 coord.2;
           walk fuel' d c.2 (coord :: l)
       end.

(** The body of [for coord in l]: the pieces appended to [l1] and [l2]. *)
Definition emit (s t : str) (d : matrix) (coord : nat * nat) : option (str * str) :=
  let '(cx, cy) := coord in
  child ← mget d cx cy;
  let child_val := child.1 in
  let '(fx, fy) := child.2 in
  father ← mget d fx fy;
  let father_val := father.1 in
  let diff := (Z.of_nat cx - Z.of_nat fx, Z.of_nat cy - Z.of_nat fy) in
  if decide (diff = (0, 1)) then
    tc ← t !! fy; Some ([], [DIFFON; tc; DIFFOFF])
  else if decide (diff = (1, 0)) then
    sc ← s !! fx; Some ([DIFFON; sc; DIFFOFF], [])
  else if decide (child_val - father_val = 1) then
    sc ← s !! fx; tc ← t !! fy;
    Some ([DIFFON; sc; DIFFOFF], [DIFFON; tc; DIFFOFF])
  else
    sc ← s !! fx; tc ← t !! fy; Some ([sc], [tc]).

Fixpoint emit_all (s t : str) (d : matrix) (l : list (nat * nat)) (l1 l2 : list str)
  : option (list str * list str) :=
  match l with
  | [] => Some (l1, l2)
  | coord :: l' =>
      p ← emit s t d coord;
      emit_all s t d l' (l1 ++ [p.1]) (l2 ++ [p.2])
  end.

(** [x.replace(DIFFOFF + DIFFON, '')]: the occurrences are found from the
    left and do not overlap. *)
Fixpoint replace_offon (x : str) : str :=
  match x with
  | [] => []
  | a :: rest =>
      match rest with
      | b :: rest' =>
          if N.eqb a DIFFOFF && N.eqb b DIFFON then replace_offon rest'
          else a :: replace_offon rest
      | [] => [a]
      end
  end.

(** [''.join([sane(c) for c in s])] *)
Definition sane_each (s : str) : str := concat (map (fun c => sane [c]) s).

Definition linediff (s t : str) : option (str * str) :=
  let s := if decide (len s = 0) then s else sane_each s in
  let t := if decide (len t = 0) then t else sane_each t in
  let m := length s in
  let n := length t in
  d ← fill_table s t;
  l ← walk (m + n) d (m, n) [];
  r ← emit_all s t d l [] [];
  Some (replace_offon (concat r.1), replace_offon (concat r.2)).

(** The characters left once the two markers are taken out. *)
Definition strip_markers (x : str) : str :=
  filter (fun c => c <> DIFFON /\ c <> DIFFOFF) x.

(** A sanitized string: no code point below 32 but tab and newline. *)
Definition sanitized (x : str) : Prop :=
  Forall (fun c => (32 <= c)%N \/ c = TAB \/ c = NEWLINE) x.

(** ** Formatting and HTML escaping *)

(** ['%d' % n] and ['%s' % n] for an integer [n]. *)
Definition dec (n : Z) : str := lit (DecimalString.NilZero.string_of_int (Z.to_int n)).

(** ['%x' % n] *)
Definition hex (n : N) : str := lit (HexadecimalString.NilZero.string_of_uint (N.to_hex_uint n)).

(** ** Floating point: [bytes_left / total], [frac*100] and ['%.2f']

    Python's [float] is the binary64 format of IEEE 754 and its operations
    round to the nearest number, a tie going to the even mantissa.  The
    numbers are kept exact, as a mantissa and an exponent of two. *)

(** The integer nearest to [n / d], for [d > 0]; a tie goes to the even one. *)
Definition round_half_even (n d : Z) : Z :=
  let q := n / d in
  let r := n mod d in
  if 2 * r <? d then q
  else if d <? 2 * r then q + 1
  else if Z.even q then q else q + 1.

(** A [float]: [m * 2^e] with its sign, or an infinity. *)
Inductive float :=
  | Finite (negative : bool) (m e : Z)
  | Infinite (negative : bool).

(** The integer part of the binary logarithm of [n / d], for [n, d > 0]. *)
Definition log2_ratio (n d : Z) : Z :=
  let k := Z.log2 n - Z.log2 d in
  if (if 0 <=? k then d * 2 ^ k <=? n else d <=? n * 2 ^ (- k)) then k else k - 1.

(** The binary64 number nearest to [n / d], for [n >= 0] and [d > 0]: a
    mantissa of at most 53 bits and an exponent of at least -1074; [None]
    when the rounded number does not fit, being [2^1024] or more. *)
Definition nearest_binary64 (n d : Z) : option (Z * Z) :=
  if n =? 0 then Some (0, 0)
  else
    let e := Z.max (log2_ratio n d - 52) (-1074) in
    let m := if 0 <=? e then round_half_even n (d * 2 ^ e)
             else round_half_even (n * 2 ^ (- e)) d in
    if (0 <=? e) && (2 ^ 1024 <=? m * 2 ^ e) then None else Some (m, e).

(** [a / b] for two integers, [b] not zero: the quotient correctly rounded;
    [None] is Python's [OverflowError]. *)
Definition true_divide (a b : Z) : option float :=
  r ← nearest_binary64 (Z.abs a) (Z.abs b);
  Some (Finite (xorb (a <? 0) (b <? 0)) r.1 r.2).

(** [x*100] for a float [x]; a product too large is an infinity. *)
Definition float_times_100 (x : float) : float :=
  match x with
  | Finite s m e =>
      match (if 0 <=? e then nearest_binary64 (m * 100 * 2 ^ e) 1
             else nearest_binary64 (m * 100) (2 ^ (- e))) with
      | Some (m', e') => Finite s m' e'
      | None => Infinite s
      end
  | Infinite s => Infinite s
  end.

(** ['%.2f' % x]: the exact value of [x] rounded to two decimals, a tie
    going to the even one; the sign is kept before a zero. *)
Definition format_2f (x : float) : str :=
  match x with
  | Infinite s => (if s then lit "-" else []) ++ lit "inf"
  | Finite s m e =>
      let k := if 0 <=? e then m * 2 ^ e * 100 else round_half_even (m * 100) (2 ^ (- e)) in
      (if s then lit "-" else []) ++ dec (k / 100) ++ lit "." ++ dec (k mod 100 / 10)
      ++ dec (k mod 10)
  end.

(** [sep.join(l)] *)
Fixpoint join (sep : str) (l : list str) : str :=
  match l with
  | [] => []
  | [x] => x
  | x :: l' => x ++ sep ++ join sep l'
  end.

(** [html.escape(c)] on one character (with [quote=True]). *)
Definition html_escape_char (c : char) : str :=
  if N.eqb c 38 then lit "&amp;"
  else if N.eqb c 60 then lit "&lt;"
  else if N.eqb c 62 then lit "&gt;"
  else if N.eqb c 34 then lit "&quot;"
  else if N.eqb c 39 then lit "&#x27;"
  else [c].

Definition html_escape (s : str) : str := concat (map html_escape_char s).

(** [x.startswith(p)]; also [re.match] of a pattern that is a literal
    prefix. *)
Fixpoint starts_with (p x : str) : bool :=
  match p, x with
  | [], _ => true
  | a :: p', b :: x' => N.eqb a b && starts_with p' x'
  | _ :: _, [] => false
  end.

Definition ends_with (suffix x : str) : bool := starts_with (rev suffix) (rev x).

(** ** [convert] *)

(** One turn of [for c in s], on the column counter [i] and the buffer [t]. *)
Definition convert_char (ponct : Z) (tag : str) (c : char) (st : Z * str) : Z * str :=
  let '(i, t) := st in
  let '(i, t) :=
    if N.eqb c DIFFON then (i, t ++ lit "<" ++ tag ++ lit ">")
    else if N.eqb c DIFFOFF then (i, t ++ lit "</" ++ tag ++ lit ">")
    else if N.eqb c TAB && (ponct =? 1) then
      let n := TABSIZE - (i mod TABSIZE) in
      let n := if n =? 0 then TABSIZE else n in
      (i, t ++ q "<span class=`diffponct`>" ++ [187%N] ++ lit "</span>"
            ++ replicate (Z.to_nat (n - 1)) 160%N)
    else if N.eqb c 32 && (ponct =? 1) then
      (i, t ++ q "<span class=`diffponct`>" ++ [183%N] ++ lit "</span>")
    else if N.eqb c NEWLINE && (ponct =? 1) then
      (i, t ++ q "<br/><span class=`diffponct`>\</span>")
    else if N.ltb c 32 then
      let conv := lit "\x" ++ hex c in
      (i + len conv, t ++ lit "<em>" ++ conv ++ lit "</em>")
    else (i + 1, t ++ html_escape [c]) in
  let '(i, t) :=
    if bool_decide (length (filter (fun w => w = c) WORDBREAK) = 1%nat)
    then (0, t ++ [8203%N]) else (i, t) in
  if LINESIZE <? i then (0, t ++ [8203%N]) else (i, t).

Definition convert (s : str) (ponct : Z) (tag : str) : str :=
  (fold_left (fun st c => convert_char ponct tag c st) s (0, [])).2.

(** ** The templates *)

Definition HEADER (favicon title css_link : str) : str :=
  q "<!DOCTYPE html>
<html>
<head>
  <meta charset=`utf-8` />
  <meta name=`generator` content=`diffoscope` />
  <link rel=`icon` type=`image/png` href=`data:image/png;base64,"
  ++ favicon
  ++ q "` />
  <title>"
  ++ title
  ++ q "</title>
  <style>
    body {
      background: white;
      color: black;
    }
    .footer {
      font-size: small;
    }
    .difference {
      border: outset #888 1px;
      background-color:rgba(0,0,0,.1);
      padding: 0.5em;
      margin: 0.5em 0;
    }
    .difference table {
      table-layout: fixed;
      width: 100%;
      border: 0;
    }
    .difference th,
    .difference td {
      border: 0;
    }
    table.diff {
      border: 0px;
      border-collapse:collapse;
      font-size:0.75em;
      font-family: Lucida Console, monospace;
    }
    table.diff tr:hover td {
      background: #FFFF00;
    }
    td.line {
      color:#8080a0
    }
    th {
      background: black;
      color: white
    }
    tr.diffunmodified td {
      background: #D0D0E0
    }
    tr.diffhunk td {
      background: #A0A0A0
    }
    tr.diffadded td {
      background: #CCFFCC
    }
    tr.diffdeleted td {
      background: #FFCCCC
    }
    tr.diffchanged td {
      background: #FFFFA0
    }
    ins, del {
      background: #E0C880;
      text-decoration: none
    }
    span.diffponct {
      color: #B08080
    }
    .comment {
      font-style: italic;
    }
    .source {
      font-weight: bold;
    }
    .error {
      border: solid black 1px;
      background: red;
      color: white;
      padding: 0.2em;
    }
    .anchor {
      margin-left: 0.5em;
      font-size: 80%;
      color: #333;
      text-decoration: none;
      display: none;
    }
    .diffheader:hover .anchor {
      display: inline;
    }
    table.diff tr.ondemand td {
      background: #f99;
      text-align: center;
      padding: 0.5em 0;
    }
    table.diff tr.ondemand:hover td {
      background: #faa;
      cursor: pointer;
    }
  </style>
  "
  ++ css_link
  ++ q "
</head>
<body>
".

Definition FOOTER (version : str) : str :=
  q "
<div class=`footer`>Generated by <a href=`https://diffoscope.org` target=`_blank`>diffoscope</a> "
  ++ version
  ++ q "</div>
</body>
</html>
".

Definition SCRIPTS (jquery_url : str) : str :=
  q "
<script src=`"
  ++ jquery_url
  ++ q "`></script>
<script type=`text/javascript`>
$(function() {
  var load_cont = function() {
    var a = $(this).find(`a`);
    var textparts = /^(.*" ++ q ")\((\d+) pieces?(.*" ++ q ")\)$/.exec(a.text());
    var numleft = Number.parseInt(textparts[2]) - 1;
    var noun = numleft == 1 ? `piece` : `pieces`;
    var newtext = textparts[1] + `(` + numleft + ` ` + noun + textparts[3] + `)`;
    var filename = a.attr('href');
    var td = a.parent();
    td.text('... loading ...');
    td.parent().load(filename + ` tr`, function() {
        // http://stackoverflow.com/a/8452751/946226
        var elems = $(this).children(':first').unwrap();
        // set this behaviour for the next link too
        var td = elems.parent().find(`.ondemand td`);
        td.find(`a`).text(newtext);
        td.on('click', load_cont);
    });
    return false;
  };
  $(`.ondemand td`).on('click', load_cont);
});
</script>
".

Definition UD_TABLE_HEADER : str :=
  q "<table class=`diff`>
<colgroup><col style=`width: 3em;`/><col style=`99%`/>
<col style=`width: 3em;`/><col style=`99%`/></colgroup>
".

Definition UD_TABLE_FOOTER (filename text : str) : str :=
  q "<tr class=`ondemand`><td colspan=`4`>
... <a href=`"
  ++ filename
  ++ q "`>"
  ++ text
  ++ q "</a> ...
</td></tr>
</table>
".

(** ** What the module takes from outside

    [Env] gathers what html.py imports and does not define: the table of
    Unicode decimal digits behind [\d] and [int()], [hashlib.md5],
    [FAVICON_BASE64], [VERSION] and [' '.join(sys.argv)].  [Config] is
    [diffoscope.config.Config()]. *)

Class Env := {
  digit_value : char -> option N;
  md5_hexdigest : str -> str;
  FAVICON_BASE64 : str;
  VERSION : str;
  argv_joined : str
}.

Class Config := {
  max_report_size : Z;
  max_report_child_size : Z;
  max_diff_block_lines : Z;
  max_diff_block_lines_parent : Z;
  max_diff_block_lines_html_dir_ratio : Z
}.

(** ** The state: the module's globals and the streams *)

Inductive exn :=
  | PrintLimitReached
  | DiffBlockLimitReached
  | AssertionError
  | IndexError
  | TypeError
  | AttributeError
  | ZeroDivisionError
  | OverflowError
  | UnboundLocalError.

Global Instance exn_eq_dec : EqDecision exn.
Proof. solve_decision. Defined.

Inductive result (A : Type) :=
  | Ok (a : A)
  | Raise (e : exn).
Arguments Ok {A} a.
Arguments Raise {A} e.

(** The two print functions [spl_print_func] can hold: the limited print
    function of the report, and the [recording_print_func] of the child
    page written to the file [filename]. *)
Inductive printer :=
  | Primary
  | Child (filename : str).

(** A child page: what was written to the file, and the attribute
    [bytes_written] of its [recording_print_func]. *)
Record child_page := mkPage {
  page_chunks : list str;
  bytes_written : Z
}.

(** [(directory, mainname, css_url)] *)
Abbreviation rotation_params := (str * str * option str)%type.

Record state := mkState {
  buf : list (option str * option str);
  add_cpt : Z;
  del_cpt : Z;
  line1 : Z;
  line2 : Z;
  has_internal_linenos : bool;
  hunk_off1 : Z;
  hunk_size1 : Z;
  hunk_off2 : Z;
  hunk_size2 : Z;
  spl_rows : Z;
  spl_current_page : Z;
  spl_print_func : option printer;
  (** [(print_context.__exit__, rotation_params)]; the exit function is
      named by the file it closes. *)
  spl_print_ctrl : option (option str * option rotation_params);
  (** the local [bytes_processed] of [output_unified_diff_table], which its
      [except] clause reads *)
  bytes_processed : Z;
  (** the calls of the report's underlying [print_func], in order *)
  out : list str;
  (** [limited_print_func.char_count] *)
  char_count : Z;
  (** the files of the child pages, by name, latest first *)
  files : list (str * child_page)
}.

Definition set_buf (v : list (option str * option str)) (st : state) : state :=
  mkState v (add_cpt st) (del_cpt st) (line1 st) (line2 st) (has_internal_linenos st)
    (hunk_off1 st) (hunk_size1 st) (hunk_off2 st) (hunk_size2 st) (spl_rows st)
    (spl_current_page st) (spl_print_func st) (spl_print_ctrl st) (bytes_processed st)
    (out st) (char_count st) (files st).
Definition set_add_cpt (v : Z) (st : state) : state :=
  mkState (buf st) v (del_cpt st) (line1 st) (line2 st) (has_internal_linenos st)
    (hunk_off1 st) (hunk_size1 st) (hunk_off2 st) (hunk_size2 st) (spl_rows st)
    (spl_current_page st) (spl_print_func st) (spl_print_ctrl st) (bytes_processed st)
    (out st) (char_count st) (files st).
Definition set_del_cpt (v : Z) (st : state) : state :=
  mkState (buf st) (add_cpt st) v (line1 st) (line2 st) (has_internal_linenos st)
    (hunk_off1 st) (hunk_size1 st) (hunk_off2 st) (hunk_size2 st) (spl_rows st)
    (spl_current_page st) (spl_print_func st) (spl_print_ctrl st) (bytes_processed st)
    (out st) (char_count st) (files st).
Definition set_line1 (v : Z) (st : state) : state :=
  mkState (buf st) (add_cpt st) (del_cpt st) v (line2 st) (has_internal_linenos st)
    (hunk_off1 st) (hunk_size1 st) (hunk_off2 st) (hunk_size2 st) (spl_rows st)
    (spl_current_page st) (spl_print_func st) (spl_print_ctrl st) (bytes_processed st)
    (out st) (char_count st) (files st).
Definition set_line2 (v : Z) (st : state) : state :=
  mkState (buf st) (add_cpt st) (del_cpt st) (line1 st) v (has_internal_linenos st)
    (hunk_off1 st) (hunk_size1 st) (hunk_off2 st) (hunk_size2 st) (spl_rows st)
    (spl_current_page st) (spl_print_func st) (spl_print_ctrl st) (bytes_processed st)
    (out st) (char_count st) (files st).
Definition set_has_internal_linenos (v : bool) (st : state) : state :=
  mkState (buf st) (add_cpt st) (del_cpt st) (line1 st) (line2 st) v
    (hunk_off1 st) (hunk_size1 st) (hunk_off2 st) (hunk_size2 st) (spl_rows st)
    (spl_current_page st) (spl_print_func st) (spl_print_ctrl st) (bytes_processed st)
    (out st) (char_count st) (files st).
Definition set_hunk (o1 s1 o2 s2 : Z) (st : state) : state :=
  mkState (buf st) (add_cpt st) (del_cpt st) (line1 st) (line2 st) (has_internal_linenos st)
    o1 s1 o2 s2 (spl_rows st)
    (spl_current_page st) (spl_print_func st) (spl_print_ctrl st) (bytes_processed st)
    (out st) (char_count st) (files st).
Definition set_hunk_size1 (v : Z) (st : state) : state :=
  set_hunk (hunk_off1 st) v (hunk_off2 st) (hunk_size2 st) st.
Definition set_hunk_size2 (v : Z) (st : state) : state :=
  set_hunk (hunk_off1 st) (hunk_size1 st) (hunk_off2 st) v st.
Definition set_spl_rows (v : Z) (st : state) : state :=
  mkState (buf st) (add_cpt st) (del_cpt st) (line1 st) (line2 st) (has_internal_linenos st)
    (hunk_off1 st) (hunk_size1 st) (hunk_off2 st) (hunk_size2 st) v
    (spl_current_page st) (spl_print_func st) (spl_print_ctrl st) (bytes_processed st)
    (out st) (char_count st) (files st).
Definition set_spl_current_page (v : Z) (st : state) : state :=
  mkState (buf st) (add_cpt st) (del_cpt st) (line1 st) (line2 st) (has_internal_linenos st)
    (hunk_off1 st) (hunk_size1 st) (hunk_off2 st) (hunk_size2 st) (spl_rows st)
    v (spl_print_func st) (spl_print_ctrl st) (bytes_processed st)
    (out st) (char_count st) (files st).
Definition set_spl_print_func (v : option printer) (st : state) : state :=
  mkState (buf st) (add_cpt st) (del_cpt st) (line1 st) (line2 st) (has_internal_linenos st)
    (hunk_off1 st) (hunk_size1 st) (hunk_off2 st) (hunk_size2 st) (spl_rows st)
    (spl_current_page st) v (spl_print_ctrl st) (bytes_processed st)
    (out st) (char_count st) (files st).
Definition set_spl_print_ctrl (v : option (option str * option rotation_params))
    (st : state) : state :=
  mkState (buf st) (add_cpt st) (del_cpt st) (line1 st) (line2 st) (has_internal_linenos st)
    (hunk_off1 st) (hunk_size1 st) (hunk_off2 st) (hunk_size2 st) (spl_rows st)
    (spl_current_page st) (spl_print_func st) v (bytes_processed st)
    (out st) (char_count st) (files st).
Definition set_bytes_processed (v : Z) (st : state) : state :=
  mkState (buf st) (add_cpt st) (del_cpt st) (line1 st) (line2 st) (has_internal_linenos st)
    (hunk_off1 st) (hunk_size1 st) (hunk_off2 st) (hunk_size2 st) (spl_rows st)
    (spl_current_page st) (spl_print_func st) (spl_print_ctrl st) v
    (out st) (char_count st) (files st).
Definition set_out (v : list str) (st : state) : state :=
  mkState (buf st) (add_cpt st) (del_cpt st) (line1 st) (line2 st) (has_internal_linenos st)
    (hunk_off1 st) (hunk_size1 st) (hunk_off2 st) (hunk_size2 st) (spl_rows st)
    (spl_current_page st) (spl_print_func st) (spl_print_ctrl st) (bytes_processed st)
    v (char_count st) (files st).
Definition set_char_count (v : Z) (st : state) : state :=
  mkState (buf st) (add_cpt st) (del_cpt st) (line1 st) (line2 st) (has_internal_linenos st)
    (hunk_off1 st) (hunk_size1 st) (hunk_off2 st) (hunk_size2 st) (spl_rows st)
    (spl_current_page st) (spl_print_func st) (spl_print_ctrl st) (bytes_processed st)
    (out st) v (files st).
Definition set_files (v : list (str * child_page)) (st : state) : state :=
  mkState (buf st) (add_cpt st) (del_cpt st) (line1 st) (line2 st) (has_internal_linenos st)
    (hunk_off1 st) (hunk_size1 st) (hunk_off2 st) (hunk_size2 st) (spl_rows st)
    (spl_current_page st) (spl_print_func st) (spl_print_ctrl st) (bytes_processed st)
    (out st) (char_count st) v.

(** ** Statements: state passing with exceptions

    A statement runs on the state and either completes with a value or
    raises; the state it leaves is kept in both cases, as the globals and
    the streams keep what was done before the exception. *)

Definition M (A : Type) : Type := state -> result A * state.

Global Instance M_ret : MRet M := fun A a st => (Ok a, st).

Global Instance M_bind : MBind M := fun A B f m st =>
  match m st with
  | (Ok a, st') => f a st'
  | (Raise e, st') => (Raise e, st')
  end.

Definition raise {A : Type} (e : exn) : M A := fun st => (Raise e, st).

Definition gets {A : Type} (f : state -> A) : M A := fun st => (Ok (f st), st).

Definition modify (f : state -> state) : M unit := fun st => (Ok tt, f st).

(** [try: body finally: fin]: an exception of [fin] replaces the outcome
    of [body]. *)
Definition try_finally {A : Type} (body : M A) (fin : M unit) : M A := fun st =>
  let '(r, st') := body st in
  match fin st' with
  | (Ok _, st'') => (r, st'')
  | (Raise e, st'') => (Raise e, st'')
  end.

(** [try: body except ...: handler]; [handler e] is [None] when no clause
    catches [e]. *)
Definition try_except {A : Type} (body : M A) (handler : exn -> option (M A)) : M A :=
  fun st =>
    match body st with
    | (Ok a, st') => (Ok a, st')
    | (Raise e, st') =>
        match handler e with
        | Some h => h st'
        | None => (Raise e, st')
        end
    end.

(** [try: body except: handler else: orelse], the bare [except] catching
    every exception. *)
Definition try_except_else {A B : Type} (body : M A) (handler : exn -> M B)
    (orelse : A -> M B) : M B :=
  fun st =>
    match body st with
    | (Ok a, st') => orelse a st'
    | (Raise e, st') => handler e st'
    end.

(** [for x in l: body(x)] *)
Definition for_in {A : Type} (body : A -> M unit) : list A -> M unit :=
  fix go l :=
    match l with
    | [] => mret tt
    | x :: l' => body x ;; go l'
    end.

(** Python truthiness of [None | str]. *)
Definition truthy (s : option str) : bool :=
  match s with
  | Some (_ :: _) => true
  | _ => false
  end.

(** ** The difference tree *)

Local Unset Elimination Schemes.
Inductive Difference := mkDifference {
  source1 : str;
  source2 : str;
  comments : list str;
  unified_diff : option str;
  difference_has_internal_linenos : bool;
  details : list Difference
}.
Local Set Elimination Schemes.

(** ** The regular expressions of the scanner *)

Section Presenter.
Context {E : Env} {cfg : Config}.

Definition is_digit (c : char) : bool :=
  match digit_value c with Some _ => true | None => false end.

(** [int(x)] on a run of digits. *)
Definition int_of_digits (ds : str) : Z :=
  fold_left (fun acc c => acc * 10 + Z.of_N (default 0%N (digit_value c))) ds 0.

(** What a greedy [\d*] takes at the start of [x], and what is left. *)
Fixpoint span_digits (x : str) : str * str :=
  match x with
  | c :: x' =>
      if is_digit c then let '(ds, r) := span_digits x' in (c :: ds, r)
      else ([], x)
  | [] => ([], [])
  end.

Definition strip_prefix (p x : str) : option str :=
  if starts_with p x then Some (drop (length p) x) else None.

(** [re.match(r'^\[ (\d+) lines removed \]$', x)], giving [int(m.group(1))].
    [$] matches at the end and before a newline that ends the string. *)
Definition match_lines_removed (x : str) : option Z :=
  r ← strip_prefix (lit "[ ") x;
  let '(ds, r) := span_digits r in
  if bool_decide (ds = []) then None
  else if bool_decide (r = lit " lines removed ]")
          || bool_decide (r = lit " lines removed ]" ++ [NEWLINE])
       then Some (int_of_digits ds)
       else None.

(** [re.match(r'^\+\[ (\d+) lines removed \]$', l)] and the same with [-]:
    the sign, then the pattern above. *)
Definition match_signed_lines_removed (sign : str) (l : str) : option Z :=
  if starts_with sign l then match_lines_removed (drop 1 l) else None.

(** [re.match] of the hunk header, giving [m.groups()]: [@@ -], one or more
    digits (group 1), a comma or none, digits or none (group 2), [ +], and
    the same again (groups 3 and 4).
    The first match of the backtracking search is the greedy one, and there
    is no other (a digit is neither a comma nor a space). *)
Definition match_hunk (l : str) : option (str * str * str * str) :=
  r ← strip_prefix (lit "@@ -") l;
  let '(g1, r) := span_digits r in
  if bool_decide (g1 = []) then None
  else
    let r := if starts_with (lit ",") r then drop 1 r else r in
    let '(g2, r) := span_digits r in
    r ← strip_prefix (lit " +") r;
    let '(g3, r) := span_digits r in
    if bool_decide (g3 = []) then None
    else
      let r := if starts_with (lit ",") r then drop 1 r else r in
      let '(g4, _) := span_digits r in
      Some (g1, g2, g3, g4).

(** [x == '' and 1 or int(x)] *)
Definition hunk_field (x : str) : Z :=
  if bool_decide (x = []) then 1 else int_of_digits x.

(** [unified_diff.splitlines()]: the line boundaries of [str.splitlines],
    with [\r\n] as one. *)
Definition is_line_boundary (c : char) : bool :=
  bool_decide (c ∈ [10; 11; 12; 13; 28; 29; 30; 133; 8232; 8233]%N).

Fixpoint splitlines_from (cur : str) (x : str) : list str :=
  match x with
  | [] => match cur with [] => [] | _ => [rev cur] end
  | c :: rest =>
      if is_line_boundary c then
        rev cur ::
          match rest with
          | c' :: rest' =>
              if N.eqb c 13 && N.eqb c' 10 then splitlines_from [] rest'
              else splitlines_from [] rest
          | [] => []
          end
      else splitlines_from (c :: cur) rest
  end.

Definition splitlines (x : str) : list str := splitlines_from [] x.

(** ** The print functions *)

(** [limited_print_func(s, force)], made by [create_limited_print_func]
    with [max_page_size = Config().max_report_size]. *)
Definition limited_print_func (s : str) (force : bool) : M unit :=
  modify (fun st => set_out (out st ++ [s]) st);;
  modify (fun st => set_char_count (char_count st + len s) st);;
  count ← gets char_count;
  if negb force && (max_report_size <=? count) then raise PrintLimitReached
  else mret tt.

Definition write_page (filename s : str) (fs : list (str * child_page))
  : list (str * child_page) :=
  map (fun f => if bool_decide (f.1 = filename)
                then (f.1, mkPage (page_chunks f.2 ++ [s]) (bytes_written f.2 + len s))
                else f) fs.

Definition open_page (filename : str) (fs : list (str * child_page))
  : list (str * child_page) :=
  (filename, mkPage [] 0) :: filter (fun f => f.1 <> filename) fs.

Definition find_page (filename : str) (fs : list (str * child_page)) : option child_page :=
  snd <$> list_find (fun f => f.1 = filename) fs ≫= fun r => Some r.2.

(** [recording_print_func(s, force)] of the page [filename]. *)
Definition recording_print_func (filename s : str) (force : bool) : M unit :=
  fs ← gets files;
  match find_page filename fs with
  | None => raise TypeError
  | Some _ => modify (set_files (write_page filename s fs))
  end.

(** A call [print_func(s, force=force)]; calling [None] is a [TypeError]. *)
Definition call_print (p : option printer) (s : str) (force : bool) : M unit :=
  match p with
  | None => raise TypeError
  | Some Primary => limited_print_func s force
  | Some (Child filename) => recording_print_func filename s force
  end.

(** A call of the global [spl_print_func]. *)
Definition spl_print (s : str) (force : bool) : M unit :=
  p ← gets spl_print_func; call_print p s force.

Definition output_header (css_url : option str) (print_func : option printer) : M unit :=
  let css_link :=
    match css_url with
    | Some (c :: u) => q "<link href=`" ++ (c :: u) ++ q "` type=`text/css` rel=`stylesheet` />"
    | _ => []
    end in
  call_print print_func (HEADER FAVICON_BASE64 (html_escape argv_joined) css_link) false.

Definition output_footer (print_func : option printer) : M unit :=
  call_print print_func (FOOTER VERSION) true.

(** ** The row sink *)

Definition new_unified_diff : M unit :=
  modify (set_buf []);; modify (set_add_cpt 0);; modify (set_del_cpt 0);;
  modify (set_line1 0);; modify (set_line2 0);; modify (set_has_internal_linenos true);;
  modify (set_hunk 0 0 0 0);;
  modify (set_spl_rows 0);; modify (set_spl_current_page 0);;
  modify (set_spl_print_func None);; modify (set_spl_print_ctrl None).

(** [spl_print_enter(spl_file_printer(directory, filename), rotation_params)]:
    the file is opened (emptied) when the context is entered.  The files
    are all in [directory] and are named by [filename] alone. *)
Definition spl_print_enter (filename : str) (rp : rotation_params) : M unit :=
  modify (set_spl_print_ctrl (Some (Some filename, Some rp)));;
  modify (fun st => set_files (open_page filename (files st)) st);;
  modify (set_spl_print_func (Some (Child filename)));;
  let '(_, _, css_url) := rp in
  p ← gets spl_print_func;
  output_header css_url p.

Definition spl_had_entered_child : M bool :=
  ctrl ← gets spl_print_ctrl;
  page ← gets spl_current_page;
  mret match ctrl with
       | Some (_, Some _) => 0 <? page
       | _ => false
       end.

(** The exit function of the page's context closes the file and returns
    [False], whatever [exc_info] is. *)
Definition spl_print_exit : M bool :=
  entered ← spl_had_entered_child;
  if negb entered then mret false
  else
    p ← gets spl_print_func;
    output_footer p;;
    ctrl ← gets spl_print_ctrl;
    match ctrl with
    | None => raise TypeError
    | Some (_exit, _) =>
        modify (set_spl_print_func None);;
        modify (set_spl_print_ctrl None);;
        match _exit with
        | None => raise TypeError
        | Some _ => mret false
        end
    end.

Definition row_was_output : M unit :=
  modify (fun st => set_spl_rows (spl_rows st + 1) st);;
  ctrl ← gets spl_print_ctrl;
  match ctrl with
  | None => raise TypeError
  | Some (_, None) =>
      (* html-dir single output, don't need to rotate *)
      rows ← gets spl_rows;
      if max_diff_block_lines <=? rows then raise DiffBlockLimitReached else mret tt
  | Some (_, Some (directory, mainname, css_url)) =>
      (* html-dir output, perhaps need to rotate *)
      rows ← gets spl_rows;
      if max_diff_block_lines_html_dir_ratio * max_diff_block_lines <=? rows
      then raise DiffBlockLimitReached
      else
        page ← gets spl_current_page;
        stay ← (if page =? 0 then mret (rows <? max_diff_block_lines_parent)
                else
                  p ← gets spl_print_func;
                  fs ← gets files;
                  match p with
                  | None => raise AttributeError
                  | Some Primary => raise AttributeError
                  | Some (Child filename) =>
                      match find_page filename fs with
                      | None => raise AttributeError
                      | Some pg => mret (bytes_written pg <? max_report_child_size)
                      end
                  end);
        if (stay : bool) then mret tt
        else
          modify (fun st => set_spl_current_page (spl_current_page st + 1) st);;
          page ← gets spl_current_page;
          let filename := mainname ++ lit "-" ++ dec page ++ lit ".html" in
          (if 1 <? page then
             (* previous page was a child, close it *)
             spl_print (UD_TABLE_FOOTER (html_escape filename) (lit "load diff")) true;;
             _ ← spl_print_exit; mret tt
           else mret tt);;
          (* rotate to the next child page *)
          spl_print_enter filename (directory, mainname, css_url);;
          spl_print UD_TABLE_HEADER false
  end.

Definition output_hunk : M unit :=
  o1 ← gets hunk_off1; s1 ← gets hunk_size1;
  spl_print (q "<tr class=`diffhunk`><td colspan=`2`>Offset " ++ dec o1 ++ lit ", "
             ++ dec s1 ++ lit " lines modified</td>") false;;
  o2 ← gets hunk_off2; s2 ← gets hunk_size2;
  spl_print (q "<td colspan=`2`>Offset " ++ dec o2 ++ lit ", "
             ++ dec s2 ++ lit " lines modified</td></tr>" ++ [NEWLINE]) false;;
  row_was_output.

(** ** [output_line] *)

(** [if s and len(s) > MAX_LINE_SIZE: s = s[:MAX_LINE_SIZE] + ' ✂'] *)
Definition truncate_line (s : option str) : option str :=
  match s with
  | Some x =>
      if truthy s && (MAX_LINE_SIZE <? length x)%nat
      then Some (take MAX_LINE_SIZE x ++ [32; 9986]%N)
      else s
  | None => None
  end.

(** One side of the row: its cells. *)
Definition output_side (s : option str) (line : state -> Z) (tag : str) : M unit :=
  if truthy s then
    hil ← gets has_internal_linenos;
    (if (hil : bool) then spl_print (q "<td colspan=`2` class=`diffpresent`>") false
     else
       n ← gets line;
       spl_print (q "<td class=`diffline`>" ++ dec n ++ lit " </td>") false;;
       spl_print (q "<td class=`diffpresent`>") false);;
    spl_print (convert (default [] s) 1 tag) false;;
    spl_print (lit "</td>") false
  else spl_print (q "<td colspan=`2`>" ++ [160%N] ++ lit "</td>") false.

(** [m = orig and re.match(...); if m: line += int(m.group(1)); elif orig:
    line += 1] *)
Definition line_increment (orig : option str) : Z :=
  match (if truthy orig then match_lines_removed (default [] orig) else None) with
  | Some n => n
  | None => if truthy orig then 1 else 0
  end.

Definition output_line (s1 s2 : option str) : M unit :=
  let orig1 := s1 in
  let orig2 := s2 in
  let s1 := truncate_line s1 in
  let s2 := truncate_line s2 in
  '(type_name, s1, s2) ←
    (if bool_decide (s1 = None) && bool_decide (s2 = None) then
       mret (lit "unmodified", s1, s2)
     else if bool_decide (s1 = Some []) && bool_decide (s2 = Some []) then
       mret (lit "unmodified", s1, s2)
     else if bool_decide (s1 = None) || bool_decide (s1 = Some []) then
       mret (lit "added", s1, s2)
     else if bool_decide (s2 = None) || bool_decide (s2 = Some []) then
       mret (lit "deleted", s1, s2)
     else if bool_decide (orig1 = orig2)
             && negb (ends_with (lit "lines removed ]") (default [] s1))
             && negb (ends_with (lit "lines removed ]") (default [] s2)) then
       mret (lit "unmodified", s1, s2)
     else
       match s1, s2 with
       | Some a, Some b =>
           match linediff a b with
           | Some (a', b') => mret (lit "changed", Some a', Some b')
           | None => raise IndexError
           end
       | _, _ => raise TypeError
       end);
  spl_print (q "<tr class=`diff" ++ type_name ++ q "`>") false;;
  try_finally
    (output_side s1 line1 (lit "del");;
     output_side s2 line2 (lit "ins"))
    (spl_print (lit "</tr>" ++ [NEWLINE]) true;;
     row_was_output);;
  modify (fun st => set_line1 (line1 st + line_increment orig1) st);;
  modify (fun st => set_line2 (line2 st + line_increment orig2) st).

(** ** The pairing buffer *)

Definition empty_buffer : M unit :=
  d ← gets del_cpt; a ← gets add_cpt; b ← gets buf;
  (if (d =? 0) || (a =? 0) then
     for_in (fun l => output_line l.1 l.2) b
   else if negb (d =? 0) && negb (a =? 0) then
     let l0 := omap fst b in
     let l1 := omap snd b in
     let max_len := if (length l1 <? length l0)%nat then length l0 else length l1 in
     for_in (fun i => output_line (Some (default [] (l0 !! i)))
                                  (Some (default [] (l1 !! i))))
            (seq 0 max_len)
   else mret tt);;
  modify (set_add_cpt 0);; modify (set_del_cpt 0);;
  modify (set_buf []).

(** ** The scanner *)

(** [buf[-1] = ...] of the [\ No newline] line: an empty buffer is an
    [IndexError], a side that is [None] a [TypeError]. *)
Definition no_newline (l : str) : M unit :=
  b ← gets buf; hs2 ← gets hunk_size2;
  match list.last b with
  | None => raise IndexError
  | Some (x, y) =>
      if hs2 =? 0 then
        match y with
        | None => raise TypeError
        | Some y' =>
            modify (set_buf (removelast b ++ [(x, Some (y' ++ [NEWLINE] ++ drop 2 l))]))
        end
      else
        match x with
        | None => raise TypeError
        | Some x' =>
            modify (set_buf (removelast b ++ [(Some (x' ++ [NEWLINE] ++ drop 2 l), y)]))
        end
  end.

Definition buf_append (p : option str * option str) : M unit :=
  modify (fun st => set_buf (buf st ++ [p]) st).

(** The body of [for l in unified_diff.splitlines()]; a [continue] ends it. *)
Definition scan_line (l : str) : M unit :=
  modify (fun st => set_bytes_processed (bytes_processed st + (len l + 1)) st);;
  if starts_with (lit "--- ") l then empty_buffer
  else if starts_with (lit "+++ ") l then empty_buffer
  else
    match match_hunk l with
    | Some (g1, g2, g3, g4) =>
        empty_buffer;;
        modify (set_hunk (hunk_field g1) (hunk_field g2) (hunk_field g3) (hunk_field g4));;
        modify (fun st => set_line2 (hunk_off2 st) (set_line1 (hunk_off1 st) st));;
        output_hunk
    | None =>
        (if starts_with (lit "[") l then
           empty_buffer;;
           spl_print (q "<td colspan=`2`>" ++ l ++ lit "</td>" ++ [NEWLINE]) false
         else mret tt);;
        if starts_with (lit "\ No newline") l then no_newline l
        else
          hs1 ← gets hunk_size1; hs2 ← gets hunk_size2;
          if (hs1 <=? 0) && (hs2 <=? 0) then empty_buffer
          else
            match match_signed_lines_removed (lit "+") l with
            | Some n =>
                modify (fun st => set_add_cpt (add_cpt st + n) st);;
                modify (fun st => set_hunk_size2 (hunk_size2 st - n) st);;
                buf_append (None, Some (drop 1 l))
            | None =>
                if starts_with (lit "+") l then
                  modify (fun st => set_add_cpt (add_cpt st + 1) st);;
                  modify (fun st => set_hunk_size2 (hunk_size2 st - 1) st);;
                  buf_append (None, Some (drop 1 l))
                else
                  match match_signed_lines_removed (lit "-") l with
                  | Some n =>
                      modify (fun st => set_del_cpt (del_cpt st + n) st);;
                      modify (fun st => set_hunk_size1 (hunk_size1 st - n) st);;
                      buf_append (Some (drop 1 l), None)
                  | None =>
                      if starts_with (lit "-") l then
                        modify (fun st => set_del_cpt (del_cpt st + 1) st);;
                        modify (fun st => set_hunk_size1 (hunk_size1 st - 1) st);;
                        buf_append (Some (drop 1 l), None)
                      else if starts_with (lit " ") l
                              && negb (hs1 =? 0) && negb (hs2 =? 0) then
                        empty_buffer;;
                        modify (fun st => set_hunk_size1 (hunk_size1 st - 1) st);;
                        modify (fun st => set_hunk_size2 (hunk_size2 st - 1) st);;
                        buf_append (Some (drop 1 l), Some (drop 1 l))
                      else empty_buffer
                  end
            end
    end.

(** The [try] block of [output_unified_diff_table]. *)
Definition scan (unified_diff : str) : M bool :=
  modify (set_bytes_processed 0);;
  for_in scan_line (splitlines unified_diff);;
  empty_buffer;;
  mret true.

(** The row of the [except DiffBlockLimitReached] clause, the template
    filled with [(bytes_left, total, frac*100)]. *)
Definition block_limit_row (bytes_left total : Z) (percent : float) : str :=
  lit "<tr class='error'><td colspan='4'>Max diff block lines reached; "
  ++ dec bytes_left ++ lit "/" ++ dec total ++ lit " bytes ("
  ++ format_2f percent
  ++ lit "%) of diff not shown.</td></tr>".

Definition output_unified_diff_table (unified_diff : str) (_has_internal_linenos : bool)
  : M bool :=
  modify (set_has_internal_linenos _has_internal_linenos);;
  spl_print UD_TABLE_HEADER false;;
  try_finally
    (try_except (scan unified_diff)
       (fun e =>
          match e with
          | DiffBlockLimitReached => Some (
              let total := len unified_diff in
              processed ← gets bytes_processed;
              let bytes_left := total - processed in
              if total =? 0 then raise ZeroDivisionError
              else
                match true_divide bytes_left total with
                | None => raise OverflowError
                | Some frac =>
                    spl_print (block_limit_row bytes_left total (float_times_100 frac))
                              true;;
                    mret false
                end)
          | PrintLimitReached => Some (
              entered ← spl_had_entered_child;
              if (entered : bool) then raise AssertionError
              else
                (* limit reached on the parent page *)
                spl_print (lit "<tr class='error'><td colspan='4'>Max output size reached.</td></tr>")
                          true;;
                raise PrintLimitReached)
          | _ => None
          end))
    (spl_print (lit "</table>") true).

(** [print_func] is the report's limited print function. *)
Definition output_unified_diff (css_url directory : option str) (unified_diff : str)
    (has_internal_linenos : bool) : M unit :=
  new_unified_diff;;
  let rotation_params : option rotation_params :=
    match directory with
    | Some (c :: dir) => Some (c :: dir, md5_hexdigest unified_diff, css_url)
    | _ => None
    end in
  truncated ←
    try_finally
      (try_except_else
         (modify (set_spl_print_func (Some Primary));;
          modify (set_spl_print_ctrl (Some (None, rotation_params)));;
          t ← output_unified_diff_table unified_diff has_internal_linenos;
          mret (negb t))
         (fun e =>
            suppressed ← spl_print_exit;
            if (suppressed : bool) then mret None else raise e)
         (fun truncated => _ ← spl_print_exit; mret (Some truncated)))
      (modify (set_spl_print_ctrl None);; modify (set_spl_print_func None));
  page ← gets spl_current_page;
  if 0 <? page then
    let noun := if 1 <? page then lit "pieces" else lit "piece" in
    match truncated, rotation_params with
    | Some truncated, Some (_, mainname, _) =>
        let text := lit "load diff (" ++ dec page ++ lit " " ++ noun
                    ++ (if (truncated : bool) then lit ", truncated" else []) ++ lit ")" in
        limited_print_func
          (UD_TABLE_FOOTER (html_escape (mainname ++ lit "-1.html")) text) true
    | _, _ => raise UnboundLocalError
    end
  else mret tt.

(** ** The report shell *)

Fixpoint output_difference (difference : Difference) (css_url directory : option str)
    (parents : list str) : M unit :=
  match difference with
  | mkDifference source1 source2 comments unified_diff has_internal_linenos details =>
      let sources := parents ++ [source1] in
      limited_print_func (lit "<div class='difference'>") false;;
      try_finally
        (limited_print_func (lit "<div class='diffheader'>") false;;
         (if bool_decide (source1 = source2) then
            limited_print_func (lit "<div><span class='source'>" ++ html_escape source1
                                ++ lit "<span>") false
          else
            limited_print_func (lit "<div><span class='source'>" ++ html_escape source1
                                ++ lit "</span> vs.</div>") false;;
            limited_print_func (lit "<div><span class='source'>" ++ html_escape source2
                                ++ lit "</span>") false);;
         let anchor := join (lit "/") (drop 1 sources) in
         limited_print_func (lit " <a class='anchor' href='#" ++ anchor ++ lit "' name='"
                             ++ anchor ++ lit "'>" ++ [182%N] ++ lit "</a>") false;;
         limited_print_func (lit "</div>") false;;
         (match comments with
          | _ :: _ =>
              limited_print_func (lit "<div class='comment'>"
                                  ++ join (lit "<br />") (map html_escape comments)
                                  ++ lit "</div>") false
          | [] => mret tt
          end);;
         limited_print_func (lit "</div>") false;;
         (if truthy unified_diff then
            output_unified_diff css_url directory (default [] unified_diff)
                                has_internal_linenos
          else mret tt);;
         for_in (fun detail => output_difference detail css_url directory sources) details)
        (limited_print_func (lit "</div>") true)
  end.

Definition max_output_size_reached : str :=
  lit "<div class='error'>Max output size reached.</div>".

(** [output_html(difference, css_url, print_func)]; [out] takes the calls of
    the underlying [print_func]. *)
Definition output_html (difference : Difference) (css_url : option str) : M unit :=
  modify (set_char_count 0);;
  try_except
    (output_header css_url (Some Primary);;
     output_difference difference css_url None [])
    (fun e =>
       match e with
       | PrintLimitReached => Some (limited_print_func max_output_size_reached true)
       | _ => None
       end);;
  output_footer (Some Primary).

(** [output_html_directory(directory, difference, css_url, jquery_url)] from
    the point where [jquery_url] has been looked up in the file system;
    [out] takes what is written to [index.html]. *)
Definition output_html_directory (directory : str) (difference : Difference)
    (css_url jquery_url : option str) : M unit :=
  let jquery_url := if bool_decide (jquery_url = Some (lit "disable")) then None else jquery_url in
  modify (set_char_count 0);;
  try_except
    (output_header css_url (Some Primary);;
     output_difference difference css_url (Some directory) [])
    (fun e =>
       match e with
       | PrintLimitReached => Some (limited_print_func max_output_size_reached true)
       | _ => None
       end);;
  (if truthy jquery_url then
     limited_print_func (SCRIPTS (html_escape (default [] jquery_url))) true
   else mret tt);;
  output_footer (Some Primary).

End Presenter.

(** The module's globals when it is loaded, and empty streams. *)
Definition initial_state : state :=
  mkState [] 0 0 0 0 true 0 0 0 0 0 0 None None 0 [] 0 [].

(** An environment with the ASCII digits, for running the model. *)
Definition ascii_digit_value (c : char) : option N :=
  if (48 <=? c)%N && (c <=? 57)%N then Some (c - 48)%N else None.

(** Values for running the model: the ASCII digits, a fixed digest, and
    limits of the size of the tool's defaults. *)
Definition sample_env : Env :=
  {| digit_value := ascii_digit_value;
     md5_hexdigest := fun _ => lit "0123456789abcdef0123456789abcdef";
     FAVICON_BASE64 := [];
     VERSION := lit "0";
     argv_joined := lit "diffoscope" |}.

Definition sample_config : Config :=
  {| max_report_size := 2048000;
     max_report_child_size := 512000;
     max_diff_block_lines := 1024;
     max_diff_block_lines_parent := 50;
     max_diff_block_lines_html_dir_ratio := 4 |}.

Definition with_limits (report_size block_lines block_lines_parent : Z) : Config :=
  {| max_report_size := report_size;
     max_report_child_size := 512000;
     max_diff_block_lines := block_lines;
     max_diff_block_lines_parent := block_lines_parent;
     max_diff_block_lines_html_dir_ratio := 4 |}.

(** The state in which [output_unified_diff] calls
    [output_unified_diff_table] in single-file mode. *)
Definition single_file_start : state :=
  set_spl_print_ctrl (Some (None, None)) (set_spl_print_func (Some Primary) initial_state).

(** [lines(["a"; "b"])] is the text ["a
b
"]. *)
Definition lines (l : list string) : str :=
  concat (map (fun x => lit x ++ [NEWLINE]) l).

(** * Specification vocabulary

    The predicates and the named scanner branches in which the properties
    below are stated. *)

Definition dims (m n : nat) (d : matrix) : Prop :=
  length d = S m /\ forall i row, d !! i = Some row -> length row = S n.

Definition cost_of (sc tc : char) : Z := if N.eqb sc tc then 0 else 1.

Definition cell_ok (s t : str) (d : matrix) (x y : nat) : Prop :=
  match x, y with
  | O, O => mget d 0 0 = Some (0, (0%nat, 0%nat))
  | S x', O => mget d x 0 = Some (Z.of_nat x, (x', 0%nat))
  | O, S y' => mget d 0 y = Some (Z.of_nat y, (0%nat, y'))
  | S x', S y' =>
      exists sc tc up left diag,
        s !! x' = Some sc /\ t !! y' = Some tc /\
        mget d x' y = Some up /\ mget d x y' = Some left /\
        mget d x' y' = Some diag /\
        mget d x y = Some (py_min3 (up.1 + 1, (x', y)) (left.1 + 1, (x, y'))
                                   (diag.1 + cost_of sc tc, (x', y')))
  end.

Definition table_inv (s t : str) (R : nat -> nat -> Prop) (d : matrix) : Prop :=
  dims (length s) (length t) d /\
  forall x y, (x <= length s)%nat -> (y <= length t)%nat -> R x y -> cell_ok s t d x y.

Definition down_closed (R : nat -> nat -> Prop) : Prop :=
  forall x y, R (S x) (S y) -> R x (S y) /\ R (S x) y /\ R x y.

Definition all_cells : nat -> nat -> Prop := fun _ _ => True.

Definition not_marker (c : char) : Prop := c <> DIFFON /\ c <> DIFFOFF.

(** [triple P m Q X]: from a state in [P], [m] completes in [Q] or raises
    in [X]. *)
Definition triple {A : Type} (P : state -> Prop) (m : M A)
    (Q : A -> state -> Prop) (X : exn -> state -> Prop) : Prop :=
  forall st, P st ->
    match m st with
    | (Ok a, st') => Q a st'
    | (Raise e, st') => X e st'
    end.

(** [I] holds after [m], however it ends. *)
Definition preserves {A : Type} (I : state -> Prop) (m : M A) : Prop :=
  triple I m (fun _ => I) (fun _ => I).

Section Vocabulary.
Context {E : Env} {cfg : Config}.

Definition count_line (l : str) : M unit :=
  modify (fun st => set_bytes_processed (bytes_processed st + (len l + 1)) st).

(** What the scanner does with a context line. *)
Definition consume_context (l : str) : M unit :=
  count_line l;;
  empty_buffer;;
  modify (fun st => set_hunk_size1 (hunk_size1 st - 1) st);;
  modify (fun st => set_hunk_size2 (hunk_size2 st - 1) st);;
  buf_append (Some (drop 1 l), Some (drop 1 l)).

(** What the scanner does with a line it ignores. *)
Definition ignore_line (l : str) : M unit :=
  count_line l;; empty_buffer.

(** What the scanner does with a line that starts with a bracket. *)
Definition bracket_line (l : str) : M unit :=
  count_line l;;
  empty_buffer;;
  spl_print (q "<td colspan=`2`>" ++ l ++ lit "</td>" ++ [NEWLINE]) false;;
  empty_buffer.

Definition lines_at (a b : Z) (st : state) : Prop := line1 st = a /\ line2 st = b.
Definition lines_from (a b : Z) (st : state) : Prop := a <= line1 st /\ b <= line2 st.

Definition single_file (st : state) : Prop :=
  spl_print_func st = Some Primary /\ spl_print_ctrl st = Some (None, None).

(** In single-file mode the block limit is only raised with the row count
    at the cap or over it. *)
Definition block_limit_at_cap (e : exn) (st : state) : Prop :=
  single_file st /\
  (e = DiffBlockLimitReached -> max_diff_block_lines <= spl_rows st).

Definition no_block_limit (e : exn) (st : state) : Prop :=
  single_file st /\ e <> DiffBlockLimitReached.

End Vocabulary.

Definition clean (s : str) : Prop := Forall not_marker s.

Definition clean_opt (o : option str) : Prop :=
  match o with Some s => clean s | None => True end.

Definition clean_params (c : option (option str * option rotation_params)) : Prop :=
  match c with
  | Some (_, Some (_, mainname, css_url)) => clean mainname /\ clean_opt css_url
  | _ => True
  end.

Definition clean_pages (fs : list (str * child_page)) : Prop :=
  Forall (fun f => Forall clean (page_chunks f.2)) fs.

(** Nothing written so far holds a marker, and the names the row sink
    writes on a rotation hold none. *)
Definition clean_state (st : state) : Prop :=
  Forall clean (out st) /\ clean_pages (files st) /\ clean_params (spl_print_ctrl st).

Definition env_clean (E : Env) : Prop :=
  (forall x, clean (md5_hexdigest x)) /\
  clean FAVICON_BASE64 /\ clean VERSION /\ clean argv_joined.

(** A difference whose labels, comments and bracket lines hold no marker:
    the texts the presenter writes without passing them to [convert]. *)
Definition brackets_clean (unified_diff : option str) : Prop :=
  Forall (fun l => starts_with (lit "[") l = true -> clean l)
         (splitlines (default [] unified_diff)).

Inductive difference_clean : Difference -> Prop :=
  | difference_clean_node source1 source2 comments unified_diff hil details :
      clean source1 -> clean source2 -> Forall clean comments ->
      brackets_clean unified_diff ->
      Forall difference_clean details ->
      difference_clean (mkDifference source1 source2 comments unified_diff hil details).


Definition e4_diff : str :=
  lines ["@@ -1,4 +1,4 @@"; " a"; " b"; " c"; " d"]%string.

Definition e4_difference : Difference :=
  mkDifference (lit "a") (lit "b") [] (Some e4_diff) true [].

(** The difference of the failing input of the assertion: one context line
    after a hunk header. *)
Definition one_line_difference : Difference :=
  mkDifference (lit "a") (lit "b") []
    (Some (lines ["@@ -1 +1 @@"; " a"]%string)) true [].

(** The state after the scanner has read [ls] in single-file mode. *)
Definition scanned (ls : list string) : state :=
  (for_in (scan_line (E := sample_env) (cfg := sample_config)) (map lit ls)
          single_file_start).2.

Definition marked_difference : Difference :=
  mkDifference [DIFFON] [DIFFON] [] None true [].

(** The two limits of the presenter. *)
Definition is_limit (e : exn) : Prop :=
  e = PrintLimitReached \/ e = DiffBlockLimitReached.

(** Single-file mode, where the rows stay on the one page. *)
Definition on_parent (st : state) : Prop :=
  single_file st /\ spl_current_page st = 0.

(** In single-file mode, a limit is raised, or an exception of [extra]. *)
Definition limit_or (extra : exn -> Prop) (e : exn) (st : state) : Prop :=
  on_parent st /\ (is_limit e \/ extra e).

(** In single-file mode, the print limit is raised, or an exception of
    [extra]. *)
Definition print_limit_or (extra : exn -> Prop) (e : exn) (st : state) : Prop :=
  on_parent st /\ (e = PrintLimitReached \/ extra e).

(** A line that is not the [\ No newline at end of file] line of diff. *)
Definition plain_line (l : str) : Prop :=
  starts_with (lit "\ No newline") l = false.

(** A diff, and a difference tree, with no such line. *)
Definition plain_diff (unified_diff : str) : Prop :=
  Forall plain_line (splitlines unified_diff).

Inductive plain_difference : Difference -> Prop :=
  | plain_difference_node source1 source2 comments unified_diff hil details :
      plain_diff (default [] unified_diff) ->
      Forall plain_difference details ->
      plain_difference (mkDifference source1 source2 comments unified_diff hil details).

(** What the [\ No newline] line raises when no line is there to amend. *)
Definition no_newline_error (e : exn) : Prop := e = IndexError \/ e = TypeError.

(** The line [l] raises nothing but a limit or an exception of [extra]:
    it is a plain line, or [extra] has the errors of [\ No newline]. *)
Definition line_within (extra : exn -> Prop) (l : str) : Prop :=
  plain_line l \/ (forall e, no_newline_error e -> extra e).

Definition difference_within (extra : exn -> Prop) (difference : Difference) : Prop :=
  plain_difference difference \/ (forall e, no_newline_error e -> extra e).

(** An exception that is not the block limit, or neither limit. *)
Definition not_block_limit (e : exn) (st : state) : Prop := e <> DiffBlockLimitReached.

Definition no_limit (e : exn) (st : state) : Prop :=
  e <> DiffBlockLimitReached /\ e <> PrintLimitReached.

Definition any_state (st : state) : Prop := True.

(** How a report ends: with the footer as the last text written, or with an
    exception that is neither of the two limits. *)
Definition report_outcome {E : Env} (r : result unit * state) : Prop :=
  match r with
  | (Ok _, st') => list.last (out st') = Some (FOOTER VERSION)
  | (Raise e, _) => e <> PrintLimitReached /\ e <> DiffBlockLimitReached
  end.

(** The text [output_header] writes. *)
Definition header_chunk {E : Env} (css_url : option str) : str :=
  HEADER FAVICON_BASE64 (html_escape argv_joined)
    match css_url with
    | Some (c :: u) => q "<link href=`" ++ (c :: u) ++ q "` type=`text/css` rel=`stylesheet` />"
    | _ => []
    end.

(** The page [pg] after [s] is written to it. *)
Definition page_write (s : str) (pg : child_page) : child_page :=
  mkPage (page_chunks pg ++ [s]) (bytes_written pg + len s).

(** A state on the parent page of a report with child pages, and a state
    on an open child page. *)
Definition parent_page_start : state :=
  set_spl_print_ctrl (Some (None, Some (lit "dir", lit "abc", None)))
    (set_spl_print_func (Some Primary) initial_state).

Definition child_page_start : state :=
  set_files [(lit "abc-1.html", mkPage [] 0)]
    (set_spl_print_func (Some (Child (lit "abc-1.html"))) initial_state).

(** What a flush of the buffer leaves alone: the hunk counters and the
    count of the bytes read. *)
Definition hunk_frame (s1 s2 b : Z) (st : state) : Prop :=
  hunk_size1 st = s1 /\ hunk_size2 st = s2 /\ bytes_processed st = b.

(** The state after the scanner has buffered [p] for a line [l] that
    counts for [n] added or, when [added] is false, [n] deleted lines. *)
Definition buffered (added : bool) (n : Z) (l : str) (p : option str * option str)
    (st : state) : state :=
  let st := set_bytes_processed (bytes_processed st + (len l + 1)) st in
  let st := if added then set_add_cpt (add_cpt st + n) st
            else set_del_cpt (del_cpt st + n) st in
  let st := if added then set_hunk_size2 (hunk_size2 st - n) st
            else set_hunk_size1 (hunk_size1 st - n) st in
  set_buf (buf st ++ [p]) st.

(** Where a reader of a marked string stands: outside a highlighted run,
    just after the end of one, just after the start of one, or inside one
    after a character of it. *)
Inductive marker_state := Outside | AfterOff | AfterOn | Inside.

(** One character read.  A run starts outside and ends after at least one
    character; with [merged], no run starts just after the end of one. *)
Definition marker_step (merged : bool) (q : marker_state) (c : char) : option marker_state :=
  if N.eqb c DIFFON then
    match q with
    | Outside => Some AfterOn
    | AfterOff => if merged then None else Some AfterOn
    | _ => None
    end
  else if N.eqb c DIFFOFF then
    match q with
    | Inside => Some AfterOff
    | _ => None
    end
  else
    match q with
    | Outside | AfterOff => Some Outside
    | AfterOn | Inside => Some Inside
    end.

Fixpoint marker_run (merged : bool) (q : marker_state) (x : str) : bool :=
  match x with
  | [] => match q with Outside | AfterOff => true | _ => false end
  | c :: r =>
      match marker_step merged q c with
      | Some q' => marker_run merged q' r
      | None => false
      end
  end.

(** The markers of [x] come in pairs [DIFFON ... DIFFOFF] that are not
    nested, each around at least one character, and no pair starts right
    after the end of another. *)
Definition well_marked (x : str) : Prop := marker_run true Outside x = true.

(** A piece appended to [l1] or [l2]: nothing, a character, or a character
    between the markers. *)
Definition piece (p : str) : Prop :=
  p = [] \/ exists c, not_marker c /\ (p = [c] \/ p = [DIFFON; c; DIFFOFF]).

(** The number of characters in a list of texts. *)
Definition total_len (l : list str) : Z := foldr (fun s n => len s + n) 0 l.

(** What [print] writes for the texts [l]: each one and a newline. *)
Definition printed (l : list str) : str := concat (map (fun s => s ++ [NEWLINE]) l).

(** The report is the texts [l0] and then those written since the count
    was [k], which are counted. *)
Definition accounted (k : Z) (l0 : list str) (st : state) : Prop :=
  exists new, out st = l0 ++ new /\ char_count st = k + total_len new.

(** The environment reads the ASCII digits as Python does. *)
Definition ascii_digits (E : Env) : Prop :=
  forall c, (c < 128)%N -> digit_value c = ascii_digit_value c.

(** The placeholder diffoscope puts for [n] lines it has left out. *)
Definition lines_removed_placeholder (n : Z) : str :=
  lit "[ " ++ dec n ++ lit " lines removed ]".

(** A hunk header with its two offsets and, when given, its two sizes. *)
Definition hunk_header (a : Z) (b : option Z) (c : Z) (d : option Z) : str :=
  lit "@@ -" ++ dec a ++ match b with Some b => lit "," ++ dec b | None => [] end
  ++ lit " +" ++ dec c ++ match d with Some d => lit "," ++ dec d | None => [] end
  ++ lit " @@".

(** The hunk counters and the line numbers. *)
Definition hunk_at (a b c d : Z) (st : state) : Prop :=
  hunk_off1 st = a /\ hunk_size1 st = b /\ hunk_off2 st = c /\ hunk_size2 st = d /\
  line1 st = a /\ line2 st = c.

(** A decimal number as the characters of its digits. *)
Definition digits_of (d : Decimal.uint) : str := lit (DecimalString.NilEmpty.string_of_uint d).

(** A line of text: no character at which [splitlines] cuts. *)
Definition one_line (l : str) : Prop := Forall (fun c => is_line_boundary c = false) l.

(** The text of the lines [ls], each ended by a newline. *)
Definition unlines (ls : list str) : str := concat (map (fun l => l ++ [NEWLINE]) ls).

(** The count of the bytes read is the size of the first [k] lines. *)
Definition read_lines (ls : list str) (k : nat) (st : state) : Prop :=
  bytes_processed st = len (unlines (take k ls)).

(** The count of the bytes read is [b]. *)
Definition bytes_are (b : Z) (st : state) : Prop := bytes_processed st = b.

(** A string with no code point below 32. *)
Definition printable (s : str) : Prop := Forall (fun c => (32 <= c)%N) s.

(** The text the line [l] adds to the line before it. *)
Definition no_newline_text (l : str) : str := [NEWLINE] ++ drop 2 l.

(** Single-file mode, with the files as they are in [fs]. *)
Definition single_file_with (fs : list (str * child_page)) (st : state) : Prop :=
  single_file st /\ files st = fs.

Definition files_are (fs : list (str * child_page)) (st : state) : Prop :=
  files st = fs.

(** The class [output_line] gives the row of [s1] and [s2]. *)
Definition row_type (s1 s2 : option str) : str :=
  let t1 := truncate_line s1 in
  let t2 := truncate_line s2 in
  if bool_decide (t1 = None) && bool_decide (t2 = None) then lit "unmodified"
  else if bool_decide (t1 = Some []) && bool_decide (t2 = Some []) then lit "unmodified"
  else if bool_decide (t1 = None) || bool_decide (t1 = Some []) then lit "added"
  else if bool_decide (t2 = None) || bool_decide (t2 = Some []) then lit "deleted"
  else if bool_decide (s1 = s2)
          && negb (ends_with (lit "lines removed ]") (default [] t1))
          && negb (ends_with (lit "lines removed ]") (default [] t2)) then lit "unmodified"
  else lit "changed".

(** The opening of the row. *)
Definition row_opening (s1 s2 : option str) : str :=
  q "<tr class=`diff" ++ row_type s1 s2 ++ q "`>".

(** Single-file mode, with [n] rows counted and the text [o] written. *)
Definition row_open (n : Z) (o : str) (st : state) : Prop :=
  single_file st /\ spl_rows st = n /\ o ∈ out st.

(** The tail of [output_line], after the class of the row is known. *)
Definition output_row {E : Env} {cfg : Config} (type_name : str)
    (orig1 orig2 s1 s2 : option str) : M unit :=
  spl_print (q "<tr class=`diff" ++ type_name ++ q "`>") false;;
  try_finally
    (output_side s1 line1 (lit "del");;
     output_side s2 line2 (lit "ins"))
    (spl_print (lit "</tr>" ++ [NEWLINE]) true;;
     row_was_output);;
  modify (fun st => set_line1 (line1 st + line_increment orig1) st);;
  modify (fun st => set_line2 (line2 st + line_increment orig2) st).

(** The pairs a flush of the buffer gives to [output_line], in order: the
    buffer as it is when one of the two counters is zero; else the [i]-th
    line of the left sides with the [i]-th line of the right sides, an
    empty text standing for a line that is missing. *)
Definition flush_pairs (st : state) : list (option str * option str) :=
  if (del_cpt st =? 0) || (add_cpt st =? 0) then buf st
  else
    let l0 := omap fst (buf st) in
    let l1 := omap snd (buf st) in
    map (fun i => (Some (default [] (l0 !! i)), Some (default [] (l1 !! i))))
        (seq 0 (length l0 `max` length l1)).


(** * Properties *)

Lemma sane_fold x : forall acc,
  fold_left (fun r i => r ++ [sane_char i]) x acc = acc ++ map sane_char x.
Proof.
  induction x as [|c x IH]; intros acc; simpl.
  - by rewrite app_nil_r.
  - rewrite IH. by rewrite <- app_assoc.
Qed.

Lemma sane_map x : sane x = map sane_char x.
Proof. unfold sane. by rewrite sane_fold. Qed.

Lemma sane_char_idem c : sane_char (sane_char c) = sane_char c.
Proof.
  unfold sane_char.
  destruct (negb (N.eqb c TAB || N.eqb c NEWLINE) && N.ltb c 32) eqn:E; [reflexivity|].
  by rewrite E.
Qed.

(** *** Loops over [range] *)

Lemma for_each_seq_inv {S : Type} (body : nat -> S -> option S)
    (P : nat -> S -> Prop) (k a : nat) (st : S) :
  P a st ->
  (forall i st0, (a <= i < a + k)%nat -> P i st0 ->
     exists st1, body i st0 = Some st1 /\ P (Datatypes.S i) st1) ->
  exists st', for_each body (seq a k) st = Some st' /\ P (a + k)%nat st'.
Proof.
  revert a st. induction k as [|k IH]; intros a st H0 Hstep; simpl.
  - exists st. by rewrite Nat.add_0_r.
  - destruct (Hstep a st) as (st1 & -> & H1); [lia|done|].
    destruct (IH (Datatypes.S a) st1 H1) as (st' & Hr & HP).
    { intros i st0 Hi. apply Hstep. lia. }
    exists st'. split; [done|]. by replace (a + Datatypes.S k)%nat with (Datatypes.S a + k)%nat by lia.
Qed.

(** *** Reading and writing the table *)

Lemma mset_Some m n d i j v :
  dims m n d -> (i <= m)%nat -> (j <= n)%nat ->
  exists d', mset d i j v = Some d' /\ dims m n d' /\
    mget d' i j = Some v /\
    forall x y, (x, y) <> (i, j) -> mget d' x y = mget d x y.
Proof.
  intros [Hl Hr] Hi Hj. unfold mset.
  destruct (d !! i) as [row|] eqn:Erow.
  2:{ apply lookup_ge_None in Erow. lia. }
  simpl. pose proof (Hr _ _ Erow) as Hlen.
  destruct (decide (j < length row)%nat) as [Hlt|]; [|lia].
  eexists; split; [done|]. split; [|split].
  - split; [by rewrite length_insert|].
    intros x r. destruct (decide (x = i)) as [->|Hne].
    + rewrite list_lookup_insert_eq by (apply lookup_lt_Some in Erow; lia).
      intros [= <-]. by rewrite length_insert.
    + rewrite list_lookup_insert_ne by done. apply Hr.
  - unfold mget. rewrite list_lookup_insert_eq by (apply lookup_lt_Some in Erow; lia).
    simpl. by rewrite list_lookup_insert_eq.
  - intros x y Hne. unfold mget. destruct (decide (x = i)) as [->|Hxi].
    + rewrite list_lookup_insert_eq by (apply lookup_lt_Some in Erow; lia).
      rewrite Erow. simpl. apply list_lookup_insert_ne. congruence.
    + by rewrite list_lookup_insert_ne.
Qed.

(** *** The recurrence the filled table obeys *)

Lemma cell_ok_frame s t d d' i j x y R :
  down_closed R -> R x y -> ~ R i j ->
  (forall a b, (a, b) <> (i, j) -> mget d' a b = mget d a b) ->
  cell_ok s t d x y -> cell_ok s t d' x y.
Proof.
  intros Hdc HR HnR Hfr. 
  assert (Hne : forall a b, R a b -> mget d' a b = mget d a b).
  { intros a b Hab. apply Hfr. intros [= -> ->]. done. }
  destruct x as [|x'], y as [|y']; simpl.
  - by rewrite Hne.
  - by rewrite Hne.
  - by rewrite Hne.
  - intros (sc & tc & up & left & diag & ? & ? & ? & ? & ? & ?).
    destruct (Hdc _ _ HR) as (? & ? & ?).
    exists sc, tc, up, left, diag. rewrite !Hne by done. done.
Qed.

Lemma table_inv_step s t (R R' : nat -> nat -> Prop) d i j v :
  table_inv s t R d -> down_closed R -> ~ R i j ->
  (i <= length s)%nat -> (j <= length t)%nat ->
  (forall x y, R' x y -> R x y \/ (x, y) = (i, j)) ->
  (forall d', mget d' i j = Some v ->
     (forall a b, (a, b) <> (i, j) -> mget d' a b = mget d a b) ->
     cell_ok s t d' i j) ->
  exists d', mset d i j v = Some d' /\ table_inv s t R' d'.
Proof.
  intros [Hd Hok] Hdc HnR Hi Hj HR' Hnew.
  destruct (mset_Some _ _ d i j v Hd Hi Hj) as (d' & Hset & Hd' & Hget & Hfr).
  exists d'. split; [done|]. split; [done|].
  intros x y Hx Hy HRxy. destruct (HR' _ _ HRxy) as [HRold|[= -> ->]].
  - eapply cell_ok_frame; eauto.
  - by apply Hnew.
Qed.

Lemma fill_cell_step s t d i j :
  let R := fun x y => x = 0%nat \/ y = 0%nat \/ (x < i)%nat \/ (x = i /\ y < j)%nat in
  let R' := fun x y => x = 0%nat \/ y = 0%nat \/ (x < i)%nat \/ (x = i /\ y < S j)%nat in
  (1 <= i <= length s)%nat -> (1 <= j <= length t)%nat ->
  table_inv s t R d ->
  exists d', fill_cell s t i j d = Some d' /\ table_inv s t R' d'.
Proof.
  intros R R' Hi Hj Hinv.
  destruct i as [|x']; [lia|]. destruct j as [|y']; [lia|].
  pose proof Hinv as [Hd Hok].
  destruct (lookup_lt_is_Some_2 s x') as [sc Hsc]; [lia|].
  destruct (lookup_lt_is_Some_2 t y') as [tc Htc]; [lia|].
  assert (Hcell : forall a b, (a <= length s)%nat -> (b <= length t)%nat -> R a b ->
            exists c, mget d a b = Some c).
  { intros a b Ha Hb HR. specialize (Hok a b Ha Hb HR).
    destruct a, b; simpl in Hok; eauto.
    destruct Hok as (? & ? & ? & ? & ? & ? & ? & ? & ? & ? & ?). eauto. }
  destruct (Hcell x' (S y')) as [up Hup]; [lia|lia|unfold R; lia|].
  destruct (Hcell (S x') y') as [left Hleft]; [lia|lia|unfold R; lia|].
  destruct (Hcell x' y') as [diag Hdiag]; [lia|lia|unfold R; lia|].
  unfold fill_cell.
  replace (S x' - 1)%nat with x' by lia. replace (S y' - 1)%nat with y' by lia.
  rewrite Hsc, Htc, Hup, Hleft, Hdiag. simpl.
  eapply table_inv_step; [exact Hinv| | | | | |].
  - intros x y HR. unfold R in *. lia.
  - unfold R. lia.
  - lia.
  - lia.
  - intros x y HR'. unfold R, R' in *.
    destruct (decide ((x, y) = (S x', S y'))) as [|Hne]; [by right|left].
    assert (x <> S x' \/ y <> S y') by (destruct (decide (x = S x')); [right; congruence|by left]).
    lia.
  - intros d' Hget Hfr. simpl. exists sc, tc, up, left, diag.
    rewrite !Hfr by (intros [=]; lia). done.
Qed.

Theorem fill_table_ok s t :
  exists d, fill_table s t = Some d /\ table_inv s t all_cells d.
Proof.
  unfold fill_table.
  set (m := length s). set (n := length t).
  set (d0 := replicate (S m) (replicate (S n) ((0, (0%nat, 0%nat)) : cell))).
  assert (Hd0 : table_inv s t (fun _ _ => False) d0).
  { split; [|done]. unfold d0. split; [by rewrite length_replicate|].
    intros i row Hrow. apply lookup_replicate in Hrow as [-> _]. by rewrite length_replicate. }
  (* d[0][0] *)
  destruct (table_inv_step s t (fun _ _ => False) (fun x y => x = 0%nat /\ y = 0%nat)
              d0 0 0 (0, (0%nat, 0%nat)) Hd0) as (d1 & -> & Hd1);
    [done|tauto|lia|lia|intros x y [-> ->]; by right|by intros|].
  simpl.
  (* first column *)
  destruct (for_each_seq_inv
              (fun i d => mset d i 0 (Z.of_nat i, ((i - 1)%nat, 0%nat)))
              (fun i d => table_inv s t (fun x y => (x < i)%nat /\ y = 0%nat) d) m 1 d1)
    as (d2 & -> & Hd2).
  { destruct Hd1 as [? H1]. split; [done|]. intros x y ? ? [? ->]. apply H1; [done|done|lia]. }
  { intros i d Hi Hd. eapply table_inv_step; [exact Hd| | | | | |].
    - intros x y [_ Hy]. discriminate.
    - cbv beta; lia.
    - cbv beta; unfold m in *; lia.
    - cbv beta; lia.
    - intros x y [Hx ->]. destruct (decide (x = i)) as [->|]; [by right|left; lia].
    - intros d' Hget _. destruct i as [|i']; [lia|]. unfold cell_ok.
      rewrite Hget. repeat f_equal; lia. }
  simpl.
  (* first row *)
  destruct (for_each_seq_inv
              (fun j d => mset d 0 j (Z.of_nat j, (0%nat, (j - 1)%nat)))
              (fun j d => table_inv s t (fun x y => y = 0%nat \/ (x = 0%nat /\ y < j)%nat) d) n 1 d2)
    as (d3 & -> & Hd3).
  { destruct Hd2 as [? H2]. split; [done|]. intros x y ? ? Hxy. apply H2; [done|done|].
    unfold m. lia. }
  { intros j d Hj Hd. eapply table_inv_step; [exact Hd| | | | | |].
    - intros x y [Hy|[Hx _]]; discriminate.
    - cbv beta; lia.
    - cbv beta; lia.
    - cbv beta; unfold n in *; lia.
    - intros x y Hxy. destruct (decide ((x, y) = (0%nat, j))) as [|Hne]; [by right|left].
      assert (x <> 0%nat \/ y <> j) by (destruct (decide (x = 0%nat)); [right; congruence|by left]).
      lia.
    - intros d' Hget _. destruct j as [|j']; [lia|]. unfold cell_ok.
      rewrite Hget. repeat f_equal; lia. }
  simpl.
  (* the nested loops *)
  destruct (for_each_seq_inv
              (fun i d => for_each (fun j d => fill_cell s t i j d) (seq 1 n) d)
              (fun i d => table_inv s t (fun x y => x = 0%nat \/ y = 0%nat \/ (x < i)%nat) d) m 1 d3)
    as (d4 & -> & Hd4).
  { destruct Hd3 as [? H3]. split; [done|]. intros x y ? ? Hxy. apply H3; [done|done|].
    unfold n. lia. }
  { intros i d Hi Hd.
    destruct (for_each_seq_inv (fun j d => fill_cell s t i j d)
                (fun j d => table_inv s t
                   (fun x y => x = 0%nat \/ y = 0%nat \/ (x < i)%nat \/ (x = i /\ y < j)%nat) d)
                n 1 d) as (d' & -> & Hd').
    - destruct Hd as [? H]. split; [done|]. intros x y ? ? Hxy. apply H; [done|done|lia].
    - intros j d' Hj Hd'. apply fill_cell_step; [unfold m in *; lia|unfold n in *; lia|done].
    - exists d'. split; [done|]. destruct Hd' as [? H]. split; [done|].
      intros x y ? ? Hxy. apply H; [done|done|]. unfold n in *. lia. }
  exists d4. split; [done|]. destruct Hd4 as [? H]. split; [done|].
  intros x y ? ? _. apply H; [done|done|]. unfold m in *. lia.
Qed.

(** *** Python's [min] on the three candidates *)

Lemma py_min3_pref (cv ch cd : Z) (x y : nat) :
  py_min3 (cv, (x, S y)) (ch, (S x, y)) (cd, (x, y)) =
  (Z.min cd (Z.min cv ch),
   if decide (cd = Z.min cd (Z.min cv ch)) then (x, y)
   else if decide (cv = Z.min cd (Z.min cv ch)) then (x, S y)
   else (S x, y)).
Proof.
  unfold py_min3, cell_ltb.
  repeat first
    [ match goal with
      | |- context [Z.ltb ?a ?b] => destruct (Z.ltb_spec a b)
      | |- context [Nat.ltb ?a ?b] => destruct (Nat.ltb_spec a b)
      end
    | case_decide ];
    try lia; f_equal; lia.
Qed.

Lemma cell_ok_cell s t d x y :
  cell_ok s t d x y -> exists c, mget d x y = Some c.
Proof.
  destruct x, y; simpl; eauto.
  intros (? & ? & ? & ? & ? & ? & ? & ? & ? & ? & ?). eauto.
Qed.

(** *** Stripping the markers *)

Lemma strip_markers_app x y :
  strip_markers (x ++ y) = strip_markers x ++ strip_markers y.
Proof. apply list.filter_app. Qed.

Lemma strip_markers_wrapped c :
  not_marker c -> strip_markers [DIFFON; c; DIFFOFF] = [c].
Proof.
  intros [H1 H2]. unfold strip_markers.
  rewrite filter_cons_False by (intros [? ?]; done).
  rewrite filter_cons_True by done.
  rewrite filter_cons_False by (intros [? ?]; done). done.
Qed.

Lemma strip_markers_single c : not_marker c -> strip_markers [c] = [c].
Proof. intros H. unfold strip_markers. by rewrite filter_cons_True. Qed.

Lemma strip_markers_replace_offon x :
  strip_markers (replace_offon x) = strip_markers x.
Proof.
  remember (length x) as k eqn:Hk.
  revert x Hk. induction k as [k IH] using lt_wf_ind. intros x Hk.
  destruct x as [|a [|b rest]]; [done|done|].
  change (replace_offon (a :: b :: rest)) with
    (if N.eqb a DIFFOFF && N.eqb b DIFFON then replace_offon rest
     else a :: replace_offon (b :: rest)).
  destruct (N.eqb a DIFFOFF && N.eqb b DIFFON) eqn:E.
  - apply andb_prop in E as [Ea Eb].
    apply N.eqb_eq in Ea, Eb. subst a b.
    rewrite (IH (length rest)) by (simpl in Hk; done || lia).
    unfold strip_markers.
    rewrite (filter_cons_False _ DIFFOFF) by (intros [? ?]; done).
    rewrite (filter_cons_False _ DIFFON) by (intros [? ?]; done). done.
  - unfold strip_markers in *. rewrite !(filter_cons _ a).
    rewrite (IH (length (b :: rest))) by (simpl in *; done || lia). done.
Qed.

(** *** The walk along the back-pointers and the pieces it emits *)

Section Walk.
Variables (s t : str) (d : matrix).
Hypothesis Hs : Forall not_marker s.
Hypothesis Ht : Forall not_marker t.
Hypothesis Hd : table_inv s t all_cells d.

Lemma emit_step x y :
  (x <= length s)%nat -> (y <= length t)%nat -> (x, y) <> (0%nat, 0%nat) ->
  exists c, mget d x y = Some c /\ exists p, emit s t d (x, y) = Some p /\
    (c.2.1 <= x)%nat /\ (c.2.2 <= y)%nat /\ (c.2.1 + c.2.2 < x + y)%nat /\
    take x s = take c.2.1 s ++ strip_markers p.1 /\
    take y t = take c.2.2 t ++ strip_markers p.2.
Proof.
  intros Hx Hy Hne. destruct Hd as [_ Hok].
  assert (Hsx : forall i, (i < length s)%nat ->
            exists c, s !! i = Some c /\ not_marker c /\ take (S i) s = take i s ++ [c]).
  { intros i Hi. destruct (lookup_lt_is_Some_2 s i Hi) as [c Hc]. exists c.
    split; [done|]. split; [|by apply take_S_r].
    eapply Forall_lookup_1 in Hs; eauto. }
  assert (Hty : forall i, (i < length t)%nat ->
            exists c, t !! i = Some c /\ not_marker c /\ take (S i) t = take i t ++ [c]).
  { intros i Hi. destruct (lookup_lt_is_Some_2 t i Hi) as [c Hc]. exists c.
    split; [done|]. split; [|by apply take_S_r].
    eapply Forall_lookup_1 in Ht; eauto. }
  pose proof (Hok x y Hx Hy I) as Hc.
  destruct x as [|x'], y as [|y']; [done| | |].
  - (* first row: the father is on the left *)
    simpl in Hc.
    destruct (cell_ok_cell _ _ _ _ _ (Hok 0%nat y' Hx ltac:(lia) I)) as [f Hf].
    destruct (Hty y') as (tc & Htc & Hm & Htk); [lia|].
    eexists. split; [exact Hc|]. unfold emit. rewrite Hc.
    cbn [mbind option_bind fst snd]. rewrite Hf. cbn [mbind option_bind fst snd].
    rewrite decide_True by (f_equal; lia). rewrite Htc. cbn [mbind option_bind fst snd].
    eexists. split; [done|]. cbn [fst snd]. rewrite strip_markers_wrapped by done.
    repeat split; try lia; try done; try (by rewrite app_nil_r).
  - (* first column: the father is above *)
    simpl in Hc.
    destruct (cell_ok_cell _ _ _ _ _ (Hok x' 0%nat ltac:(lia) Hy I)) as [f Hf].
    destruct (Hsx x') as (sc & Hsc & Hm & Htk); [lia|].
    eexists. split; [exact Hc|]. unfold emit. rewrite Hc.
    cbn [mbind option_bind fst snd]. rewrite Hf. cbn [mbind option_bind fst snd].
    rewrite decide_False by (intros [=]; lia).
    rewrite decide_True by (f_equal; lia). rewrite Hsc. cbn [mbind option_bind fst snd].
    eexists. split; [done|]. cbn [fst snd]. rewrite strip_markers_wrapped by done.
    repeat split; try lia; try done; try (by rewrite app_nil_r).
  - (* inside: the father is one of the three neighbours *)
    simpl in Hc. destruct Hc as (sc & tc & up & left & diag & Hsc & Htc & Hup & Hleft & Hdiag & Hc).
    rewrite py_min3_pref in Hc.
    destruct (Hsx x') as (sc' & Hsc' & Hms & Htks); [lia|].
    destruct (Hty y') as (tc' & Htc' & Hmt & Htkt); [lia|].
    assert (sc' = sc) as -> by congruence. assert (tc' = tc) as -> by congruence.
    eexists. split; [exact Hc|]. unfold emit. rewrite Hc. cbn [mbind option_bind fst snd].
    set (best := Z.min (diag.1 + cost_of sc tc) (Z.min (up.1 + 1) (left.1 + 1))).
    destruct (decide (diag.1 + cost_of sc tc = best)) as [E1|E1];
      [|destruct (decide (up.1 + 1 = best)) as [E2|E2]];
      cbn [mbind option_bind fst snd].
    + (* diagonal *)
      rewrite Hdiag. cbn [mbind option_bind fst snd].
      rewrite decide_False by (intros [=]; lia).
      rewrite decide_False by (intros [=]; lia).
      rewrite Hsc, Htc. cbn [mbind option_bind].
      destruct (decide (best - diag.1 = 1)); (eexists; split; [done|]); cbn [fst snd];
        rewrite ?strip_markers_wrapped, ?strip_markers_single by done;
        repeat split; try lia; done.
    + (* vertical *)
      rewrite Hup. cbn [mbind option_bind fst snd].
      rewrite decide_False by (intros [=]; lia).
      rewrite decide_True by (f_equal; lia).
      rewrite Hsc. cbn [mbind option_bind]. eexists. split; [done|]. cbn [fst snd].
      rewrite strip_markers_wrapped by done.
      repeat split; try lia; try done; try (by rewrite app_nil_r).
    + (* horizontal *)
      rewrite Hleft. cbn [mbind option_bind fst snd].
      rewrite decide_True by (f_equal; lia).
      rewrite Htc. cbn [mbind option_bind]. eexists. split; [done|]. cbn [fst snd].
      rewrite strip_markers_wrapped by done.
      repeat split; try lia; try done; try (by rewrite app_nil_r).
Qed.

Lemma emit_all_app l1 : forall l2 a b,
  emit_all s t d (l1 ++ l2) a b =
  r ← emit_all s t d l1 a b; emit_all s t d l2 r.1 r.2.
Proof.
  induction l1 as [|c l1 IH]; intros l2 a b; [done|].
  simpl. destruct (emit s t d c) as [p|]; [|done]. simpl. apply IH.
Qed.

Lemma walk_emit k : forall x y acc,
  (x + y <= k)%nat -> (x <= length s)%nat -> (y <= length t)%nat ->
  exists p r1 r2,
    walk k d (x, y) acc = Some (p ++ acc) /\
    (forall a b, emit_all s t d p a b = Some (a ++ r1, b ++ r2)) /\
    strip_markers (concat r1) = take x s /\
    strip_markers (concat r2) = take y t.
Proof.
  induction k as [k IH] using lt_wf_ind. intros x y acc Hk Hx Hy.
  destruct (decide ((x, y) = (0%nat, 0%nat))) as [[= -> ->]|Hne].
  - exists [], [], []. split; [by destruct k|]. split; [|done].
    intros a b. simpl. by rewrite !app_nil_r.
  - destruct k as [|k]; [destruct x, y; simpl in *; done || lia|].
    destruct (emit_step x y Hx Hy Hne) as (c & Hc & p & Hp & Hfx & Hfy & Hlt & Hsx & Hty).
    destruct c as [cv [fx fy]]. simpl in *.
    destruct (IH k ltac:(lia) fx fy ((x, y) :: acc))
      as (p' & r1 & r2 & Hw & He & H1 & H2); [lia|lia|lia|].
    exists (p' ++ [(x, y)]), (r1 ++ [p.1]), (r2 ++ [p.2]).
    split; [|split; [|split]].
    + rewrite decide_False by done. rewrite Hc. simpl. rewrite Hw.
      by rewrite <- app_assoc.
    + intros a b. rewrite emit_all_app, He. simpl. rewrite Hp. simpl.
      by rewrite !app_assoc.
    + rewrite concat_app, strip_markers_app, H1. simpl. by rewrite app_nil_r.
    + rewrite concat_app, strip_markers_app, H2. simpl. by rewrite app_nil_r.
Qed.

End Walk.

Lemma sane_each_sane s : sane_each s = sane s.
Proof.
  rewrite sane_map. unfold sane_each. induction s as [|c s IH]; [done|].
  simpl. by rewrite IH.
Qed.

Lemma sane_not_marker s : Forall not_marker (sane s).
Proof.
  rewrite sane_map. apply List.Forall_forall. intros c Hc.
  apply in_map_iff in Hc as (c0 & <- & _).
  unfold sane_char, not_marker, DIFFON, DIFFOFF, TAB, NEWLINE.
  destruct (N.eqb_spec c0 9), (N.eqb_spec c0 10), (N.ltb_spec c0 32); simpl; lia.
Qed.

Lemma sane_sanitized s : sanitized s -> sane s = s.
Proof.
  rewrite sane_map. induction 1 as [|c s Hc _ IH]; [done|].
  simpl. rewrite IH. f_equal. unfold sane_char, TAB, NEWLINE in *.
  destruct (N.eqb_spec c 9), (N.eqb_spec c 10), (N.ltb_spec c 32); simpl; lia.
Qed.

Lemma linediff_sane s t :
  exists s' t', linediff s t = Some (s', t') /\
    strip_markers s' = sane s /\ strip_markers t' = sane t.
Proof.
  unfold linediff.
  assert (Hs0 : (if decide (len s = 0) then s else sane_each s) = sane s).
  { destruct (decide (len s = 0)); [|apply sane_each_sane]. destruct s; [done|]. by unfold len in *. }
  assert (Ht0 : (if decide (len t = 0) then t else sane_each t) = sane t).
  { destruct (decide (len t = 0)); [|apply sane_each_sane]. destruct t; [done|]. by unfold len in *. }
  rewrite Hs0, Ht0.
  destruct (fill_table_ok (sane s) (sane t)) as (d & -> & Hd). simpl.
  destruct (walk_emit (sane s) (sane t) d (sane_not_marker s) (sane_not_marker t) Hd
              (length (sane s) + length (sane t)) (length (sane s)) (length (sane t)) [])
    as (p & r1 & r2 & Hw & He & H1 & H2); [lia|lia|lia|].
  rewrite app_nil_r in Hw. rewrite Hw. simpl. rewrite He. simpl.
  eexists _, _. split; [done|].
  rewrite !strip_markers_replace_offon, H1, H2, !firstn_all. done.
Qed.

(** ** Reasoning on statements *)

Lemma bind_run {A B : Type} (m : M A) (f : A -> M B) st :
  (m ≫= f) st =
  match m st with
  | (Ok a, st') => f a st'
  | (Raise e, st') => (Raise e, st')
  end.
Proof. reflexivity. Qed.

Lemma triple_conseq {A} (P P' : state -> Prop) (m : M A) (Q Q' : A -> state -> Prop)
    (X X' : exn -> state -> Prop) :
  triple P' m Q' X' ->
  (forall st, P st -> P' st) ->
  (forall a st, Q' a st -> Q a st) ->
  (forall e st, X' e st -> X e st) ->
  triple P m Q X.
Proof.
  intros H HP HQ HX st Hst. specialize (H st (HP _ Hst)).
  destruct (m st) as [[a|e] st']; auto.
Qed.

Lemma triple_bind {A B} P (m : M A) (f : A -> M B) Q1 Q X :
  triple P m Q1 X -> (forall a, triple (Q1 a) (f a) Q X) ->
  triple P (m ≫= f) Q X.
Proof.
  intros Hm Hf st Hst. rewrite bind_run. specialize (Hm st Hst).
  destruct (m st) as [[a|e] st']; [by apply Hf|done].
Qed.

Lemma triple_ret {A} (P : state -> Prop) (a : A) (Q : A -> state -> Prop) X :
  (forall st, P st -> Q a st) -> triple P (mret a) Q X.
Proof. intros H st Hst. by apply H. Qed.

Lemma triple_raise {A} (P : state -> Prop) e (Q : A -> state -> Prop) (X : exn -> state -> Prop) :
  (forall st, P st -> X e st) -> triple P (raise e) Q X.
Proof. intros H st Hst. by apply H. Qed.

Lemma triple_gets {A} (P : state -> Prop) (f : state -> A) (Q : A -> state -> Prop) X :
  (forall st, P st -> Q (f st) st) -> triple P (gets f) Q X.
Proof. intros H st Hst. by apply H. Qed.

Lemma triple_modify (P : state -> Prop) (f : state -> state) (Q : unit -> state -> Prop) X :
  (forall st, P st -> Q tt (f st)) -> triple P (modify f) Q X.
Proof. intros H st Hst. by apply H. Qed.

Lemma triple_try_finally {A} P (body : M A) (fin : M unit) Q1 X1 Q X :
  triple P body Q1 X1 ->
  (forall a, triple (Q1 a) fin (fun _ => Q a) X) ->
  (forall e, triple (X1 e) fin (fun _ => X e) X) ->
  triple P (try_finally body fin) Q X.
Proof.
  intros Hb Hq Hx st Hst. unfold try_finally. specialize (Hb st Hst).
  destruct (body st) as [[a|e] st'].
  - specialize (Hq a st' Hb). destruct (fin st') as [[u|e'] st'']; done.
  - specialize (Hx e st' Hb). destruct (fin st') as [[u|e'] st'']; done.
Qed.

Lemma triple_try_except {A} P (body : M A) handler Q X1 X :
  triple P body Q X1 ->
  (forall e h, handler e = Some h -> triple (X1 e) h Q X) ->
  (forall e st, handler e = None -> X1 e st -> X e st) ->
  triple P (try_except body handler) Q X.
Proof.
  intros Hb Hh Hn st Hst. unfold try_except. specialize (Hb st Hst).
  destruct (body st) as [[a|e] st']; [done|].
  destruct (handler e) as [h|] eqn:Eh.
  - by apply (Hh e h Eh).
  - by apply Hn.
Qed.

Lemma triple_try_except_else {A B} P (body : M A) (handler : exn -> M B) orelse Q1 X1 Q X :
  triple P body Q1 X1 ->
  (forall a, triple (Q1 a) (orelse a) Q X) ->
  (forall e, triple (X1 e) (handler e) Q X) ->
  triple P (try_except_else body handler orelse) Q X.
Proof.
  intros Hb Ho Hh st Hst. unfold try_except_else. specialize (Hb st Hst).
  destruct (body st) as [[a|e] st']; [by apply Ho|by apply Hh].
Qed.

Lemma triple_for_in {A} (I : state -> Prop) (body : A -> M unit) X l :
  (forall x, x ∈ l -> triple I (body x) (fun _ => I) X) ->
  triple I (for_in body l) (fun _ => I) X.
Proof.
  induction l as [|x l IH]; intros Hb.
  - by intros st Hst.
  - simpl. eapply triple_bind.
    + apply Hb. by left.
    + intros u. apply IH. intros y Hy. apply Hb. by right.
Qed.

Lemma triple_bind_inv {A B} I (m : M A) (f : A -> M B) Q X :
  triple I m (fun _ => I) X -> (forall a, triple I (f a) Q X) ->
  triple I (m ≫= f) Q X.
Proof. intros. by eapply triple_bind. Qed.

Lemma triple_if {A} P (b : bool) (m1 m2 : M A) Q X :
  (b = true -> triple P m1 Q X) -> (b = false -> triple P m2 Q X) ->
  triple P (if b then m1 else m2) Q X.
Proof. destruct b; auto. Qed.

(** Running a statement made of the primitives, on a state. *)
Ltac state_simpl :=
  cbn [buf add_cpt del_cpt line1 line2 has_internal_linenos hunk_off1 hunk_size1
       hunk_off2 hunk_size2 spl_rows spl_current_page spl_print_func spl_print_ctrl
       bytes_processed out char_count files
       set_buf set_add_cpt set_del_cpt set_line1 set_line2 set_has_internal_linenos
       set_hunk set_hunk_size1 set_hunk_size2 set_spl_rows set_spl_current_page
       set_spl_print_func set_spl_print_ctrl set_bytes_processed set_out
       set_char_count set_files fst snd] in *.

Ltac run_m :=
  unfold mbind, M_bind, mret, M_ret, gets, modify, raise in *; state_simpl.

Section Checks.
Context {E : Env} {cfg : Config}.

Lemma limited_print_func_run s force st :
  limited_print_func s force st =
  let st' := set_char_count (char_count st + len s) (set_out (out st ++ [s]) st) in
  (if negb force && (max_report_size <=? char_count st + len s)
   then Raise PrintLimitReached else Ok tt, st').
Proof.
  unfold limited_print_func. run_m.
  by destruct (negb force && (max_report_size <=? char_count st + len s)).
Qed.

Lemma row_was_output_single_file st ex :
  spl_print_ctrl st = Some (ex, None) ->
  row_was_output st =
  (if max_diff_block_lines <=? spl_rows st + 1 then Raise DiffBlockLimitReached else Ok tt,
   set_spl_rows (spl_rows st + 1) st).
Proof.
  intros H. unfold row_was_output. run_m. rewrite H.
  state_simpl. by destruct (max_diff_block_lines <=? spl_rows st + 1).
Qed.

End Checks.

Section Scanner.
Context {E : Env} {cfg : Config}.

Lemma scan_line_space rest st :
  scan_line (32%N :: rest) st =
  if (hunk_size1 st <=? 0) && (hunk_size2 st <=? 0) then ignore_line (32%N :: rest) st
  else if negb (hunk_size1 st =? 0) && negb (hunk_size2 st =? 0)
       then consume_context (32%N :: rest) st
       else ignore_line (32%N :: rest) st.
Proof.
  unfold scan_line, consume_context, ignore_line, count_line.
  change (starts_with (lit "--- ") (32%N :: rest)) with false.
  change (starts_with (lit "+++ ") (32%N :: rest)) with false.
  change (match_hunk (32%N :: rest)) with (@None (str * str * str * str)).
  change (starts_with (lit "[") (32%N :: rest)) with false.
  change (starts_with (lit "\ No newline") (32%N :: rest)) with false.
  change (match_signed_lines_removed (lit "+") (32%N :: rest)) with (@None Z).
  change (match_signed_lines_removed (lit "-") (32%N :: rest)) with (@None Z).
  change (starts_with (lit "+") (32%N :: rest)) with false.
  change (starts_with (lit "-") (32%N :: rest)) with false.
  change (starts_with (lit " ") (32%N :: rest)) with true.
  cbv iota. run_m.
  destruct (hunk_size1 st <=? 0), (hunk_size2 st <=? 0); cbn [andb]; try done;
  destruct (hunk_size1 st =? 0), (hunk_size2 st =? 0); cbn [andb negb]; done.
Qed.

Lemma context_line_consumed rest st :
  0 < hunk_size1 st -> 0 < hunk_size2 st ->
  scan_line (32%N :: rest) st = consume_context (32%N :: rest) st.
Proof.
  intros H1 H2. rewrite scan_line_space.
  destruct (Z.leb_spec (hunk_size1 st) 0); [lia|].
  destruct (Z.eqb_spec (hunk_size1 st) 0); [lia|].
  destruct (Z.eqb_spec (hunk_size2 st) 0); [lia|]. done.
Qed.

Lemma context_line_ignored_at_zero rest st :
  hunk_size1 st = 0 \/ hunk_size2 st = 0 ->
  scan_line (32%N :: rest) st = ignore_line (32%N :: rest) st.
Proof.
  intros H. rewrite scan_line_space.
  destruct ((hunk_size1 st <=? 0) && (hunk_size2 st <=? 0)); [done|].
  destruct (Z.eqb_spec (hunk_size1 st) 0), (Z.eqb_spec (hunk_size2 st) 0); try done; lia.
Qed.

Lemma context_line_with_negative_counter rest st :
  (hunk_size1 st < 0 /\ 0 < hunk_size2 st) \/ (0 < hunk_size1 st /\ hunk_size2 st < 0) ->
  scan_line (32%N :: rest) st = consume_context (32%N :: rest) st.
Proof.
  intros H. rewrite scan_line_space.
  destruct (Z.leb_spec (hunk_size1 st) 0), (Z.leb_spec (hunk_size2 st) 0); cbn [andb]; try lia;
  destruct (Z.eqb_spec (hunk_size1 st) 0), (Z.eqb_spec (hunk_size2 st) 0); try done; lia.
Qed.

Lemma scan_line_bracket rest st :
  scan_line (91%N :: rest) st = bracket_line (91%N :: rest) st.
Proof.
  unfold scan_line, bracket_line, count_line.
  change (starts_with (lit "--- ") (91%N :: rest)) with false.
  change (starts_with (lit "+++ ") (91%N :: rest)) with false.
  change (match_hunk (91%N :: rest)) with (@None (str * str * str * str)).
  change (starts_with (lit "[") (91%N :: rest)) with true.
  change (starts_with (lit "\ No newline") (91%N :: rest)) with false.
  change (match_signed_lines_removed (lit "+") (91%N :: rest)) with (@None Z).
  change (match_signed_lines_removed (lit "-") (91%N :: rest)) with (@None Z).
  change (starts_with (lit "+") (91%N :: rest)) with false.
  change (starts_with (lit "-") (91%N :: rest)) with false.
  change (starts_with (lit " ") (91%N :: rest)) with false.
  cbv iota. run_m.
  match goal with |- context [empty_buffer ?s] => destruct (empty_buffer s) as [[[]|e] st1] end;
    [|done].
  match goal with |- context [spl_print ?x ?f st1] =>
    destruct (spl_print x f st1) as [[[]|e] st2] end; [|done].
  by destruct (_ && _).
Qed.

End Scanner.

Lemma triple_bind_gets {A B} (P : state -> Prop) (f : state -> A) (k : A -> M B) Q X :
  (forall a, (exists st, P st /\ f st = a) ->
     triple (fun st => P st /\ f st = a) (k a) Q X) ->
  triple P (gets f ≫= k) Q X.
Proof.
  intros H st Hst. rewrite bind_run. cbn [gets]. apply (H (f st)); [|done].
  by exists st.
Qed.

Ltac head_of t := lazymatch t with ?f _ => head_of f | _ => t end.

(** Walks through a statement, keeping [I] between its steps; [side] is
    run on the conditions on states, [call] on the calls it should not
    look into. *)
Ltac vcg I side call :=
  lazymatch goal with
  | |- triple _ (mbind _ (gets _)) _ _ =>
      apply triple_bind_gets; intros ? ?; vcg I side call
  | |- triple _ (mbind _ _) _ _ =>
      eapply (triple_bind _ _ _ (fun _ => I)); [vcg I side call | intros ?; vcg I side call]
  | |- triple _ (mret _) _ _ => apply triple_ret; side
  | |- triple _ (raise _) _ _ => apply triple_raise; side
  | |- triple _ (gets _) _ _ => apply triple_gets; side
  | |- triple _ (modify _) _ _ => apply triple_modify; side
  | |- triple _ (try_finally _ _) _ _ =>
      eapply (triple_try_finally _ _ _ (fun _ => I) (fun _ => I));
      [vcg I side call | intros ?; vcg I side call | intros ?; vcg I side call]
  | |- triple _ (try_except_else _ _ _) _ _ =>
      eapply (triple_try_except_else _ _ _ _ (fun _ => I) (fun _ => I));
      [vcg I side call | intros ?; vcg I side call | intros ?; vcg I side call]
  | |- triple _ (try_except _ _) _ _ =>
      eapply (triple_try_except _ _ _ _ (fun _ => I));
      [vcg I side call
      |let e := fresh "e" in let h := fresh "h" in let Hh := fresh "Hh" in
       intros e h Hh; destruct e; simplify_eq Hh; intros <-; vcg I side call
      |side]
  | |- triple _ (for_in _ _) _ ?X =>
      eapply triple_conseq;
      [apply (triple_for_in I _ X); intros ? ?; vcg I side call | side ..]
  | |- triple _ (match ?x with _ => _ end) _ _ =>
      destruct x eqn:?; vcg I side call
  | |- triple _ ?m _ _ =>
      first [ eapply triple_conseq; [call | side ..]
            | let h := head_of m in unfold h; vcg I side call ]
  end.

Ltac side_basic :=
  intros; repeat match goal with H : _ /\ _ |- _ => destruct H end;
  state_simpl; try done; try congruence; try lia.

Ltac no_call := fail.

Section Lines.
Context {E : Env} {cfg : Config}.

Lemma int_of_digits_from ds : forall a, 0 <= a ->
  0 <= fold_left (fun acc c => acc * 10 + Z.of_N (default 0%N (digit_value c))) ds a.
Proof. induction ds as [|c ds IH]; intros a Ha; [done|]. simpl. apply IH. lia. Qed.

Lemma int_of_digits_nonneg ds : 0 <= int_of_digits ds.
Proof. by apply int_of_digits_from. Qed.

Lemma match_lines_removed_nonneg x n : match_lines_removed x = Some n -> 0 <= n.
Proof.
  unfold match_lines_removed. destruct (strip_prefix _ x) as [r|]; [|done].
  cbn [mbind option_bind]. destruct (span_digits r) as [ds r'].
  destruct (bool_decide (ds = [])); [done|].
  destruct (_ || _); [|done]. intros [= <-]. apply int_of_digits_nonneg.
Qed.

Lemma line_increment_nonneg o : 0 <= line_increment o.
Proof.
  unfold line_increment. destruct (truthy o); [|done].
  destruct (match_lines_removed _) as [n|] eqn:En; [|done].
  by apply match_lines_removed_nonneg in En.
Qed.

Ltac side_lines := unfold lines_at, lines_from in *; side_basic.

Lemma output_line_lines_at a b s1 s2 :
  triple (lines_at a b) (output_line s1 s2)
    (fun _ => lines_at (a + line_increment s1) (b + line_increment s2))
    (fun _ => lines_at a b).
Proof.
  unfold output_line.
  eapply (triple_bind _ _ _ (fun _ => lines_at a b)); [vcg (lines_at a b) side_lines no_call|].
  intros [[tn s1'] s2'].
  eapply (triple_bind _ _ _ (fun _ => lines_at a b)); [vcg (lines_at a b) side_lines no_call|].
  intros _.
  eapply (triple_bind _ _ _ (fun _ => lines_at a b)); [vcg (lines_at a b) side_lines no_call|].
  intros _.
  eapply (triple_bind _ _ _ (fun _ => lines_at (a + line_increment s1) b));
    [apply triple_modify; side_lines|].
  intros _. apply triple_modify; side_lines.
Qed.

Lemma output_line_lines_from a b s1 s2 :
  preserves (lines_from a b) (output_line s1 s2).
Proof.
  intros st [H1 H2].
  pose proof (output_line_lines_at (line1 st) (line2 st) s1 s2 st (conj eq_refl eq_refl)) as H.
  pose proof (line_increment_nonneg s1). pose proof (line_increment_nonneg s2).
  destruct (output_line s1 s2 st) as [[u|e] st']; unfold lines_at, lines_from in *; lia.
Qed.

Lemma empty_buffer_lines_from a b : preserves (lines_from a b) empty_buffer.
Proof.
  unfold preserves, empty_buffer.
  vcg (lines_from a b) side_lines ltac:(solve [apply output_line_lines_from]).
Qed.

Lemma output_hunk_lines_at a b : preserves (lines_at a b) output_hunk.
Proof. unfold preserves. vcg (lines_at a b) side_lines no_call. Qed.

Lemma match_hunk_prefix l g : match_hunk l = Some g -> starts_with (lit "@@ -") l = true.
Proof.
  unfold match_hunk, strip_prefix. by destruct (starts_with (lit "@@ -") l).
Qed.

Lemma scan_line_lines_from a b l :
  match_hunk l = None -> preserves (lines_from a b) (scan_line l).
Proof.
  intros Hl. unfold preserves, scan_line. rewrite Hl.
  vcg (lines_from a b) side_lines ltac:(solve [apply empty_buffer_lines_from]).
Qed.

Lemma scan_line_hunk_header l g1 g2 g3 g4 :
  match_hunk l = Some (g1, g2, g3, g4) ->
  triple (fun _ => True) (scan_line l)
    (fun _ => lines_at (hunk_field g1) (hunk_field g3)) (fun _ _ => True).
Proof.
  intros Hl. unfold scan_line. rewrite Hl.
  pose proof (match_hunk_prefix _ _ Hl) as Hp.
  destruct l as [|c0 l]; [done|]. cbn in Hp. apply andb_prop in Hp as [Hc _].
  apply N.eqb_eq in Hc. subst c0.
  change (starts_with (lit "--- ") (64%N :: l)) with false.
  change (starts_with (lit "+++ ") (64%N :: l)) with false. cbv iota.
  eapply (triple_bind _ _ _ (fun _ _ => True)); [by apply triple_modify|]. intros _.
  eapply (triple_bind _ _ _ (fun _ _ => True)).
  { intros st _. by destruct (empty_buffer st) as [[?|?] ?]. }
  intros _.
  eapply (triple_bind _ _ _ (fun _ st => hunk_off1 st = hunk_field g1 /\ hunk_off2 st = hunk_field g3));
    [by apply triple_modify|]. intros _.
  eapply (triple_bind _ _ _ (fun _ => lines_at (hunk_field g1) (hunk_field g3)));
    [apply triple_modify; side_lines|]. intros _.
  eapply triple_conseq; [apply output_hunk_lines_at|done..].
Qed.

End Lines.

(** ** Single-file mode *)

Section SingleFile.
Context {E : Env} {cfg : Config}.

Ltac side_sf :=
  unfold block_limit_at_cap, no_block_limit, single_file in *; side_basic;
  try (repeat split; first [done | congruence | lia]).

Lemma row_was_output_sf :
  triple single_file row_was_output (fun _ => single_file) block_limit_at_cap.
Proof.
  intros st [Hf Hc]. rewrite (row_was_output_single_file st None Hc).
  destruct (Z.leb_spec max_diff_block_lines (spl_rows st + 1)); side_sf.
Qed.

Lemma spl_print_sf s force :
  triple single_file (spl_print s force) (fun _ => single_file) no_block_limit.
Proof.
  intros st [Hf Hc]. unfold spl_print. run_m. rewrite Hf. cbn [call_print].
  rewrite limited_print_func_run. cbv zeta.
  destruct (negb force && _); side_sf.
Qed.

Lemma output_side_sf s line tag :
  triple single_file (output_side s line tag) (fun _ => single_file) no_block_limit.
Proof.
  unfold output_side.
  vcg single_file side_sf ltac:(solve [apply spl_print_sf]).
Qed.

Lemma no_block_limit_weaken e st : no_block_limit e st -> block_limit_at_cap e st.
Proof. intros [? ?]. by split. Qed.

Lemma output_line_sf s1 s2 :
  triple single_file (output_line s1 s2) (fun _ => single_file) block_limit_at_cap.
Proof.
  unfold output_line.
  eapply (triple_bind _ _ _ (fun _ => single_file)); [vcg single_file side_sf no_call|].
  intros [[tn s1'] s2'].
  eapply (triple_bind _ _ _ (fun _ => single_file)).
  { eapply triple_conseq; [apply spl_print_sf|done|done|apply no_block_limit_weaken]. }
  intros _.
  eapply (triple_bind _ _ _ (fun _ => single_file)).
  - eapply (triple_try_finally _ _ _ (fun _ => single_file) no_block_limit).
    + vcg single_file side_sf ltac:(solve [apply output_side_sf]).
    + intros _.
      eapply (triple_bind _ _ _ (fun _ => single_file)).
      * eapply triple_conseq; [apply spl_print_sf|done|done|apply no_block_limit_weaken].
      * intros _. apply row_was_output_sf.
    + intros e. destruct (decide (e = DiffBlockLimitReached)) as [->|Hne].
      { intros st [_ ?]. done. }
      eapply triple_conseq with (P' := single_file) (Q' := fun _ => single_file);
        [|by intros st [? ?]|intros _ st ?; by split|intros; eassumption].
      eapply (triple_bind _ _ _ (fun _ => single_file)).
      * eapply triple_conseq; [apply spl_print_sf|done|done|apply no_block_limit_weaken].
      * intros _. apply row_was_output_sf.
  - intros _. vcg single_file side_sf no_call.
Qed.

Lemma empty_buffer_sf :
  triple single_file empty_buffer (fun _ => single_file) block_limit_at_cap.
Proof.
  unfold empty_buffer.
  vcg single_file side_sf ltac:(solve [apply output_line_sf]).
Qed.

Lemma spl_print_sf' s force :
  triple single_file (spl_print s force) (fun _ => single_file) block_limit_at_cap.
Proof. eapply triple_conseq; [apply spl_print_sf|done|done|apply no_block_limit_weaken]. Qed.

Lemma scan_line_sf l :
  triple single_file (scan_line l) (fun _ => single_file) block_limit_at_cap.
Proof.
  unfold scan_line.
  vcg single_file side_sf
    ltac:(solve [apply empty_buffer_sf | apply spl_print_sf' | apply row_was_output_sf]).
Qed.

Lemma scan_sf ud :
  triple single_file (scan ud) (fun _ => single_file) block_limit_at_cap.
Proof.
  unfold scan.
  vcg single_file side_sf ltac:(solve [apply empty_buffer_sf | apply scan_line_sf]).
Qed.

End SingleFile.

(** ** Strings without the markers *)

Global Instance not_marker_dec c : Decision (not_marker c).
Proof. unfold not_marker. apply _. Defined.

Lemma clean_decide s : bool_decide (clean s) = true -> clean s.
Proof. apply bool_decide_eq_true_1. Qed.

Lemma clean_nil : clean [].
Proof. constructor. Qed.

Lemma clean_app a b : clean a -> clean b -> clean (a ++ b).
Proof. intros. by apply Forall_app. Qed.

Lemma clean_cons c l : not_marker c -> clean l -> clean (c :: l).
Proof. by constructor. Qed.

Lemma clean_concat l : Forall clean l -> clean (concat l).
Proof. induction 1; [constructor|]. simpl. by apply clean_app. Qed.

Lemma clean_dec_uint u : clean (lit (DecimalString.NilEmpty.string_of_uint u)).
Proof.
  induction u as [|u IHu|u IHu|u IHu|u IHu|u IHu|u IHu|u IHu|u IHu|u IHu|u IHu];
    first [by apply clean_decide | apply clean_cons; [by vm_compute|exact IHu]].
Qed.

Lemma clean_dec n : clean (dec n).
Proof.
  unfold dec. destruct (Z.to_int n) as [u|u]; simpl.
  - destruct u; try apply clean_dec_uint. by apply clean_decide.
  - apply clean_cons; [by vm_compute|].
    destruct u; try apply clean_dec_uint. by apply clean_decide.
Qed.

Lemma clean_format_2f x : clean (format_2f x).
Proof.
  destruct x as [[] m e|[]]; cbn [format_2f];
    repeat first [apply clean_app | apply clean_dec | apply clean_nil
                 | (apply clean_decide; vm_compute; reflexivity)].
Qed.

Lemma clean_hex_uint u : clean (lit (HexadecimalString.NilEmpty.string_of_uint u)).
Proof.
  induction u as [|u IHu|u IHu|u IHu|u IHu|u IHu|u IHu|u IHu|u IHu|u IHu|u IHu
                   |u IHu|u IHu|u IHu|u IHu|u IHu|u IHu];
    first [by apply clean_decide | apply clean_cons; [by vm_compute|exact IHu]].
Qed.

Lemma clean_hex n : clean (hex n).
Proof.
  unfold hex. destruct (N.to_hex_uint n); try apply clean_hex_uint. by apply clean_decide.
Qed.

Lemma clean_html_escape s : clean s -> clean (html_escape s).
Proof.
  intros H. apply clean_concat. apply Forall_fmap. eapply List.Forall_impl; [|exact H].
  intros c Hc. unfold html_escape_char. cbn [compose].
  repeat case_match; first [by apply clean_decide | by apply clean_cons; [|constructor]].
Qed.

Lemma clean_join sep l : clean sep -> Forall clean l -> clean (join sep l).
Proof.
  intros Hs. induction 1 as [|x l Hx Hl IH]; [constructor|].
  destruct l as [|y l]; [done|]. change (join sep (x :: y :: l)) with (x ++ sep ++ join sep (y :: l)).
  by repeat apply clean_app.
Qed.

Lemma clean_replicate n c : not_marker c -> clean (replicate n c).
Proof. intros. by apply Forall_replicate. Qed.

Lemma clean_take n s : clean s -> clean (take n s).
Proof. apply Forall_take. Qed.

(** Closed strings are checked by computation, the others part by part. *)
Ltac solve_clean :=
  repeat first
    [ assumption
    | apply clean_nil
    | apply clean_app
    | apply clean_dec
    | apply clean_format_2f
    | apply clean_hex
    | apply clean_html_escape
    | (apply clean_replicate; by vm_compute)
    | apply clean_join
    | match goal with |- clean (if ?b then _ else _) => destruct b end
    | (apply clean_decide; vm_compute; reflexivity)
    | (apply clean_cons; [by vm_compute|]) ].

Lemma convert_char_clean ponct tag c i t :
  clean tag -> clean t -> clean (convert_char ponct tag c (i, t)).2.
Proof.
  intros Htag Ht. unfold convert_char.
  assert (Hfinal : forall (i' : Z) (t' : str), clean t' ->
    clean (let '(i0, t0) :=
             if bool_decide (length (filter (fun w => w = c) WORDBREAK) = 1%nat)
             then (0, t' ++ [8203%N]) else (i', t') in
           if LINESIZE <? i0 then (0, t0 ++ [8203%N]) else (i0, t0)).2).
  { intros i' t' Ht'. destruct (bool_decide _); destruct (LINESIZE <? _); cbn [snd];
      solve_clean. }
  match goal with |- clean (let '(a, b) := ?p in _).2 =>
    assert (Hp : clean p.2); [|destruct p as [i1 t1]; by apply Hfinal] end.
  destruct (N.eqb_spec c DIFFON); [cbn [snd]; solve_clean|].
  destruct (N.eqb_spec c DIFFOFF); [cbn [snd]; solve_clean|].
  repeat (match goal with |- context [if ?b then _ else _] => destruct b eqn:? end;
          [cbn [snd]; solve_clean|]).
  cbn [snd]. solve_clean. unfold html_escape_char.
  repeat case_match; solve_clean; try (apply clean_cons; [by split|constructor]).
Qed.

Lemma convert_clean s ponct tag : clean tag -> clean (convert s ponct tag).
Proof.
  intros Htag. unfold convert.
  assert (H : forall st, clean st.2 ->
            clean (fold_left (fun st c => convert_char ponct tag c st) s st).2).
  { induction s as [|c s IH]; intros st Hst; [done|]. simpl. apply IH.
    destruct st as [i t]. by apply convert_char_clean. }
  apply H. constructor.
Qed.

Lemma clean_HEADER f t c : clean f -> clean t -> clean c -> clean (HEADER f t c).
Proof. intros. unfold HEADER. solve_clean. Qed.

Lemma clean_FOOTER v : clean v -> clean (FOOTER v).
Proof. intros. unfold FOOTER. solve_clean. Qed.

Lemma clean_SCRIPTS u : clean u -> clean (SCRIPTS u).
Proof. intros. unfold SCRIPTS. solve_clean. Qed.

Lemma clean_UD_TABLE_HEADER : clean UD_TABLE_HEADER.
Proof. by apply clean_decide. Qed.

Lemma clean_UD_TABLE_FOOTER f t : clean f -> clean t -> clean (UD_TABLE_FOOTER f t).
Proof. intros. unfold UD_TABLE_FOOTER. solve_clean. Qed.

(** ** Streams without the markers *)

Lemma write_page_clean filename s fs :
  clean s -> clean_pages fs -> clean_pages (write_page filename s fs).
Proof.
  intros Hs Hfs. unfold clean_pages, write_page. apply Forall_fmap.
  eapply List.Forall_impl; [|exact Hfs]. intros f Hf. cbn [compose].
  destruct (bool_decide _); [|done]. cbn. apply Forall_app. split; [done|].
  by constructor.
Qed.

Lemma open_page_clean filename fs :
  clean_pages fs -> clean_pages (open_page filename fs).
Proof.
  intros Hfs. unfold clean_pages, open_page. constructor; [constructor|].
  induction Hfs as [|f fs Hf _ IH]; [constructor|].
  rewrite filter_cons. destruct (decide _); [by constructor|done].
Qed.

Lemma clean_out_snoc l s : Forall clean l -> clean s -> Forall clean (l ++ [s]).
Proof. intros. apply Forall_app. split; [done|]. by constructor. Qed.

(** Brings what the context knows of the names in [spl_print_ctrl]. *)
Ltac clean_facts :=
  intros; cbv beta in *; subst;
  repeat match goal with
    | H : exists _, _ |- _ => destruct H; cbv beta in *
    | H : _ /\ _ |- _ => destruct H
    | H : exists _, _ |- _ => destruct H
    | H : clean_state _ |- _ => unfold clean_state in H
    end;
  subst;
  repeat match goal with
    | H1 : spl_print_ctrl ?st = _, H2 : clean_params (spl_print_ctrl ?st) |- _ =>
        rewrite H1 in H2; cbn [clean_params] in H2; destruct H2
    | H : clean_opt (Some _) |- _ => cbn [clean_opt] in H
    end.

Lemma env_clean_md5 E x : env_clean E -> clean (md5_hexdigest x).
Proof. intros H. apply H. Qed.

Ltac solve_clean' :=
  clean_facts;
  repeat first
    [ progress solve_clean
    | (apply env_clean_md5; assumption) ].

Ltac side_clean :=
  clean_facts; unfold clean_state; state_simpl;
  repeat match goal with |- _ /\ _ => split end;
  lazymatch goal with
  | |- Forall clean (_ ++ [_]) =>
      apply clean_out_snoc; [try assumption|try solve [solve_clean']]
  | |- clean_pages (write_page _ _ _) =>
      apply write_page_clean; [try solve [solve_clean']|try assumption]
  | |- clean_pages (open_page _ _) => apply open_page_clean; try assumption
  | |- clean_params _ =>
      first [ assumption
            | repeat match goal with
                | H : spl_print_ctrl ?st = _ |- context [spl_print_ctrl ?st] => rewrite H
                end;
              cbn [clean_params clean_opt]; repeat split; try solve [solve_clean'] ]
  | |- _ => first [assumption | done | idtac]
  end.

Section Clean.
Context {E : Env} {cfg : Config}.
Hypothesis Henv : env_clean E.

Lemma limited_print_func_clean s force :
  clean s -> preserves clean_state (limited_print_func s force).
Proof.
  intros Hs. unfold preserves, limited_print_func.
  vcg clean_state side_clean no_call.
Qed.

Lemma recording_print_func_clean filename s force :
  clean s -> preserves clean_state (recording_print_func filename s force).
Proof.
  intros Hs. unfold preserves, recording_print_func.
  vcg clean_state side_clean no_call.
Qed.

Lemma call_print_clean p s force :
  clean s -> preserves clean_state (call_print p s force).
Proof.
  intros Hs. destruct p as [[|f]|]; cbn [call_print].
  - by apply limited_print_func_clean.
  - by apply recording_print_func_clean.
  - by intros st Hst.
Qed.

Lemma spl_print_clean s force :
  clean s -> preserves clean_state (spl_print s force).
Proof.
  intros Hs st Hst. unfold spl_print. rewrite bind_run. cbn [gets].
  by apply call_print_clean.
Qed.

Lemma output_header_clean css_url p :
  clean_opt css_url -> preserves clean_state (output_header css_url p).
Proof.
  intros Hc. unfold output_header. apply call_print_clean.
  destruct Henv as (_ & ? & ? & ?).
  apply clean_HEADER; [done|by apply clean_html_escape|].
  destruct css_url as [[|c u]|]; solve_clean.
Qed.

Lemma output_footer_clean p : preserves clean_state (output_footer p).
Proof.
  unfold output_footer. apply call_print_clean. destruct Henv as (_ & ? & ? & ?).
  by apply clean_FOOTER.
Qed.

Ltac call_clean :=
  first
    [ apply output_footer_clean
    | apply output_header_clean; solve_clean'
    | apply spl_print_clean; solve_clean'
    | apply limited_print_func_clean; solve_clean' ].

Lemma spl_print_enter_clean filename dir mainname css_url :
  clean mainname -> clean_opt css_url ->
  preserves clean_state (spl_print_enter filename (dir, mainname, css_url)).
Proof.
  intros Hm Hc. unfold preserves, spl_print_enter.
  vcg clean_state side_clean ltac:(solve [apply output_header_clean; assumption]).
Qed.

Lemma spl_print_exit_clean : preserves clean_state spl_print_exit.
Proof.
  unfold preserves, spl_print_exit.
  vcg clean_state side_clean ltac:(solve [apply output_footer_clean]).
Qed.

Lemma row_was_output_clean : preserves clean_state row_was_output.
Proof.
  unfold preserves, row_was_output.
  vcg clean_state side_clean
    ltac:(solve [ apply spl_print_exit_clean
                | apply spl_print_enter_clean; solve_clean'
                | apply spl_print_clean; first [apply clean_UD_TABLE_HEADER
                    | apply clean_UD_TABLE_FOOTER; solve_clean' ] ]).
Qed.

End Clean.

Lemma Difference_nested_ind (P : Difference -> Prop) :
  (forall source1 source2 comments unified_diff hil details,
      Forall P details ->
      P (mkDifference source1 source2 comments unified_diff hil details)) ->
  forall d, P d.
Proof.
  intros H. fix IH 1. intros [s1 s2 cs ud hil ds]. apply H.
  induction ds as [|d ds IHds]; constructor; [apply IH|apply IHds].
Qed.

Section CleanReport.
Context {E : Env} {cfg : Config}.
Hypothesis Henv : env_clean E.

Ltac fin_clean := first [assumption | solve [solve_clean']].

Ltac call_print_clean :=
  first
    [ apply output_footer_clean; fin_clean
    | apply output_header_clean; fin_clean
    | apply spl_print_clean; fin_clean
    | apply limited_print_func_clean; fin_clean
    | apply row_was_output_clean; fin_clean
    | apply spl_print_exit_clean; fin_clean ].

Lemma output_hunk_clean : preserves clean_state output_hunk.
Proof.
  unfold preserves, output_hunk.
  vcg clean_state side_clean ltac:(solve [call_print_clean]).
Qed.

Lemma output_side_clean s line tag :
  clean tag -> preserves clean_state (output_side s line tag).
Proof.
  intros Htag. unfold preserves, output_side.
  vcg clean_state side_clean
    ltac:(solve [ apply spl_print_clean; by apply convert_clean
                | call_print_clean ]).
Qed.

Lemma triple_pure {A} (P : state -> Prop) (phi : Prop) (m : M A) Q X :
  (phi -> triple P m Q X) -> triple (fun st => P st /\ phi) m Q X.
Proof. intros H st [Hst Hphi]. by apply H. Qed.

Lemma output_line_clean s1 s2 : preserves clean_state (output_line s1 s2).
Proof.
  unfold preserves, output_line.
  eapply (triple_bind _ _ _ (fun r st => clean_state st /\ clean r.1.1)).
  { repeat match goal with
      | |- triple _ (if ?b then _ else _) _ _ => destruct b
      | |- triple _ (match ?x with _ => _ end) _ _ => destruct x
      end;
      first [ apply triple_ret; intros st Hst; split; [done|by apply clean_decide]
            | by apply triple_raise ]. }
  intros [[tn s1'] s2']. apply triple_pure. cbn [fst]. intros Htn.
  vcg clean_state side_clean
    ltac:(solve [ apply output_side_clean; first [assumption|by apply clean_decide]
                | call_print_clean ]).
Qed.

Lemma empty_buffer_clean : preserves clean_state empty_buffer.
Proof.
  unfold preserves, empty_buffer.
  vcg clean_state side_clean ltac:(solve [apply output_line_clean; assumption]).
Qed.

Lemma scan_line_clean l :
  (starts_with (lit "[") l = true -> clean l) ->
  preserves clean_state (scan_line l).
Proof.
  intros Hl. unfold preserves, scan_line.
  vcg clean_state side_clean
    ltac:(solve [ apply empty_buffer_clean; assumption
                | apply output_hunk_clean; assumption
                | apply spl_print_clean;
                  assert (clean l) by (by apply Hl); solve_clean ]).
Qed.

Lemma scan_clean unified_diff :
  brackets_clean (Some unified_diff) -> preserves clean_state (scan unified_diff).
Proof.
  intros Hb. unfold preserves, scan.
  assert (Hlines : forall l, l ∈ splitlines unified_diff ->
            starts_with (lit "[") l = true -> clean l).
  { intros l Hin. apply list_elem_of_In in Hin.
    exact (proj1 (List.Forall_forall _ _) Hb l Hin). }
  vcg clean_state side_clean
    ltac:(solve [ apply empty_buffer_clean; assumption
                | apply scan_line_clean; first [assumption | intros ?; by apply Hlines] ]).
Qed.

Lemma output_unified_diff_table_clean unified_diff hil :
  brackets_clean (Some unified_diff) ->
  preserves clean_state (output_unified_diff_table unified_diff hil).
Proof.
  intros Hb. unfold preserves, output_unified_diff_table.
  vcg clean_state side_clean
    ltac:(solve [ apply scan_clean; assumption
                | apply spl_print_clean;
                  first [apply clean_UD_TABLE_HEADER | unfold block_limit_row; solve_clean'] ]).
Qed.

Lemma output_unified_diff_clean css_url directory unified_diff hil :
  clean_opt css_url -> brackets_clean (Some unified_diff) ->
  preserves clean_state (output_unified_diff css_url directory unified_diff hil).
Proof.
  intros Hc Hb. unfold preserves, output_unified_diff, new_unified_diff.
  pose proof (env_clean_md5 E unified_diff Henv) as Hmd5.
  destruct directory as [[|c dir]|]; cbv zeta iota;
  vcg clean_state side_clean
    ltac:(solve [ apply output_unified_diff_table_clean; assumption
                | apply spl_print_exit_clean; assumption
                | apply limited_print_func_clean;
                  apply clean_UD_TABLE_FOOTER; solve_clean' ]).
Qed.

Lemma output_difference_clean difference :
  difference_clean difference ->
  forall css_url directory parents,
    clean_opt css_url -> Forall clean parents ->
    preserves clean_state (output_difference difference css_url directory parents).
Proof.
  induction difference as [s1 s2 cs ud hil ds IH] using Difference_nested_ind.
  intros Hd css_url directory parents Hc Hp. inversion Hd; subst.
  assert (Hsources : Forall clean (parents ++ [s1])).
  { apply Forall_app. split; [done|by constructor]. }
  assert (Hanchor : clean (join (lit "/") (drop 1 (parents ++ [s1])))).
  { apply clean_join; [by apply clean_decide|by apply Forall_drop]. }
  assert (Hcomments : clean (join (lit "<br />") (map html_escape cs))).
  { apply clean_join; [by apply clean_decide|]. apply Forall_fmap.
    eapply List.Forall_impl; [|eassumption]. intros. by apply clean_html_escape. }
  assert (IH' : forall x, x ∈ ds ->
            preserves clean_state (output_difference x css_url directory (parents ++ [s1]))).
  { intros x Hx. apply list_elem_of_In in Hx.
    apply (proj1 (List.Forall_forall _ _) IH x Hx); [|done|done].
    match goal with Hds : Forall difference_clean ds |- _ =>
      exact (proj1 (List.Forall_forall _ _) Hds x Hx) end. }
  assert (Hud : forall u, ud = Some u -> brackets_clean (Some u)).
  { intros u ->. assumption. }
  clear IH Hd.
  unfold preserves. cbn [output_difference].
  vcg clean_state side_clean
    ltac:(solve [ apply limited_print_func_clean; solve_clean'
                | by apply IH'
                | destruct ud as [u|]; [|discriminate];
                  apply output_unified_diff_clean; first [assumption | by apply Hud] ]).
Qed.

Lemma output_html_clean difference css_url :
  difference_clean difference -> clean_opt css_url ->
  preserves clean_state (output_html difference css_url).
Proof.
  intros Hd Hc. unfold preserves, output_html.
  vcg clean_state side_clean
    ltac:(solve [ apply output_difference_clean; [assumption|assumption|constructor]
                | apply output_header_clean; assumption
                | apply output_footer_clean; assumption
                | apply limited_print_func_clean; by apply clean_decide ]).
Qed.

Lemma output_html_directory_clean directory difference css_url jquery_url :
  difference_clean difference -> clean_opt css_url -> clean_opt jquery_url ->
  preserves clean_state (output_html_directory directory difference css_url jquery_url).
Proof.
  intros Hd Hc Hj. unfold preserves, output_html_directory. cbv zeta.
  assert (Hj' : forall j, clean_opt j -> clean (SCRIPTS (html_escape (default [] j)))).
  { intros [j|] Hj0; apply clean_SCRIPTS, clean_html_escape; [done|constructor]. }
  destruct (bool_decide (jquery_url = Some (lit "disable")));
  vcg clean_state side_clean
    ltac:(solve [ apply output_difference_clean; first [assumption|constructor]
                | apply output_header_clean; assumption
                | apply output_footer_clean; assumption
                | apply limited_print_func_clean;
                  first [ by apply clean_decide | by apply Hj' ] ]).
Qed.

End CleanReport.

Section Claims.
Context {E : Env} {cfg : Config}.

(** C2. A write through the limited print function that is not forced
    raises [PrintLimitReached] when the characters written so far exceed
    [max_report_size]; a forced write never raises, whatever the count; the
    text is written in both cases. *)
Theorem print_limit_reached (s : str) (force : bool) (st : state) :
  (force = false -> max_report_size < char_count st + len s ->
     (limited_print_func s force st).1 = Raise PrintLimitReached) /\
  (force = true -> (limited_print_func s force st).1 = Ok tt) /\
  out (limited_print_func s force st).2 = out st ++ [s] /\
  char_count (limited_print_func s force st).2 = char_count st + len s.
Proof.
  rewrite limited_print_func_run. state_simpl. repeat split.
  - intros -> H. cbn [negb andb].
    destruct (Z.leb_spec max_report_size (char_count st + len s)); [done|lia].
  - by intros ->.
Qed.

(** C6, as amended. A call of [output_line] that completes adds to each
    counter the increment of its side: nothing for an absent or empty side,
    the captured N for a side that is a [[ N lines removed ]] placeholder,
    1 otherwise; the increments are never negative; the counters never
    decrease while the scanner reads a line that is no hunk header, nor in
    a flush of the buffer; a hunk header sets them to its two offsets. *)
Theorem line_numbers_advance (s1 s2 : option str) (l : str) (st : state) :
  (forall st', output_line s1 s2 st = (Ok tt, st') ->
     line1 st' = line1 st + line_increment s1 /\
     line2 st' = line2 st + line_increment s2) /\
  0 <= line_increment s1 /\
  (truthy s1 = false -> line_increment s1 = 0) /\
  (forall x, s1 = Some x -> truthy s1 = true ->
     line_increment s1 = default 1 (match_lines_removed x)) /\
  (match_hunk l = None ->
     line1 st <= line1 (scan_line l st).2 /\ line2 st <= line2 (scan_line l st).2) /\
  (line1 st <= line1 (empty_buffer st).2 /\ line2 st <= line2 (empty_buffer st).2) /\
  (forall g1 g2 g3 g4 st', match_hunk l = Some (g1, g2, g3, g4) ->
     scan_line l st = (Ok tt, st') ->
     line1 st' = hunk_field g1 /\ line2 st' = hunk_field g3).
Proof.
  split; [|split; [|split; [|split; [|split; [|split]]]]].
  - intros st' Hrun.
    pose proof (output_line_lines_at (line1 st) (line2 st) s1 s2 st (conj eq_refl eq_refl)) as H.
    rewrite Hrun in H. exact H.
  - apply line_increment_nonneg.
  - intros Ht. unfold line_increment. by rewrite Ht.
  - intros x -> Ht. unfold line_increment. rewrite Ht. cbn [from_option id].
    by destruct (match_lines_removed x).
  - intros Hl.
    pose proof (scan_line_lines_from (line1 st) (line2 st) l Hl st) as H.
    destruct (scan_line l st) as [[u|e] st']; apply H; split; lia.
  - pose proof (empty_buffer_lines_from (line1 st) (line2 st) st) as H.
    destruct (empty_buffer st) as [[u|e] st']; apply H; split; lia.
  - intros g1 g2 g3 g4 st' Hl Hrun.
    pose proof (scan_line_hunk_header l g1 g2 g3 g4 Hl st I) as H.
    rewrite Hrun in H. exact H.
Qed.

(** C5, as amended. When the labels, the comments and the bracket lines of
    a difference tree hold no marker, and neither do the style sheet and
    script addresses and what the module takes from outside, nothing that
    [output_html] or [output_html_directory] writes, to the report or to a
    child page, holds a marker: [convert] turns every marker of a row into
    a tag, and writes none whatever its input. *)
Theorem rendered_output_clean (difference : Difference) (css_url jquery_url : option str)
    (directory : str) (st : state) :
  env_clean E ->
  difference_clean difference ->
  clean_opt css_url -> clean_opt jquery_url ->
  clean_state st ->
  clean_state (output_html difference css_url st).2 /\
  clean_state (output_html_directory directory difference css_url jquery_url st).2 /\
  (forall s ponct tag, clean tag -> clean (convert s ponct tag)).
Proof.
  intros Henv Hd Hc Hj Hst. split; [|split].
  - pose proof (output_html_clean Henv difference css_url Hd Hc st Hst) as H.
    by destruct (output_html difference css_url st) as [[u|e] st'].
  - pose proof (output_html_directory_clean Henv directory difference css_url jquery_url
                  Hd Hc Hj st Hst) as H.
    by destruct (output_html_directory directory difference css_url jquery_url st)
      as [[u|e] st'].
  - intros. by apply convert_clean.
Qed.

End Claims.

(** C3. For sanitized [s] and [t], [linediff] returns a pair, and taking
    the markers out of its two strings gives [s] and [t] back: every
    character of an input is in its output, in order. *)
Theorem linediff_keeps_inputs (s t : str) :
  sanitized s -> sanitized t ->
  exists s' t', linediff s t = Some (s', t') /\
    strip_markers s' = s /\ strip_markers t' = t /\
    s `sublist_of` s' /\ t `sublist_of` t'.
Proof.
  intros Hs Ht. destruct (linediff_sane s t) as (s' & t' & H & H1 & H2).
  rewrite (sane_sanitized s Hs) in H1. rewrite (sane_sanitized t Ht) in H2.
  exists s', t'. repeat split; try done.
  - rewrite <- H1 at 1. apply sublist_filter.
  - rewrite <- H2 at 1. apply sublist_filter.
Qed.

(** C4. In the table of [linediff], the cell [(i, j)] with [i, j >= 1]
    holds the least of the three candidate costs, and its back-pointer is
    the diagonal neighbour when the diagonal reaches that cost, else the
    vertical one (delete from [s]) when it does, else the horizontal one
    (insert in [t]). *)
Theorem linediff_tie_break (s t : str) (d : matrix) (i j : nat) :
  fill_table s t = Some d ->
  (1 <= i <= length s)%nat -> (1 <= j <= length t)%nat ->
  exists sc tc up left diag,
    s !! (i - 1)%nat = Some sc /\ t !! (j - 1)%nat = Some tc /\
    mget d (i - 1) j = Some up /\ mget d i (j - 1) = Some left /\
    mget d (i - 1) (j - 1) = Some diag /\
    let cd := diag.1 + (if N.eqb sc tc then 0 else 1) in
    let cv := up.1 + 1 in
    let ch := left.1 + 1 in
    let best := Z.min cd (Z.min cv ch) in
    mget d i j =
      Some (best,
            if decide (cd = best) then ((i - 1)%nat, (j - 1)%nat)
            else if decide (cv = best) then ((i - 1)%nat, j)
            else (i, (j - 1)%nat)).
Proof.
  intros Hd Hi Hj. destruct (fill_table_ok s t) as (d' & Hd' & [_ Hok]).
  assert (d' = d) as -> by congruence.
  destruct i as [|x]; [lia|]. destruct j as [|y]; [lia|].
  specialize (Hok (S x) (S y) ltac:(lia) ltac:(lia) I). cbn [cell_ok] in Hok.
  destruct Hok as (sc & tc & up & left & diag & Hsc & Htc & Hup & Hleft & Hdiag & Hc).
  rewrite py_min3_pref in Hc.
  replace (S x - 1)%nat with x by lia. replace (S y - 1)%nat with y by lia.
  by exists sc, tc, up, left, diag.
Qed.

(** C9. [sane] is idempotent. *)
Theorem sane_idempotent (x : str) : sane (sane x) = sane x.
Proof.
  rewrite !sane_map, map_map. apply map_ext. intros; apply sane_char_idem.
Qed.

(** C7, at the failing input: after the lines [@@ -1,1 +1,3 @@], [-a] and
    [-b] the first counter is -1 and the second 3; the line [ c] is then
    taken as a context line, both counters are decremented and the pair is
    buffered, though the first counter is exhausted. *)
Theorem context_line_negative_counter :
  let st := scanned ["@@ -1,1 +1,3 @@"; "-a"; "-b"]%string in
  let r := scan_line (E := sample_env) (cfg := sample_config) (lit " c") st in
  hunk_size1 st = -1 /\ hunk_size2 st = 3 /\
  r.1 = Ok tt /\ hunk_size1 r.2 = -2 /\ hunk_size2 r.2 = 2 /\
  buf r.2 = [(Some (lit "c"), Some (lit "c"))].
Proof. vm_compute. repeat split; reflexivity. Qed.

(** C8, at the failing input: for the line [[ x ]] the scanner writes the
    single cell [<td colspan="2">[ x ]</td>] and a newline, with no [<tr>]
    around it, and counts no row. *)
Theorem bracket_line_bare_cell :
  let r := scan_line (E := sample_env) (cfg := sample_config) (lit "[ x ]")
             single_file_start in
  r.1 = Ok tt /\
  out r.2 = [q "<td colspan=`2`>[ x ]</td>" ++ [NEWLINE]] /\
  spl_rows r.2 = 0.
Proof. vm_compute. repeat split; reflexivity. Qed.

(** C10, at the failing input: in directory mode with a report limit of
    2450 characters and a parent page of 2 rows, the print limit is reached
    inside the second row; the [finally] of [output_line] counts the row
    and rotates to the first child page, and the handler of
    [PrintLimitReached] then fails its assertion. *)
Theorem print_limit_after_rotation :
  let r := output_html_directory (E := sample_env) (cfg := with_limits 2450 1024 2)
             (lit "dir") one_line_difference None None initial_state in
  r.1 = Raise AssertionError /\ spl_current_page r.2 = 1.
Proof. vm_compute. split; reflexivity. Qed.

(** The counterexample of C6: the counter [line1] is 5 after the first two
    lines of a diff and 1 after its third, a second hunk header. *)
Lemma line_numbers_decrease :
  line1 (scanned ["@@ -5 +5 @@"; "-a"]%string) = 5 /\
  line1 (scanned ["@@ -5 +5 @@"; "-a"; "@@ -1 +1 @@"]%string) = 1 /\
  line1 (scanned ["@@ -5 +5 @@"; "-a"; "@@ -1 +1 @@"]%string)
    < line1 (scanned ["@@ -5 +5 @@"; "-a"]%string).
Proof. vm_compute. repeat split; reflexivity. Qed.

(** The counterexample of C5: a label that holds a marker is written with
    it. *)
Lemma marker_in_label :
  let r := output_html (E := sample_env) (cfg := sample_config)
             marked_difference None initial_state in
  r.1 = Ok tt /\
  (lit "<div><span class='source'>" ++ [DIFFON] ++ lit "<span>") ∈ out r.2 /\
  ~ Forall clean (out r.2).
Proof.
  cbv zeta. split; [by vm_compute|]. split.
  - apply (bool_decide_unpack _). by vm_compute.
  - apply (bool_decide_eq_false_1 _). by vm_compute.
Qed.

Lemma sample_env_clean : env_clean sample_env.
Proof.
  unfold env_clean. cbn. repeat split; intros; by apply clean_decide.
Qed.

Lemma e4_difference_clean : difference_clean e4_difference.
Proof.
  apply difference_clean_node;
    [by apply clean_decide|by apply clean_decide|constructor| |constructor].
  unfold brackets_clean. apply (bool_decide_unpack _). by vm_compute.
Qed.

Lemma initial_state_clean : clean_state initial_state.
Proof. repeat split; constructor. Qed.

Lemma print_limit_reached_witness :
  let cfg := with_limits 10 1024 50 in
  (false = false /\ max_report_size < char_count initial_state + len (lit "hello world")) /\
  (limited_print_func (lit "hello world") false initial_state).1 = Raise PrintLimitReached /\
  (limited_print_func (lit "hello world") true initial_state).1 = Ok tt.
Proof.
  intros cfg.
  assert (H : max_report_size < char_count initial_state + len (lit "hello world"))
    by (vm_compute; reflexivity).
  split; [exact (conj eq_refl H)|]. split.
  - exact (proj1 (print_limit_reached (cfg := cfg) (lit "hello world") false initial_state)
             eq_refl H).
  - exact (proj1 (proj2 (print_limit_reached (cfg := cfg) (lit "hello world") true
                           initial_state)) eq_refl).
Defined.

Lemma linediff_keeps_inputs_witness :
  (sanitized (lit "hello") /\ sanitized (lit "world")) /\
  exists s' t', linediff (lit "hello") (lit "world") = Some (s', t') /\
    strip_markers s' = lit "hello" /\ strip_markers t' = lit "world" /\
    lit "hello" `sublist_of` s' /\ lit "world" `sublist_of` t'.
Proof.
  assert (H1 : sanitized (lit "hello")) by (apply (bool_decide_unpack _); vm_compute; exact I).
  assert (H2 : sanitized (lit "world")) by (apply (bool_decide_unpack _); vm_compute; exact I).
  split; [exact (conj H1 H2)|].
  exact (linediff_keeps_inputs (lit "hello") (lit "world") H1 H2).
Defined.

Lemma linediff_tie_break_witness :
  let s := lit "ab" in
  let t := lit "ba" in
  let d := default [] (fill_table s t) in
  (fill_table s t = Some d /\ (1 <= 2 <= length s)%nat /\ (1 <= 2 <= length t)%nat) /\
  exists sc tc up left diag,
    s !! 1%nat = Some sc /\ t !! 1%nat = Some tc /\
    mget d 1 2 = Some up /\ mget d 2 1 = Some left /\ mget d 1 1 = Some diag /\
    mget d 2 2 =
      Some (Z.min (diag.1 + (if N.eqb sc tc then 0 else 1)) (Z.min (up.1 + 1) (left.1 + 1)),
            if decide (diag.1 + (if N.eqb sc tc then 0 else 1)
                       = Z.min (diag.1 + (if N.eqb sc tc then 0 else 1))
                               (Z.min (up.1 + 1) (left.1 + 1)))
            then (1%nat, 1%nat)
            else if decide (up.1 + 1
                            = Z.min (diag.1 + (if N.eqb sc tc then 0 else 1))
                                    (Z.min (up.1 + 1) (left.1 + 1)))
                 then (1%nat, 2%nat) else (2%nat, 1%nat)).
Proof.
  intros s t d.
  assert (H1 : fill_table s t = Some d) by (vm_compute; reflexivity).
  assert (H2 : (1 <= 2 <= length s)%nat) by (vm_compute; split; repeat constructor).
  assert (H3 : (1 <= 2 <= length t)%nat) by (vm_compute; split; repeat constructor).
  split; [exact (conj H1 (conj H2 H3))|].
  exact (linediff_tie_break s t d 2 2 H1 H2 H3).
Defined.

Lemma rendered_output_clean_witness :
  (env_clean sample_env /\ difference_clean e4_difference /\
   clean_opt None /\ clean_opt None /\ clean_state initial_state) /\
  clean_state (output_html (E := sample_env) (cfg := sample_config)
                 e4_difference None initial_state).2.
Proof.
  split.
  - exact (conj sample_env_clean
             (conj e4_difference_clean (conj I (conj I initial_state_clean)))).
  - exact (proj1 (rendered_output_clean (E := sample_env) (cfg := sample_config)
                    e4_difference None None (lit "dir") initial_state
                    sample_env_clean e4_difference_clean I I initial_state_clean)).
Defined.

Lemma line_numbers_advance_witness :
  let E := sample_env in
  let cfg := sample_config in
  let s1 := Some (lit "[ 5 lines removed ]") in
  let st' := (output_line s1 None single_file_start).2 in
  (output_line s1 None single_file_start = (Ok tt, st') /\
   truthy s1 = true /\ match_hunk (lit "-x") = None) /\
  line1 st' = line1 single_file_start + line_increment s1 /\
  line_increment s1 = 5 /\
  line1 single_file_start <= line1 (scan_line (lit "-x") single_file_start).2.
Proof.
  intros E cfg s1 st'.
  assert (H1 : output_line s1 None single_file_start = (Ok tt, st'))
    by (vm_compute; reflexivity).
  assert (H2 : truthy s1 = true) by reflexivity.
  assert (H3 : match_hunk (lit "-x") = None) by (vm_compute; reflexivity).
  split; [exact (conj H1 (conj H2 H3))|].
  destruct (line_numbers_advance (E := E) (cfg := cfg) s1 None (lit "-x") single_file_start)
    as (Hline & _ & _ & Hinc & Hscan & _).
  split; [exact (proj1 (Hline st' H1))|].
  split; [exact (Hinc _ eq_refl H2)|].
  exact (proj1 (Hscan H3)).
Defined.

(** ** Where the limits are caught *)

Section Caught.
Context {E : Env} {cfg : Config}.

Ltac side_any := unfold not_block_limit, any_state in *; side_basic.

Lemma spl_print_not_block s force :
  triple any_state (spl_print s force) (fun _ => any_state) not_block_limit.
Proof.
  unfold spl_print, call_print, recording_print_func.
  apply triple_bind_gets. intros p _. destruct p as [[|f]|].
  - intros st _. rewrite limited_print_func_run. cbv zeta.
    by destruct (negb force && _).
  - vcg any_state side_any no_call.
  - vcg any_state side_any no_call.
Qed.

Lemma spl_had_entered_child_ok st : exists b, spl_had_entered_child st = (Ok b, st).
Proof. unfold spl_had_entered_child. rewrite !bind_run. cbn [gets mret M_ret]. eauto. Qed.

Lemma output_unified_diff_table_not_block unified_diff hil :
  triple any_state (output_unified_diff_table unified_diff hil)
         (fun _ => any_state) not_block_limit.
Proof.
  { unfold output_unified_diff_table.
    eapply (triple_bind _ _ _ (fun _ => any_state)); [vcg any_state side_any no_call|].
    intros _.
    eapply (triple_bind _ _ _ (fun _ => any_state)); [apply spl_print_not_block|].
    intros _.
    eapply (triple_try_finally _ _ _ (fun _ => any_state) not_block_limit).
    - eapply (triple_try_except _ _ _ _ (fun _ => any_state)).
      + by intros s _; destruct (scan unified_diff s) as [[?|?] ?].
      + intros e h Hh. destruct e; simplify_eq Hh; intros <-.
        * intros s _. destruct (spl_had_entered_child_ok s) as [b Hb].
          rewrite bind_run, Hb. destruct b; [done|].
          rewrite bind_run.
          pose proof (spl_print_not_block
            (lit "<tr class='error'><td colspan='4'>Max output size reached.</td></tr>")
            true s I) as Hp.
          by destruct (spl_print _ true s) as [[[]|e] s'].
        * vcg any_state side_any ltac:(solve [apply spl_print_not_block]).
      + intros e s Hh _. intros ->. done.
    - intros _. apply spl_print_not_block.
    - intros e s He. pose proof (spl_print_not_block (lit "</table>") true s I) as Hp.
      by destruct (spl_print _ true s) as [[[]|e'] s']. }
Qed.

(** X3. [DiffBlockLimitReached] never leaves [output_unified_diff_table],
    in single-file mode or with child pages, whatever the diff and the
    state. *)
Theorem block_limit_never_escapes (unified_diff : str) (hil : bool) (st : state) :
  (output_unified_diff_table unified_diff hil st).1 <> Raise DiffBlockLimitReached.
Proof.
  pose proof (output_unified_diff_table_not_block unified_diff hil st I) as H.
  destruct (output_unified_diff_table unified_diff hil st) as [[b|e] st'].
  - done.
  - cbn. intros [= ->]. by apply H.
Qed.

Lemma call_print_not_block p s force :
  triple any_state (call_print p s force) (fun _ => any_state) not_block_limit.
Proof.
  unfold call_print, recording_print_func. destruct p as [[|f]|].
  - intros st _. rewrite limited_print_func_run. cbv zeta.
    by destruct (negb force && _).
  - vcg any_state side_any no_call.
  - vcg any_state side_any no_call.
Qed.

Lemma limited_print_func_not_block s force :
  triple any_state (limited_print_func s force) (fun _ => any_state) not_block_limit.
Proof. apply (call_print_not_block (Some Primary)). Qed.

Lemma spl_print_exit_not_block :
  triple any_state spl_print_exit (fun _ => any_state) not_block_limit.
Proof.
  unfold spl_print_exit, output_footer.
  eapply (triple_bind _ _ _ (fun _ => any_state)).
  { intros st _. by destruct (spl_had_entered_child_ok st) as [b ->]. }
  intros entered.
  vcg any_state side_any ltac:(solve [apply call_print_not_block]).
Qed.

Lemma output_unified_diff_not_block css_url directory unified_diff hil :
  triple any_state (output_unified_diff css_url directory unified_diff hil)
         (fun _ => any_state) not_block_limit.
Proof.
  unfold output_unified_diff.
  eapply (triple_bind _ _ _ (fun _ => any_state)).
  { unfold new_unified_diff. vcg any_state side_any no_call. }
  intros _.
  eapply (triple_bind _ _ _ (fun _ => any_state)).
  - eapply (triple_try_finally _ _ _ (fun _ => any_state) not_block_limit).
    + eapply (triple_try_except_else _ _ _ _ (fun _ => any_state) not_block_limit).
      * vcg any_state side_any ltac:(solve [apply output_unified_diff_table_not_block]).
      * intros truncated.
        vcg any_state side_any ltac:(solve [apply spl_print_exit_not_block]).
      * intros e.
        eapply triple_conseq with (P' := fun st => any_state st /\ e <> DiffBlockLimitReached)
          (Q' := fun _ => any_state) (X' := not_block_limit);
          [|by intros st H|done|done].
        apply triple_pure. intros He.
        vcg any_state side_any ltac:(solve [apply spl_print_exit_not_block]).
    + intros a. vcg any_state side_any no_call.
    + intros e s He. by run_m.
  - intros truncated.
    vcg any_state side_any ltac:(solve [apply limited_print_func_not_block]).
Qed.

Lemma output_difference_not_block difference :
  forall css_url directory parents,
  triple any_state (output_difference difference css_url directory parents)
         (fun _ => any_state) not_block_limit.
Proof.
  induction difference as [s1 s2 cs ud hil ds IH] using Difference_nested_ind.
  intros css_url directory parents.
  assert (IH' : forall x, x ∈ ds ->
            triple any_state (output_difference x css_url directory (parents ++ [s1]))
                   (fun _ => any_state) not_block_limit).
  { intros x Hx. apply list_elem_of_In in Hx.
    apply (proj1 (List.Forall_forall _ _) IH x Hx). }
  clear IH. cbn [output_difference].
  eapply (triple_bind _ _ _ (fun _ => any_state)); [apply limited_print_func_not_block|].
  intros _.
  eapply (triple_try_finally _ _ _ (fun _ => any_state) not_block_limit).
  - vcg any_state side_any
      ltac:(solve [ apply limited_print_func_not_block
                  | by apply IH'
                  | apply output_unified_diff_not_block ]).
  - intros _. apply limited_print_func_not_block.
  - intros e s He.
    pose proof (limited_print_func_not_block (lit "</div>") true s I) as Hp.
    by destruct (limited_print_func _ true s) as [[[]|e'] s'].
Qed.

(** X2. Neither limit leaves the report: [output_html] and
    [output_html_directory] never raise [PrintLimitReached] nor
    [DiffBlockLimitReached], and when they return, the last text written to
    the report is the footer. *)
Theorem limits_never_escape (difference : Difference) (css_url jquery_url : option str)
    (directory : str) (st : state) :
  report_outcome (output_html difference css_url st) /\
  report_outcome (output_html_directory directory difference css_url jquery_url st).
Proof.
  assert (Hbody : forall dir, triple any_state
            (try_except
               (output_header css_url (Some Primary);;
                output_difference difference css_url dir [])
               (fun e => match e with
                         | PrintLimitReached =>
                             Some (limited_print_func max_output_size_reached true)
                         | _ => None
                         end))
            (fun _ => any_state) no_limit).
  { intros dir. eapply (triple_try_except _ _ _ _ not_block_limit).
    - eapply (triple_bind _ _ _ (fun _ => any_state)).
      + unfold output_header. apply call_print_not_block.
      + intros _. apply output_difference_not_block.
    - intros e h Hh. destruct e; simplify_eq Hh; intros <-.
      intros s _. by rewrite limited_print_func_run.
    - intros e s Hh He. split; [exact He|]. by intros ->. }
  assert (Hfooter : forall s, report_outcome (output_footer (Some Primary) s)).
  { intros s. unfold output_footer. cbn [call_print]. rewrite limited_print_func_run.
    cbv zeta. cbn [negb andb report_outcome]. state_simpl. apply last_snoc. }
  split.
  - unfold output_html. rewrite bind_run. cbn [modify]. rewrite bind_run.
    pose proof (Hbody None (set_char_count 0 st) I) as H.
    destruct (try_except _ _ (set_char_count 0 st)) as [[[]|e] s1].
    + apply Hfooter.
    + cbn [report_outcome]. destruct H. by split.
  - unfold output_html_directory. rewrite bind_run. cbn [modify]. rewrite bind_run.
    pose proof (Hbody (Some directory) (set_char_count 0 st) I) as H.
    destruct (try_except _ _ (set_char_count 0 st)) as [[[]|e] s1].
    + rewrite bind_run.
      destruct (truthy _).
      * rewrite limited_print_func_run. cbv zeta. cbn [negb andb]. apply Hfooter.
      * cbn [mret M_ret]. apply Hfooter.
    + cbn [report_outcome]. destruct H. by split.
Qed.

End Caught.

(** ** What is closed, and what is left open *)

Section Closing.
Context {E : Env} {cfg : Config}.

Ltac side_sf' :=
  unfold block_limit_at_cap, no_block_limit, single_file in *; side_basic;
  try (repeat split; first [done | congruence | lia]).

Lemma spl_print_primary s force st :
  spl_print_func st = Some Primary ->
  spl_print s force st = limited_print_func s force st.
Proof. intros H. unfold spl_print. rewrite bind_run. cbn [gets]. by rewrite H. Qed.

Lemma table_body_sf unified_diff :
  triple single_file
    (try_except (scan unified_diff)
       (fun e =>
          match e with
          | DiffBlockLimitReached => Some (
              let total := len unified_diff in
              processed ← gets bytes_processed;
              let bytes_left := total - processed in
              if total =? 0 then raise ZeroDivisionError
              else
                match true_divide bytes_left total with
                | None => raise OverflowError
                | Some frac =>
                    spl_print (block_limit_row bytes_left total (float_times_100 frac))
                              true;;
                    mret false
                end)
          | PrintLimitReached => Some (
              entered ← spl_had_entered_child;
              if (entered : bool) then raise AssertionError
              else
                spl_print (lit "<tr class='error'><td colspan='4'>Max output size reached.</td></tr>")
                          true;;
                raise PrintLimitReached)
          | _ => None
          end))
    (fun _ => single_file) (fun _ => single_file).
Proof.
  eapply (triple_try_except _ _ _ _ (fun _ => single_file)).
  - eapply triple_conseq; [apply scan_sf|done|done|by intros e st [? _]].
  - intros e h Hh. destruct e; simplify_eq Hh; intros <-.
    + eapply (triple_bind _ _ _ (fun _ => single_file)).
      { intros st Hst. by destruct (spl_had_entered_child_ok st) as [b ->]. }
      intros entered. destruct entered; [by apply triple_raise|].
      eapply (triple_bind _ _ _ (fun _ => single_file)).
      * eapply triple_conseq; [apply spl_print_sf|done|done|by intros e st [? _]].
      * intros _. by apply triple_raise.
    + cbv zeta. apply triple_bind_gets. intros processed _.
      eapply triple_conseq with (P' := single_file) (Q' := fun _ => single_file)
        (X' := fun _ => single_file); [|by intros st [? _]|done|done].
      destruct (len unified_diff =? 0); [by apply triple_raise|].
      destruct (true_divide _ _) as [frac|]; [|by apply triple_raise].
      eapply (triple_bind _ _ _ (fun _ => single_file)).
      * eapply triple_conseq; [apply spl_print_sf|done|done|by intros e st [? _]].
      * intros _. by apply triple_ret.
  - done.
Qed.

(** X8. In single-file mode a table whose opening is written below the
    report limit is always closed: whatever the scan of the diff does, the
    last text written is [</table>].  When the opening itself reaches the
    limit, [PrintLimitReached] is raised with the table left open. *)
Theorem table_closed_after_header (unified_diff : str) (hil : bool) (st : state) :
  single_file st ->
  let r := output_unified_diff_table unified_diff hil st in
  (char_count st + len UD_TABLE_HEADER < max_report_size ->
     list.last (out r.2) = Some (lit "</table>")) /\
  (max_report_size <= char_count st + len UD_TABLE_HEADER ->
     r.1 = Raise PrintLimitReached /\ out r.2 = out st ++ [UD_TABLE_HEADER]).
Proof.
  intros Hsf. pose proof Hsf as [Hf Hc]. cbv zeta.
  unfold output_unified_diff_table. rewrite bind_run. cbn [modify].
  rewrite bind_run, spl_print_primary by done.
  rewrite limited_print_func_run. cbv zeta. cbn [negb andb]. state_simpl.
  destruct (Z.leb_spec max_report_size (char_count st + len UD_TABLE_HEADER)) as [Hle|Hlt].
  - split; [lia|]. intros _. by state_simpl.
  - split; [|lia]. intros _.
    unfold try_finally.
    match goal with |- context [try_except ?b ?h ?s] =>
      assert (Hs' : single_file (try_except b h s).2) by
        (pose proof (table_body_sf unified_diff s ltac:(by split)) as Hb;
         change (match try_except b h s with
                 | (Ok _, st') => single_file st'
                 | (Raise _, st') => single_file st'
                 end) in Hb;
         destruct (try_except b h s) as [[?|?] ?]; exact Hb);
      destruct (try_except b h s) as [r s']
    end.
    cbn [snd] in Hs'.
    rewrite spl_print_primary by apply Hs'.
    rewrite limited_print_func_run. cbv zeta. cbn [negb andb].
    state_simpl. apply last_snoc.
Qed.

(** X9. [output_difference] closes the [div] it opens: when the opening
    is written below the report limit, the last text written is [</div>],
    however the body ends.  When the opening itself reaches the limit,
    [PrintLimitReached] is raised and the [div] is left open. *)
Theorem difference_div_closed (difference : Difference) (css_url directory : option str)
    (parents : list str) (st : state) :
  let r := output_difference difference css_url directory parents st in
  let opening := lit "<div class='difference'>" in
  (char_count st + len opening < max_report_size ->
     list.last (out r.2) = Some (lit "</div>")) /\
  (max_report_size <= char_count st + len opening ->
     r.1 = Raise PrintLimitReached /\ out r.2 = out st ++ [opening]).
Proof.
  destruct difference as [s1 s2 cs ud hil ds]. cbv zeta. cbn [output_difference].
  rewrite bind_run, limited_print_func_run. cbv zeta. cbn [negb andb].
  destruct (Z.leb_spec max_report_size (char_count st + len (lit "<div class='difference'>")))
    as [Hle|Hlt].
  - split; [lia|]. intros _. by state_simpl.
  - split; [|lia]. intros _. unfold try_finally.
    match goal with |- context [let '(_, _) := ?b in _] => destruct b as [r s'] end.
    rewrite limited_print_func_run. cbv zeta. cbn [negb andb]. state_simpl.
    apply last_snoc.
Qed.

End Closing.

Lemma table_closed_after_header_witness :
  single_file single_file_start /\
  list.last (out (output_unified_diff_table (E := sample_env) (cfg := sample_config)
                    e4_diff true single_file_start).2) = Some (lit "</table>").
Proof.
  assert (H : single_file single_file_start) by (split; reflexivity).
  split; [exact H|].
  apply (proj1 (table_closed_after_header (E := sample_env) (cfg := sample_config)
                  e4_diff true single_file_start H)).
  vm_compute. reflexivity.
Defined.

Lemma difference_div_closed_witness :
  list.last (out (output_difference (E := sample_env) (cfg := sample_config)
                    e4_difference None None [] initial_state).2) = Some (lit "</div>").
Proof.
  apply (proj1 (difference_div_closed (E := sample_env) (cfg := sample_config)
                  e4_difference None None [] initial_state)).
  vm_compute. reflexivity.
Defined.

(** ** Child pages *)

Lemma find_page_cons filename f fs :
  find_page filename (f :: fs) =
  if decide (f.1 = filename) then Some f.2 else find_page filename fs.
Proof.
  unfold find_page. cbn [list_find]. destruct (decide (f.1 = filename)); [done|].
  by destruct (list_find _ fs) as [[i x]|].
Qed.

Lemma find_page_write_page filename s fs :
  find_page filename (write_page filename s fs) = page_write s <$> find_page filename fs.
Proof.
  induction fs as [|f fs IH]; [done|].
  cbn [write_page map] in *. rewrite !find_page_cons.
  destruct (decide (f.1 = filename)) as [Hf|Hf].
  - rewrite bool_decide_true by done. cbn [fst snd]. by rewrite decide_True.
  - rewrite bool_decide_false by done. rewrite decide_False by done. apply IH.
Qed.

Lemma find_page_open_page filename fs :
  find_page filename (open_page filename fs) = Some (mkPage [] 0).
Proof. unfold open_page. rewrite find_page_cons. by rewrite decide_True. Qed.

Section ChildPages.
Context {E : Env} {cfg : Config}.

Lemma recording_print_func_run filename s force st pg :
  find_page filename (files st) = Some pg ->
  recording_print_func filename s force st =
    (Ok tt, set_files (write_page filename s (files st)) st).
Proof.
  intros H. unfold recording_print_func. rewrite bind_run. cbn [gets]. by rewrite H.
Qed.

(** X11. A write on a child page is not counted against the report: it
    never raises [PrintLimitReached], and leaves the text of the report and
    its character count as they were; when the page is open, the write
    completes and the page holds the text at its end, with its length added
    to [bytes_written]. *)
Theorem child_page_write (filename s : str) (force : bool) (st : state) :
  spl_print_func st = Some (Child filename) ->
  let r := spl_print s force st in
  r.1 <> Raise PrintLimitReached /\
  out r.2 = out st /\ char_count r.2 = char_count st /\
  (forall pg, find_page filename (files st) = Some pg ->
     r.1 = Ok tt /\ find_page filename (files r.2) = Some (page_write s pg)).
Proof.
  intros Hf. cbv zeta. unfold spl_print. rewrite bind_run. cbn [gets]. rewrite Hf.
  cbn [call_print].
  destruct (find_page filename (files st)) as [pg|] eqn:Hpg.
  - rewrite (recording_print_func_run _ _ _ _ pg Hpg). cbn [fst snd]. state_simpl.
    split; [done|]. split; [done|]. split; [done|].
    intros pg' [= <-]. split; [done|]. by rewrite find_page_write_page, Hpg.
  - unfold recording_print_func. rewrite bind_run. cbn [gets]. rewrite Hpg.
    cbn [raise fst snd]. split; [done|]. split; [done|]. split; [done|]. done.
Qed.

Lemma first_page_name mainname :
  mainname ++ lit "-" ++ dec 1 ++ lit ".html" = mainname ++ lit "-1.html".
Proof. reflexivity. Qed.

(** X10. With child pages and the rows still on the parent page, below
    the overall cap of the table: a row that leaves the count under
    [max_diff_block_lines_parent] is only counted; the row that reaches it
    opens the first child page, named after the digest of the diff, writes
    the document header and the opening of a table to it and makes it the
    page the following rows are written to; the report itself is not
    written to. *)
Theorem parent_page_rotation (ex : option str) (directory mainname : str)
    (css_url : option str) (st : state) :
  spl_print_ctrl st = Some (ex, Some (directory, mainname, css_url)) ->
  spl_current_page st = 0 ->
  spl_rows st + 1 < max_diff_block_lines_html_dir_ratio * max_diff_block_lines ->
  let r := row_was_output st in
  let filename := mainname ++ lit "-1.html" in
  (spl_rows st + 1 < max_diff_block_lines_parent ->
     r = (Ok tt, set_spl_rows (spl_rows st + 1) st)) /\
  (max_diff_block_lines_parent <= spl_rows st + 1 ->
     r.1 = Ok tt /\ spl_current_page r.2 = 1 /\ spl_rows r.2 = spl_rows st + 1 /\
     spl_print_func r.2 = Some (Child filename) /\
     spl_print_ctrl r.2 = Some (Some filename, Some (directory, mainname, css_url)) /\
     out r.2 = out st /\ char_count r.2 = char_count st /\
     find_page filename (files r.2) =
       Some (mkPage [header_chunk css_url; UD_TABLE_HEADER]
                    (len (header_chunk css_url) + len UD_TABLE_HEADER))).
Proof.
  intros Hctrl Hpage Hcap. cbv zeta.
  set (filename := mainname ++ lit "-1.html").
  assert (Hrun : row_was_output st =
    if spl_rows st + 1 <? max_diff_block_lines_parent
    then (Ok tt, set_spl_rows (spl_rows st + 1) st)
    else (Ok tt,
          set_files
            (write_page filename UD_TABLE_HEADER
               (write_page filename (header_chunk css_url)
                  (open_page filename (files st))))
            (set_spl_print_func (Some (Child filename))
               (set_spl_print_ctrl (Some (Some filename, Some (directory, mainname, css_url)))
                  (set_spl_current_page 1 (set_spl_rows (spl_rows st + 1) st)))))).
  { unfold row_was_output.
    rewrite bind_run. cbn [modify]. rewrite bind_run. cbn [gets]. state_simpl.
    rewrite Hctrl. rewrite bind_run. cbn [gets]. state_simpl.
    rewrite (proj2 (Z.leb_gt _ _)) by lia.
    rewrite bind_run. cbn [gets]. state_simpl. rewrite Hpage. cbn [Z.eqb].
    rewrite bind_run. cbn [mret M_ret].
    destruct (spl_rows st + 1 <? max_diff_block_lines_parent); [done|].
    rewrite bind_run. cbn [modify]. rewrite bind_run. cbn [gets]. state_simpl.
    rewrite Hpage. change (0 + 1) with 1. change (1 <? 1) with false. cbv iota.
    rewrite bind_run. cbn [mret M_ret]. rewrite first_page_name. fold filename.
    rewrite bind_run. unfold spl_print_enter.
    rewrite bind_run. cbn [modify]. rewrite bind_run. cbn [modify].
    rewrite bind_run. cbn [modify]. rewrite bind_run. cbn [gets]. state_simpl.
    unfold output_header. cbn [call_print]. fold (header_chunk css_url).
    erewrite recording_print_func_run by (state_simpl; apply find_page_open_page).
    unfold spl_print. rewrite bind_run. cbn [gets]. state_simpl. cbn [call_print].
    erewrite recording_print_func_run
      by (state_simpl; rewrite find_page_write_page, find_page_open_page; done).
    reflexivity. }
  rewrite Hrun.
  destruct (Z.ltb_spec (spl_rows st + 1) max_diff_block_lines_parent) as [Hlt|Hge].
  - split; [done|lia].
  - split; [lia|]. intros _. cbn [fst snd]. state_simpl.
    repeat (split; [done|]).
    by rewrite !find_page_write_page, find_page_open_page.
Qed.

End ChildPages.

Lemma child_page_write_witness :
  let r := spl_print (cfg := sample_config) (lit "<tr>") false
             child_page_start in
  spl_print_func child_page_start = Some (Child (lit "abc-1.html")) /\
  r.1 <> Raise PrintLimitReached /\ out r.2 = [] /\ char_count r.2 = 0.
Proof.
  cbv zeta.
  destruct (child_page_write (cfg := sample_config) (lit "abc-1.html") (lit "<tr>") false child_page_start eq_refl)
    as (H1 & H2 & H3 & _).
  split; [reflexivity|]. split; [exact H1|]. split; [exact H2|exact H3].
Defined.

Lemma parent_page_rotation_witness :
  let r := row_was_output (E := sample_env) (cfg := with_limits 2048000 1024 1)
             parent_page_start in
  (spl_print_ctrl parent_page_start = Some (None, Some (lit "dir", lit "abc", None)) /\
   spl_current_page parent_page_start = 0 /\
   spl_rows parent_page_start + 1 < 4 * 1024) /\
  r.1 = Ok tt /\ spl_current_page r.2 = 1 /\
  spl_print_func r.2 = Some (Child (lit "abc-1.html")).
Proof.
  cbv zeta.
  assert (H : spl_rows parent_page_start + 1 < 4 * 1024) by (vm_compute; reflexivity).
  split; [exact (conj eq_refl (conj eq_refl H))|].
  destruct (parent_page_rotation (E := sample_env) (cfg := with_limits 2048000 1024 1)
              None (lit "dir") (lit "abc") None parent_page_start eq_refl eq_refl H)
    as [_ Hrot].
  destruct Hrot as (H1 & H2 & _ & H4 & _); [vm_compute; discriminate|].
  split; [exact H1|]. split; [exact H2|exact H4].
Defined.

(** ** The lines of the scanner *)

Section ScannerLines.
Context {E : Env} {cfg : Config}.

Ltac side_hf := unfold hunk_frame in *; side_basic.

(** A flush that completes leaves the buffer empty and the two counts
    of buffered lines at zero. *)
Lemma empty_buffer_resets st :
  match empty_buffer st with
  | (Ok _, st') => buf st' = [] /\ add_cpt st' = 0 /\ del_cpt st' = 0
  | (Raise _, _) => True
  end.
Proof.
  assert (H : triple any_state empty_buffer
                (fun _ st' => buf st' = [] /\ add_cpt st' = 0 /\ del_cpt st' = 0)
                (fun _ _ => True)).
  { unfold empty_buffer.
    apply triple_bind_gets. intros d _. apply triple_bind_gets. intros a _.
    apply triple_bind_gets. intros b _.
    eapply (triple_bind _ _ _ (fun _ => any_state)).
    - intros s _. by destruct (_ s) as [[?|?] ?].
    - intros _. intros s _. by run_m. }
  specialize (H st I). by destruct (empty_buffer st) as [[?|?] ?].
Qed.

Lemma empty_buffer_hunk_frame s1 s2 b : preserves (hunk_frame s1 s2 b) empty_buffer.
Proof.
  unfold preserves.
  vcg (hunk_frame s1 s2 b) side_hf no_call.
Qed.

Lemma starts_with_1 a l :
  starts_with [a] l = true -> exists rest, l = a :: rest.
Proof.
  destruct l as [|b rest]; [done|]. cbn. rewrite andb_true_r.
  intros ->%N.eqb_eq. by exists rest.
Qed.

Lemma scan_line_plus rest st :
  starts_with (lit "+++ ") (43%N :: rest) = false ->
  scan_line (43%N :: rest) st =
  (count_line (43%N :: rest);;
   hs1 ← gets hunk_size1; hs2 ← gets hunk_size2;
   if (hs1 <=? 0) && (hs2 <=? 0) then empty_buffer
   else
     let n := default 1 (match_lines_removed rest) in
     modify (fun st => set_add_cpt (add_cpt st + n) st);;
     modify (fun st => set_hunk_size2 (hunk_size2 st - n) st);;
     buf_append (None, Some rest)) st.
Proof.
  intros Hh. unfold scan_line, count_line. rewrite Hh.
  change (starts_with (lit "--- ") (43%N :: rest)) with false.
  change (match_hunk (43%N :: rest)) with (@None (str * str * str * str)).
  change (starts_with (lit "[") (43%N :: rest)) with false.
  change (starts_with (lit "\ No newline") (43%N :: rest)) with false.
  change (match_signed_lines_removed (lit "+") (43%N :: rest))
    with (match_lines_removed rest).
  change (starts_with (lit "+") (43%N :: rest)) with true.
  cbv iota zeta. run_m.
  destruct ((hunk_size1 st <=? 0) && (hunk_size2 st <=? 0)); [done|].
  by destruct (match_lines_removed rest).
Qed.

Lemma scan_line_minus rest st :
  starts_with (lit "--- ") (45%N :: rest) = false ->
  scan_line (45%N :: rest) st =
  (count_line (45%N :: rest);;
   hs1 ← gets hunk_size1; hs2 ← gets hunk_size2;
   if (hs1 <=? 0) && (hs2 <=? 0) then empty_buffer
   else
     let n := default 1 (match_lines_removed rest) in
     modify (fun st => set_del_cpt (del_cpt st + n) st);;
     modify (fun st => set_hunk_size1 (hunk_size1 st - n) st);;
     buf_append (Some rest, None)) st.
Proof.
  intros Hh. unfold scan_line, count_line. rewrite Hh.
  change (starts_with (lit "+++ ") (45%N :: rest)) with false.
  change (match_hunk (45%N :: rest)) with (@None (str * str * str * str)).
  change (starts_with (lit "[") (45%N :: rest)) with false.
  change (starts_with (lit "\ No newline") (45%N :: rest)) with false.
  change (match_signed_lines_removed (lit "+") (45%N :: rest)) with (@None Z).
  change (starts_with (lit "+") (45%N :: rest)) with false.
  change (match_signed_lines_removed (lit "-") (45%N :: rest))
    with (match_lines_removed rest).
  change (starts_with (lit "-") (45%N :: rest)) with true.
  cbv iota zeta. run_m.
  destruct ((hunk_size1 st <=? 0) && (hunk_size2 st <=? 0)); [done|].
  by destruct (match_lines_removed rest).
Qed.

(** X13. Inside a hunk (a counter is still positive), an added or a
    deleted line is only buffered: the scanner completes, writes nothing,
    appends the line without its sign to the buffer on its side, and counts
    it (for N lines when it is a [[ N lines removed ]] placeholder, for one
    otherwise) in [add_cpt] or [del_cpt] and against the hunk size of its
    side. *)
Theorem changed_line_buffered (l : str) (st : state) :
  ~ (hunk_size1 st <= 0 /\ hunk_size2 st <= 0) ->
  let n := default 1 (match_lines_removed (drop 1 l)) in
  (starts_with (lit "+") l = true -> starts_with (lit "+++ ") l = false ->
     scan_line l st = (Ok tt, buffered true n l (None, Some (drop 1 l)) st)) /\
  (starts_with (lit "-") l = true -> starts_with (lit "--- ") l = false ->
     scan_line l st = (Ok tt, buffered false n l (Some (drop 1 l), None) st)) /\
  out (buffered true n l (None, Some (drop 1 l)) st) = out st /\
  out (buffered false n l (Some (drop 1 l), None) st) = out st.
Proof.
  intros Hin. cbv zeta.
  assert (Hb : (hunk_size1 st <=? 0) && (hunk_size2 st <=? 0) = false).
  { destruct (Z.leb_spec (hunk_size1 st) 0), (Z.leb_spec (hunk_size2 st) 0);
      cbn [andb]; try done. lia. }
  split; [|split; [|done]].
  - intros [rest ->]%starts_with_1 Hh. rewrite scan_line_plus by done.
    unfold count_line. run_m. by rewrite Hb.
  - intros [rest ->]%starts_with_1 Hh. rewrite scan_line_minus by done.
    unfold count_line. run_m. by rewrite Hb.
Qed.

(** X14. A line that starts with [--- ] or [+++ ] is taken for a file
    header wherever it stands, also inside a hunk, where it may be a deleted
    line whose text starts with [-- ]: the scanner only counts its bytes and
    flushes the buffer; the hunk counters are left as they were, and nothing
    is buffered for it. *)
Theorem header_line_flushes (l : str) (st : state) :
  starts_with (lit "--- ") l = true \/ starts_with (lit "+++ ") l = true ->
  let r := scan_line l st in
  r = ignore_line l st /\
  hunk_size1 r.2 = hunk_size1 st /\ hunk_size2 r.2 = hunk_size2 st /\
  bytes_processed r.2 = bytes_processed st + (len l + 1) /\
  (r.1 = Ok tt -> buf r.2 = [] /\ add_cpt r.2 = 0 /\ del_cpt r.2 = 0).
Proof.
  intros Hl. cbv zeta.
  assert (Hrun : scan_line l st = ignore_line l st).
  { unfold scan_line, ignore_line, count_line. destruct Hl as [->| ->]; [done|].
    by destruct (starts_with (lit "--- ") l). }
  rewrite Hrun. split; [done|]. unfold ignore_line, count_line.
  rewrite bind_run. cbn [modify].
  set (st0 := set_bytes_processed _ st).
  pose proof (empty_buffer_hunk_frame (hunk_size1 st) (hunk_size2 st)
                (bytes_processed st + (len l + 1)) st0 ltac:(by repeat split)) as Hf.
  pose proof (empty_buffer_resets st0) as Hr.
  destruct (empty_buffer st0) as [[[]|e] st1]; cbn [fst snd];
    destruct Hf as (H1 & H2 & H3); repeat (split; [done|]); [by intros _|done].
Qed.

(** X15. Outside a hunk (neither counter is positive), a line that is
    no file header, hunk header, bracket line or [\ No newline] line is
    ignored whatever it starts with: the scanner only counts its bytes and
    flushes the buffer. *)
Theorem line_outside_hunk_ignored (l : str) (st : state) :
  hunk_size1 st <= 0 -> hunk_size2 st <= 0 ->
  match_hunk l = None -> starts_with (lit "[") l = false -> plain_line l ->
  scan_line l st = ignore_line l st.
Proof.
  intros H1 H2 Hm Hb Hp. unfold scan_line, ignore_line, count_line.
  rewrite Hm, Hb, Hp.
  destruct (starts_with (lit "--- ") l); [done|].
  destruct (starts_with (lit "+++ ") l); [done|].
  run_m. rewrite (proj2 (Z.leb_le _ _) H1), (proj2 (Z.leb_le _ _) H2). done.
Qed.

End ScannerLines.

Lemma changed_line_buffered_witness :
  let st := scanned ["@@ -1,2 +1,2 @@"]%string in
  ~ (hunk_size1 st <= 0 /\ hunk_size2 st <= 0) /\
  scan_line (E := sample_env) (cfg := sample_config) (lit "+x") st =
    (Ok tt, buffered true 1 (lit "+x") (None, Some (lit "x")) st).
Proof.
  intros st.
  assert (H1 : hunk_size1 st = 2) by (vm_compute; reflexivity).
  assert (H : ~ (hunk_size1 st <= 0 /\ hunk_size2 st <= 0)) by (rewrite H1; lia).
  split; [exact H|].
  exact (proj1 (changed_line_buffered (E := sample_env) (cfg := sample_config)
                  (lit "+x") st H) eq_refl eq_refl).
Defined.

Lemma header_line_flushes_witness :
  let st := scanned ["@@ -1,2 +1,2 @@"; "-x"]%string in
  let r := scan_line (E := sample_env) (cfg := sample_config) (lit "--- a") st in
  starts_with (lit "--- ") (lit "--- a") = true /\
  hunk_size1 r.2 = hunk_size1 st /\ hunk_size2 r.2 = hunk_size2 st.
Proof.
  intros st r.
  destruct (header_line_flushes (E := sample_env) (cfg := sample_config)
              (lit "--- a") st (or_introl eq_refl)) as (_ & H1 & H2 & _).
  split; [reflexivity|]. split; [exact H1|exact H2].
Defined.

Lemma line_outside_hunk_ignored_witness :
  (hunk_size1 single_file_start <= 0 /\ hunk_size2 single_file_start <= 0 /\
   match_hunk (E := sample_env) (lit "+x") = None /\
   starts_with (lit "[") (lit "+x") = false /\ plain_line (lit "+x")) /\
  scan_line (E := sample_env) (cfg := sample_config) (lit "+x") single_file_start =
    ignore_line (E := sample_env) (cfg := sample_config) (lit "+x") single_file_start.
Proof.
  assert (H1 : hunk_size1 single_file_start <= 0) by (vm_compute; discriminate).
  assert (H2 : hunk_size2 single_file_start <= 0) by (vm_compute; discriminate).
  split; [exact (conj H1 (conj H2 (conj eq_refl (conj eq_refl eq_refl))))|].
  exact (line_outside_hunk_ignored (E := sample_env) (cfg := sample_config)
           (lit "+x") single_file_start H1 H2 eq_refl eq_refl eq_refl).
Defined.

(** ** More on [sane] and [linediff] *)

(** X19. [sane] works character by character: it keeps the length, its
    result is sanitized and holds neither marker, and it changes nothing
    in a string that is sanitized already. *)
Theorem sane_pointwise (x : str) :
  sane x = map sane_char x /\
  length (sane x) = length x /\
  sanitized (sane x) /\
  Forall not_marker (sane x) /\
  (sanitized x -> sane x = x).
Proof.
  split; [apply sane_map|]. split; [by rewrite sane_map, length_map|].
  split; [|split; [apply sane_not_marker|apply sane_sanitized]].
  rewrite sane_map. apply List.Forall_forall. intros c Hc.
  apply in_map_iff in Hc as (c0 & <- & _).
  unfold sane_char, TAB, NEWLINE.
  destruct (N.eqb_spec c0 9), (N.eqb_spec c0 10), (N.ltb_spec c0 32); simpl; lia.
Qed.

(** X20. [linediff] returns a pair for every two strings, sanitized or
    not (no index of its table or of its inputs is out of range, and the
    walk along the back-pointers ends), and taking the markers out of its
    results gives the sanitized inputs. *)
Theorem linediff_total (s t : str) :
  exists s' t', linediff s t = Some (s', t') /\
    strip_markers s' = sane s /\ strip_markers t' = sane t /\
    length (strip_markers s') = length s /\ length (strip_markers t') = length t.
Proof.
  destruct (linediff_sane s t) as (s' & t' & H & H1 & H2).
  exists s', t'. split; [done|]. split; [done|]. split; [done|].
  rewrite H1, H2, !sane_map, !length_map. done.
Qed.

(** The walk along the back-pointers of a filled table ends within
    [m + n] steps. *)
Lemma walk_total s t d :
  Forall not_marker s -> Forall not_marker t -> table_inv s t all_cells d ->
  exists l, walk (length s + length t) d (length s, length t) [] = Some l.
Proof.
  intros Hs Ht Hd.
  destruct (walk_emit s t d Hs Ht Hd (length s + length t) (length s) (length t) [])
    as (p & _ & _ & Hw & _); [lia|lia|lia|].
  eauto.
Qed.

(** *** Identical inputs *)

Lemma cell_nonneg s t d :
  table_inv s t all_cells d ->
  forall k x y, (x + y <= k)%nat -> (x <= length s)%nat -> (y <= length t)%nat ->
  exists c, mget d x y = Some c /\ 0 <= c.1.
Proof.
  intros [_ Hok]. induction k as [k IH] using lt_wf_ind. intros x y Hk Hx Hy.
  pose proof (Hok x y Hx Hy I) as Hc.
  destruct x as [|x'], y as [|y']; simpl in Hc.
  - eexists. split; [exact Hc|]. done.
  - eexists. split; [exact Hc|]. simpl. lia.
  - eexists. split; [exact Hc|]. simpl. lia.
  - destruct Hc as (sc & tc & up & left & diag & Hsc & Htc & Hup & Hleft & Hdiag & Hc).
    rewrite py_min3_pref in Hc. eexists. split; [exact Hc|]. cbn [fst].
    destruct (IH (x' + S y')%nat ltac:(lia) x' (S y') ltac:(lia) ltac:(lia) ltac:(lia))
      as (c1 & Hc1 & Hn1).
    destruct (IH (S x' + y')%nat ltac:(lia) (S x') y' ltac:(lia) ltac:(lia) ltac:(lia))
      as (c2 & Hc2 & Hn2).
    destruct (IH (x' + y')%nat ltac:(lia) x' y' ltac:(lia) ltac:(lia) ltac:(lia))
      as (c3 & Hc3 & Hn3).
    assert (c1 = up) as -> by congruence. assert (c2 = left) as -> by congruence.
    assert (c3 = diag) as -> by congruence.
    unfold cost_of. destruct (N.eqb sc tc); lia.
Qed.

Lemma diagonal_cell s d :
  table_inv s s all_cells d ->
  forall i, (i <= length s)%nat -> mget d i i = Some (0, ((i - 1)%nat, (i - 1)%nat)).
Proof.
  intros Hd. pose proof Hd as [_ Hok]. induction i as [|i IH]; intros Hi.
  - exact (Hok 0%nat 0%nat Hi Hi I).
  - pose proof (Hok (S i) (S i) Hi Hi I) as Hc. simpl in Hc.
    destruct Hc as (sc & tc & up & left & diag & Hsc & Htc & Hup & Hleft & Hdiag & Hc).
    rewrite py_min3_pref in Hc. rewrite Hc.
    rewrite IH in Hdiag by lia. injection Hdiag as <-.
    assert (tc = sc) as -> by congruence.
    destruct (cell_nonneg s s d Hd _ i (S i) (le_n _) ltac:(lia) ltac:(lia))
      as (c1 & Hc1 & Hn1).
    destruct (cell_nonneg s s d Hd _ (S i) i (le_n _) ltac:(lia) ltac:(lia))
      as (c2 & Hc2 & Hn2).
    assert (c1 = up) as -> by congruence. assert (c2 = left) as -> by congruence.
    unfold cost_of. rewrite N.eqb_refl. cbn [fst].
    replace (Z.min (0 + 0) (Z.min (up.1 + 1) (left.1 + 1))) with 0 by lia.
    rewrite decide_True by done. do 3 f_equal; lia.
Qed.

Lemma walk_diagonal s d :
  table_inv s s all_cells d ->
  forall i k acc, (i <= k)%nat -> (i <= length s)%nat ->
  walk k d (i, i) acc = Some (map (fun j => (j, j)) (seq 1 i) ++ acc).
Proof.
  intros Hd. induction i as [|i IH]; intros k acc Hk Hi.
  - by destruct k.
  - destruct k as [|k]; [lia|]. cbn [walk]. rewrite decide_False by done.
    cbn [fst snd]. rewrite (diagonal_cell s d Hd (S i) Hi). cbn [mbind option_bind snd].
    replace (S i - 1)%nat with i by lia.
    rewrite IH by lia. rewrite seq_S, map_app, <- app_assoc. done.
Qed.

Lemma emit_diagonal s d j c :
  table_inv s s all_cells d -> (j < length s)%nat -> s !! j = Some c ->
  emit s s d (S j, S j) = Some ([c], [c]).
Proof.
  intros Hd Hj Hc. unfold emit.
  rewrite (diagonal_cell s d Hd (S j)) by lia. cbn [mbind option_bind fst snd].
  replace (S j - 1)%nat with j by lia.
  rewrite (diagonal_cell s d Hd j) by lia. cbn [mbind option_bind fst snd].
  rewrite decide_False by (intros [=]; lia).
  rewrite decide_False by (intros [=]; lia).
  rewrite decide_False by done.
  rewrite Hc. done.
Qed.

Lemma emit_all_diagonal s d :
  table_inv s s all_cells d ->
  forall i l1 l2, (i <= length s)%nat ->
  emit_all s s d (map (fun j => (j, j)) (seq 1 i)) l1 l2 =
    Some (l1 ++ map (fun c => [c]) (take i s), l2 ++ map (fun c => [c]) (take i s)).
Proof.
  intros Hd. induction i as [|i IH]; intros l1 l2 Hi.
  - cbn. by rewrite !app_nil_r.
  - rewrite seq_S, map_app, emit_all_app, IH by lia. cbn [mbind option_bind fst snd].
    destruct (lookup_lt_is_Some_2 s i ltac:(lia)) as [c Hc].
    cbn [map emit_all Nat.add]. rewrite (emit_diagonal s d i c Hd ltac:(lia) Hc).
    cbn [mbind option_bind fst snd].
    rewrite (take_S_r s i c Hc), map_app, !app_assoc. done.
Qed.

Lemma concat_singletons (x : str) : concat (map (fun c => [c]) x) = x.
Proof. induction x as [|c x IH]; [done|]. cbn. by rewrite IH. Qed.

Lemma replace_offon_no_marker x : Forall not_marker x -> replace_offon x = x.
Proof.
  induction 1 as [|a x [_ Ha] Hx IH]; [done|].
  destruct x as [|b x]; [done|].
  change (replace_offon (a :: b :: x)) with
    (if N.eqb a DIFFOFF && N.eqb b DIFFON then replace_offon x
     else a :: replace_offon (b :: x)).
  rewrite (proj2 (N.eqb_neq a DIFFOFF) Ha). cbn [andb]. by rewrite IH.
Qed.

(** X21. Two identical strings come back from [linediff] with no marker
    at all: both results are the sanitized input (the input itself when it
    is sanitized), so nothing of the line is highlighted. *)
Theorem linediff_identical (s : str) :
  linediff s s = Some (sane s, sane s) /\
  (sanitized s -> linediff s s = Some (s, s)).
Proof.
  assert (H : linediff s s = Some (sane s, sane s)).
  { unfold linediff.
    assert (Hs0 : (if decide (len s = 0) then s else sane_each s) = sane s).
    { destruct (decide (len s = 0)); [|apply sane_each_sane].
      destruct s; [done|]. by unfold len in *. }
    rewrite Hs0.
    destruct (fill_table_ok (sane s) (sane s)) as (d & -> & Hd).
    cbn [mbind option_bind].
    rewrite (walk_diagonal (sane s) d Hd) by lia. cbn [mbind option_bind].
    rewrite app_nil_r, (emit_all_diagonal (sane s) d Hd) by lia.
    cbn [mbind option_bind fst snd app].
    rewrite firstn_all, concat_singletons.
    by rewrite (replace_offon_no_marker _ (sane_not_marker s)). }
  split; [exact H|]. intros Hs. by rewrite (sane_sanitized s Hs) in H.
Qed.

(** ** The shape of the markers *)

Lemma emit_piece s t d coord p :
  Forall not_marker s -> Forall not_marker t ->
  emit s t d coord = Some p -> piece p.1 /\ piece p.2.
Proof.
  intros Hs Ht. unfold emit. destruct coord as [cx cy].
  destruct (mget d cx cy) as [[cv [fx fy]]|]; [|done]. cbn [mbind option_bind fst snd].
  destruct (mget d fx fy) as [[fv ?]|]; [|done]. cbn [mbind option_bind fst snd].
  assert (Hsc : forall c, s !! fx = Some c -> not_marker c).
  { intros c Hc. eapply Forall_lookup_1 in Hs; eauto. }
  assert (Htc : forall c, t !! fy = Some c -> not_marker c).
  { intros c Hc. eapply Forall_lookup_1 in Ht; eauto. }
  repeat case_decide;
    destruct (s !! fx) as [sc|]; destruct (t !! fy) as [tc|];
    cbn [mbind option_bind]; intros [= <-]; cbn [fst snd]; unfold piece;
    split; eauto 6.
Qed.

Lemma emit_all_pieces s t d l :
  Forall not_marker s -> Forall not_marker t ->
  forall l1 l2 r, emit_all s t d l l1 l2 = Some r ->
  Forall piece l1 -> Forall piece l2 -> Forall piece r.1 /\ Forall piece r.2.
Proof.
  intros Hs Ht. induction l as [|c l IH]; intros l1 l2 r.
  - cbn. by intros [= <-].
  - cbn [emit_all]. destruct (emit s t d c) as [p|] eqn:Hp; [|done].
    cbn [mbind option_bind]. intros Hr H1 H2.
    destruct (emit_piece s t d c p Hs Ht Hp) as [Hp1 Hp2].
    apply (IH _ _ _ Hr); (apply Forall_app_2; [assumption|]);
      (apply Forall_cons_2; [assumption|apply Forall_nil_2]).
Qed.

Lemma marker_run_after_off x :
  marker_run false AfterOff x = marker_run false Outside x.
Proof. by destruct x. Qed.

Lemma marker_step_char merged q c :
  not_marker c ->
  marker_step merged q c =
  Some match q with Outside | AfterOff => Outside | AfterOn | Inside => Inside end.
Proof.
  intros [H1 H2]. unfold marker_step.
  rewrite (proj2 (N.eqb_neq _ _) H1), (proj2 (N.eqb_neq _ _) H2). by destruct q.
Qed.

Lemma marker_run_piece p x :
  piece p -> marker_run false Outside (p ++ x) = marker_run false Outside x.
Proof.
  intros [->|(c & Hc & [->| ->])]; [done| |].
  - cbn [app marker_run]. by rewrite marker_step_char.
  - cbn [app marker_run]. change (marker_step false Outside DIFFON) with (Some AfterOn).
    cbv iota. rewrite marker_step_char by done.
    change (marker_step false Inside DIFFOFF) with (Some AfterOff). cbv iota.
    apply marker_run_after_off.
Qed.

Lemma marker_run_pieces l :
  Forall piece l -> marker_run false Outside (concat l) = true.
Proof.
  induction 1 as [|p l Hp _ IH]; [done|]. cbn [concat]. by rewrite marker_run_piece.
Qed.

Lemma replace_offon_cons a x :
  a <> DIFFOFF -> replace_offon (a :: x) = a :: replace_offon x.
Proof.
  intros Ha. destruct x as [|b x]; [done|].
  change (replace_offon (a :: b :: x)) with
    (if N.eqb a DIFFOFF && N.eqb b DIFFON then replace_offon x
     else a :: replace_offon (b :: x)).
  by rewrite (proj2 (N.eqb_neq _ _) Ha).
Qed.

Lemma replace_offon_off b x :
  b <> DIFFON -> replace_offon (DIFFOFF :: b :: x) = DIFFOFF :: replace_offon (b :: x).
Proof.
  intros Hb.
  change (replace_offon (DIFFOFF :: b :: x)) with
    (if N.eqb DIFFOFF DIFFOFF && N.eqb b DIFFON then replace_offon x
     else DIFFOFF :: replace_offon (b :: x)).
  by rewrite (proj2 (N.eqb_neq _ _) Hb), andb_false_r.
Qed.

Lemma replace_offon_off_on x :
  replace_offon (DIFFOFF :: DIFFON :: x) = replace_offon x.
Proof. done. Qed.

(** The three cases of a character. *)
Lemma char_cases (c : char) : c = DIFFON \/ c = DIFFOFF \/ not_marker c.
Proof.
  unfold not_marker. destruct (decide (c = DIFFON)); [by left|].
  destruct (decide (c = DIFFOFF)); [by right; left|]. by right; right.
Qed.

Lemma replace_offon_merges n : forall x, (length x <= n)%nat ->
  (marker_run false Outside x = true -> marker_run true Outside (replace_offon x) = true) /\
  (marker_run false Outside x = true -> head x <> Some DIFFON ->
     marker_run true AfterOff (replace_offon x) = true) /\
  (marker_run false AfterOn x = true ->
     marker_run true Inside (replace_offon x) = true /\
     marker_run true AfterOn (replace_offon x) = true) /\
  (marker_run false Inside x = true -> marker_run true Inside (replace_offon x) = true).
Proof.
  induction n as [|n IH]; intros x Hn.
  { destruct x; [|simpl in Hn; lia]. repeat split; done. }
  destruct x as [|a rest]; [repeat split; done|].
  cbn [length] in Hn.
  destruct (IH rest ltac:(lia)) as (IHa & IHb & IHc & IHd).
  destruct (char_cases a) as [->|[->|Ha]].
  - (* the start of a run *)
    rewrite replace_offon_cons by done.
    split; [|split; [|split]]; try done.
    intros H. cbn [marker_run] in *.
    change (marker_step false Outside DIFFON) with (Some AfterOn) in H.
    change (marker_step true Outside DIFFON) with (Some AfterOn).
    cbv iota in *. by apply IHc.
  - (* the end of a run *)
    split; [done|]. split; [done|]. split; [done|].
    intros H. cbn [marker_run] in H.
    change (marker_step false Inside DIFFOFF) with (Some AfterOff) in H. cbv iota in H.
    rewrite marker_run_after_off in H.
    destruct rest as [|b rest']; [done|].
    destruct (decide (b = DIFFON)) as [->|Hb].
    + rewrite replace_offon_off_on. cbn [marker_run] in H.
      change (marker_step false Outside DIFFON) with (Some AfterOn) in H. cbv iota in H.
      cbn [length] in Hn. destruct (IH rest' ltac:(lia)) as (_ & _ & Hc' & _).
      by apply Hc'.
    + rewrite replace_offon_off by done. cbn [marker_run].
      change (marker_step true Inside DIFFOFF) with (Some AfterOff). cbv iota.
      apply IHb; [done|]. cbn. by intros [= ->].
  - (* a character *)
    rewrite replace_offon_cons by apply Ha. cbn [marker_run].
    rewrite !marker_step_char by done.
    split; [|split; [|split]]; auto.
Qed.

(** X22. The markers in the two strings [linediff] returns are well
    formed, for every two inputs: they come in pairs [DIFFON ... DIFFOFF]
    that are not nested, each pair is around at least one character, and
    no pair starts right after the end of another (adjacent highlighted
    characters are merged into one run).  [convert] therefore opens and
    closes its tags in turn. *)
Theorem linediff_well_marked (s t : str) :
  exists s' t', linediff s t = Some (s', t') /\ well_marked s' /\ well_marked t'.
Proof.
  destruct (linediff_sane s t) as (s' & t' & H & _).
  exists s', t'. split; [done|].
  unfold linediff in H.
  assert (Hs0 : (if decide (len s = 0) then s else sane_each s) = sane s).
  { destruct (decide (len s = 0)); [|apply sane_each_sane].
    destruct s; [done|]. by unfold len in *. }
  assert (Ht0 : (if decide (len t = 0) then t else sane_each t) = sane t).
  { destruct (decide (len t = 0)); [|apply sane_each_sane].
    destruct t; [done|]. by unfold len in *. }
  rewrite Hs0, Ht0 in H.
  destruct (fill_table (sane s) (sane t)) as [d|]; [|done].
  cbn [mbind option_bind] in H.
  destruct (walk _ d _ []) as [l|]; [|done]. cbn [mbind option_bind] in H.
  destruct (emit_all (sane s) (sane t) d l [] []) as [r|] eqn:Hr; [|done].
  cbn [mbind option_bind] in H. injection H as <- <-.
  destruct (emit_all_pieces _ _ d l (sane_not_marker s) (sane_not_marker t) [] [] r Hr)
    as [H1 H2]; [constructor|constructor|].
  split; unfold well_marked.
  - apply (replace_offon_merges _ _ (le_n _)). by apply marker_run_pieces.
  - apply (replace_offon_merges _ _ (le_n _)). by apply marker_run_pieces.
Qed.

(** ** What the character count counts *)

Lemma total_len_snoc l s : total_len (l ++ [s]) = total_len l + len s.
Proof. unfold total_len. induction l as [|a l IH]; cbn; lia. Qed.

Section Accounting.
Context {E : Env} {cfg : Config}.

Ltac side_acc :=
  unfold accounted in *; intros;
  repeat match goal with
    | H : _ /\ _ |- _ => destruct H
    | H : exists _, _ |- _ => destruct H
    end;
  state_simpl;
  first [ done | congruence | lia | (eexists; split; eassumption) | idtac ].

Lemma limited_print_func_acc k l0 s force :
  preserves (accounted k l0) (limited_print_func s force).
Proof.
  intros st (new & Ho & Hc). rewrite limited_print_func_run. cbv zeta.
  assert (H : accounted k l0 (set_char_count (char_count st + len s)
                             (set_out (out st ++ [s]) st))).
  { exists (new ++ [s]). state_simpl. rewrite Ho, <- app_assoc, total_len_snoc.
    split; [done|lia]. }
  by destruct (negb force && _).
Qed.

Ltac call_acc := solve [apply limited_print_func_acc].

Lemma call_print_acc k l0 p s force : preserves (accounted k l0) (call_print p s force).
Proof.
  unfold preserves, call_print, recording_print_func.
  destruct p as [[|f]|]; [apply limited_print_func_acc| |];
    vcg (accounted k l0) side_acc no_call.
Qed.

Lemma spl_print_acc k l0 s force : preserves (accounted k l0) (spl_print s force).
Proof.
  unfold preserves, spl_print.
  vcg (accounted k l0) side_acc ltac:(solve [apply call_print_acc]).
Qed.

Lemma spl_print_exit_acc k l0 : preserves (accounted k l0) spl_print_exit.
Proof.
  unfold preserves, spl_print_exit, output_footer.
  vcg (accounted k l0) side_acc ltac:(solve [apply call_print_acc]).
Qed.

Lemma spl_print_enter_acc k l0 filename rp :
  preserves (accounted k l0) (spl_print_enter filename rp).
Proof.
  unfold preserves, spl_print_enter, output_header. destruct rp as [[? ?] ?].
  vcg (accounted k l0) side_acc ltac:(solve [apply call_print_acc]).
Qed.

Lemma row_was_output_acc k l0 : preserves (accounted k l0) row_was_output.
Proof.
  unfold preserves, row_was_output.
  vcg (accounted k l0) side_acc
    ltac:(solve [apply spl_print_acc | apply spl_print_exit_acc | apply spl_print_enter_acc]).
Qed.

Lemma output_line_acc k l0 s1 s2 : preserves (accounted k l0) (output_line s1 s2).
Proof.
  unfold preserves, output_line, output_side.
  vcg (accounted k l0) side_acc
    ltac:(solve [apply spl_print_acc | apply row_was_output_acc]).
Qed.

Lemma empty_buffer_acc k l0 : preserves (accounted k l0) empty_buffer.
Proof.
  unfold preserves, empty_buffer.
  vcg (accounted k l0) side_acc ltac:(solve [apply output_line_acc]).
Qed.

Lemma scan_line_acc k l0 l : preserves (accounted k l0) (scan_line l).
Proof.
  unfold preserves, scan_line, output_hunk.
  vcg (accounted k l0) side_acc
    ltac:(solve [apply empty_buffer_acc | apply spl_print_acc | apply row_was_output_acc]).
Qed.

Lemma output_unified_diff_table_acc k l0 ud hil :
  preserves (accounted k l0) (output_unified_diff_table ud hil).
Proof.
  unfold preserves, output_unified_diff_table, scan.
  vcg (accounted k l0) side_acc
    ltac:(solve [apply empty_buffer_acc | apply spl_print_acc | apply scan_line_acc]).
Qed.

Lemma output_unified_diff_acc k l0 css_url directory ud hil :
  preserves (accounted k l0) (output_unified_diff css_url directory ud hil).
Proof.
  unfold preserves, output_unified_diff, new_unified_diff.
  vcg (accounted k l0) side_acc
    ltac:(solve [ apply output_unified_diff_table_acc | apply spl_print_exit_acc
                | apply limited_print_func_acc ]).
Qed.

Lemma output_difference_acc k l0 difference :
  forall css_url directory parents,
  preserves (accounted k l0) (output_difference difference css_url directory parents).
Proof.
  induction difference as [s1 s2 cs ud hil ds IH] using Difference_nested_ind.
  intros css_url directory parents.
  assert (IH' : forall x, x ∈ ds ->
            preserves (accounted k l0) (output_difference x css_url directory (parents ++ [s1]))).
  { intros x Hx. apply list_elem_of_In in Hx.
    apply (proj1 (List.Forall_forall _ _) IH x Hx). }
  clear IH. unfold preserves. cbn [output_difference].
  vcg (accounted k l0) side_acc
    ltac:(solve [ apply limited_print_func_acc | by apply IH'
                | apply output_unified_diff_acc ]).
Qed.

Lemma total_len_concat l : len (concat l) = total_len l.
Proof.
  unfold total_len, len. induction l as [|s l IH]; [done|].
  cbn [concat foldr]. rewrite length_app. lia.
Qed.

Lemma total_len_printed l : len (printed l) = total_len l + Z.of_nat (length l).
Proof.
  unfold printed, total_len, len. induction l as [|s l IH]; [done|].
  cbn [map concat foldr length]. rewrite !length_app. cbn [length]. lia.
Qed.

Lemma report_acc (m : M unit) st :
  preserves (accounted 0 (out st)) m ->
  exists new, out (m (set_char_count 0 st)).2 = out st ++ new /\
    char_count (m (set_char_count 0 st)).2 = total_len new.
Proof.
  intros H.
  assert (H0 : accounted 0 (out st) (set_char_count 0 st)).
  { exists []. state_simpl. by rewrite app_nil_r. }
  specialize (H _ H0). by destruct (m (set_char_count 0 st)) as [[?|?] s1].
Qed.

(** X4. The count the report limit is checked against is the size of
    the texts handed to the print function of the report since the call
    began, and of nothing else: when [output_html] or
    [output_html_directory] ends, with or without an exception, the report
    is what it was and then the texts [new] of the call, and the character
    count is the sum of their sizes; what went to child pages is not in
    it.  For [output_html_directory], whose print function is the [write]
    of [index.html], this is the number of characters written to the page.
    For [output_html] with its default [print], every call writes a newline
    after the text, which is not counted: the characters written are the
    count and one more for each call. *)
Theorem report_size_counted (difference : Difference) (css_url jquery_url : option str)
    (directory : str) (st : state) :
  let r1 := output_html difference css_url st in
  let r2 := output_html_directory directory difference css_url jquery_url st in
  (exists new, out r1.2 = out st ++ new /\
     char_count r1.2 = total_len new /\
     len (printed new) = char_count r1.2 + Z.of_nat (length new)) /\
  (exists new, out r2.2 = out st ++ new /\
     char_count r2.2 = total_len new /\
     len (concat new) = char_count r2.2).
Proof.
  cbv zeta. split.
  - unfold output_html. rewrite bind_run. cbn [modify].
    match goal with |- context [(?m ≫= ?f) (set_char_count 0 st)] =>
      destruct (report_acc (m ≫= f) st) as (new & Ho & Hc)
    end.
    { unfold preserves, output_header, output_footer.
      vcg (accounted 0 (out st)) side_acc
        ltac:(solve [apply call_print_acc | apply output_difference_acc
                    | apply limited_print_func_acc]). }
    exists new. split; [exact Ho|]. split; [exact Hc|].
    rewrite total_len_printed, Hc. reflexivity.
  - unfold output_html_directory. rewrite bind_run. cbn [modify].
    match goal with |- context [(?m ≫= ?f) (set_char_count 0 st)] =>
      destruct (report_acc (m ≫= f) st) as (new & Ho & Hc)
    end.
    { unfold preserves, output_header, output_footer.
      vcg (accounted 0 (out st)) side_acc
        ltac:(solve [apply call_print_acc | apply output_difference_acc
                    | apply limited_print_func_acc]). }
    exists new. split; [exact Ho|]. split; [exact Hc|].
    rewrite total_len_concat, Hc. reflexivity.
Qed.

End Accounting.

(** ** Numbers written and read back *)

Section Digits.
Context {E : Env} {cfg : Config}.
Hypothesis Hdigits : ascii_digits E.

Lemma digit_value_ascii c :
  (c < 128)%N -> digit_value c = ascii_digit_value c.
Proof. apply Hdigits. Qed.

Ltac digit_step :=
  unfold digits_of; cbn [DecimalString.NilEmpty.string_of_uint]; unfold lit;
  cbn [list_ascii_of_string map fold_left];
  match goal with |- context [N_of_ascii ?a] =>
    let v := eval vm_compute in (N_of_ascii a) in change (N_of_ascii a) with v
  end;
  rewrite digit_value_ascii by reflexivity;
  match goal with |- context [ascii_digit_value ?c] =>
    let v := eval vm_compute in (ascii_digit_value c) in change (ascii_digit_value c) with v
  end;
  cbn [default from_option id].

Lemma int_of_digits_acc d : forall a,
  fold_left (fun acc c => acc * 10 + Z.of_N (default 0%N (digit_value c)))
            (digits_of d) (Z.pos a)
  = Z.pos (Pos.of_uint_acc d a).
Proof.
  induction d as [|d IH|d IH|d IH|d IH|d IH|d IH|d IH|d IH|d IH|d IH]; intros a;
    [done|..]; digit_step; cbn [Pos.of_uint_acc]; rewrite <- IH; f_equal; lia.
Qed.

Lemma int_of_digits_uint d :
  int_of_digits (digits_of d) = Z.of_N (Pos.of_uint d).
Proof.
  unfold int_of_digits.
  induction d as [|d IH|d IH|d IH|d IH|d IH|d IH|d IH|d IH|d IH|d IH];
    [done|..]; digit_step; cbn [Pos.of_uint Z.of_N];
    first [exact IH | apply (int_of_digits_acc d)].
Qed.

Lemma digits_of_digits d : Forall (fun c => is_digit c = true) (digits_of d).
Proof.
  induction d as [|d IH|d IH|d IH|d IH|d IH|d IH|d IH|d IH|d IH|d IH];
    [constructor|..];
    (apply Forall_cons_2; [|exact IH]); unfold is_digit;
    rewrite digit_value_ascii by reflexivity; reflexivity.
Qed.

Lemma digits_of_nonnil d : d <> Decimal.Nil -> digits_of d <> [].
Proof. by destruct d. Qed.

Lemma dec_digits n :
  0 <= n ->
  exists d, d <> Decimal.Nil /\ dec n = digits_of d /\ Z.of_N (Pos.of_uint d) = n.
Proof.
  intros Hn. destruct n as [|p|p]; [| |lia].
  - by exists (Decimal.D0 Decimal.Nil).
  - exists (Pos.to_uint p). split; [apply DecimalPos.Unsigned.to_uint_nonnil|]. split.
    + unfold dec, digits_of. cbn [Z.to_int DecimalString.NilZero.string_of_int].
      pose proof (DecimalPos.Unsigned.to_uint_nonnil p). by destruct (Pos.to_uint p).
    + by rewrite DecimalPos.Unsigned.of_to.
Qed.

Lemma int_of_digits_dec n : 0 <= n -> int_of_digits (dec n) = n.
Proof.
  intros Hn. destruct (dec_digits n Hn) as (d & _ & -> & <-). apply int_of_digits_uint.
Qed.

Lemma span_digits_app ds r :
  Forall (fun c => is_digit c = true) ds ->
  match r with c :: _ => is_digit c = false | [] => True end ->
  span_digits (ds ++ r) = (ds, r).
Proof.
  intros Hds Hr. induction Hds as [|c ds Hc _ IH].
  - destruct r as [|c r]; [done|]. cbn. by rewrite Hr.
  - cbn [app span_digits]. by rewrite Hc, IH.
Qed.

Lemma span_digits_dec n r :
  0 <= n ->
  match r with c :: _ => is_digit c = false | [] => True end ->
  span_digits (dec n ++ r) = (dec n, r) /\ dec n <> [].
Proof.
  intros Hn Hr. destruct (dec_digits n Hn) as (d & Hd & -> & _).
  split; [|by apply digits_of_nonnil].
  apply span_digits_app; [apply digits_of_digits|done].
Qed.

Lemma not_digit c :
  (c < 48)%N -> is_digit c = false.
Proof.
  intros Hc. unfold is_digit. rewrite digit_value_ascii by lia.
  unfold ascii_digit_value. by rewrite (proj2 (N.leb_gt _ _) Hc).
Qed.

Lemma match_lines_removed_placeholder n :
  0 <= n -> match_lines_removed (lines_removed_placeholder n) = Some n.
Proof.
  intros Hn. unfold match_lines_removed, lines_removed_placeholder, strip_prefix.
  change (starts_with (lit "[ ") (lit "[ " ++ dec n ++ lit " lines removed ]")) with true.
  cbv iota. cbn [mbind option_bind].
  change (drop (length (lit "[ ")) (lit "[ " ++ dec n ++ lit " lines removed ]"))
    with (dec n ++ lit " lines removed ]").
  destruct (span_digits_dec n (lit " lines removed ]") Hn) as [-> Hne].
  { by apply not_digit. }
  rewrite bool_decide_false by done. rewrite bool_decide_true by done.
  cbn [orb]. by rewrite int_of_digits_dec.
Qed.

(** X18. The count of a placeholder is read back as it was written: for
    [n >= 0], the text [[ n lines removed ]] matches the pattern of the
    presenter with the count [n], the line number of its side advances by
    [n], and a [+] or [-] line that carries it is taken for [n] lines. *)
Theorem placeholder_counted (n : Z) :
  0 <= n ->
  match_lines_removed (lines_removed_placeholder n) = Some n /\
  line_increment (Some (lines_removed_placeholder n)) = n /\
  match_signed_lines_removed (lit "+") (lit "+" ++ lines_removed_placeholder n) = Some n /\
  match_signed_lines_removed (lit "-") (lit "-" ++ lines_removed_placeholder n) = Some n.
Proof.
  intros Hn. pose proof (match_lines_removed_placeholder n Hn) as H.
  split; [exact H|]. split; [|split].
  - unfold line_increment. change (truthy (Some (lines_removed_placeholder n))) with true.
    cbv iota. cbn [default from_option id]. by rewrite H.
  - exact H.
  - exact H.
Qed.

Lemma hunk_field_dec n : 0 <= n -> hunk_field (dec n) = n.
Proof.
  intros Hn. unfold hunk_field.
  destruct (span_digits_dec n [] Hn I) as [_ Hne].
  rewrite bool_decide_false by done. by apply int_of_digits_dec.
Qed.

(** The text of an optional size, and its value. *)
Lemma match_hunk_header a b c d :
  0 <= a -> 0 <= default 0 b -> 0 <= c -> 0 <= default 0 d ->
  match_hunk (hunk_header a b c d)
  = Some (dec a, from_option dec [] b, dec c, from_option dec [] d).
Proof.
  intros Ha Hb Hc Hd. unfold match_hunk, hunk_header, strip_prefix.
  match goal with |- context [starts_with (lit "@@ -") (lit "@@ -" ++ ?r)] =>
    change (starts_with (lit "@@ -") (lit "@@ -" ++ r)) with true;
    change (drop (length (lit "@@ -")) (lit "@@ -" ++ r)) with r
  end.
  cbv iota. cbn [mbind option_bind].
  assert (Hsp : forall n r, 0 <= n ->
            match r with c :: _ => (c < 48)%N | [] => True end ->
            span_digits (dec n ++ r) = (dec n, r) /\ bool_decide (dec n = []) = false).
  { intros n r Hn Hr. destruct (span_digits_dec n r Hn) as [H1 H2].
    - destruct r; [done|]. by apply not_digit.
    - split; [done|]. by apply bool_decide_false. }
  assert (Hsp0 : forall r, match r with c :: _ => (c < 48)%N | [] => True end ->
            span_digits r = ([], r)).
  { intros r Hr. apply (span_digits_app [] r); [constructor|].
    destruct r; [done|]. by apply not_digit. }
  destruct b as [b|], d as [d|]; cbn [default from_option id] in *.
  - destruct (Hsp a ((lit "," ++ dec b) ++ lit " +" ++ dec c ++ (lit "," ++ dec d) ++ lit " @@")
                Ha) as [-> ->]; [done|].
    change (starts_with (lit ",") ((lit "," ++ dec b) ++ ?r)) with true. cbv iota.
    change (drop 1 ((lit "," ++ dec b) ++ ?r)) with (dec b ++ r).
    destruct (Hsp b (lit " +" ++ dec c ++ (lit "," ++ dec d) ++ lit " @@") Hb) as [-> _];
      [done|].
    change (starts_with (lit " +") (lit " +" ++ ?r)) with true. cbv iota.
    cbn [mbind option_bind].
    change (drop (length (lit " +")) (lit " +" ++ ?r)) with r.
    destruct (Hsp c ((lit "," ++ dec d) ++ lit " @@") Hc) as [-> ->]; [done|].
    change (starts_with (lit ",") ((lit "," ++ dec d) ++ ?r)) with true. cbv iota.
    change (drop 1 ((lit "," ++ dec d) ++ ?r)) with (dec d ++ r).
    by destruct (Hsp d (lit " @@") Hd) as [-> _].
  - destruct (Hsp a ((lit "," ++ dec b) ++ lit " +" ++ dec c ++ [] ++ lit " @@")
                Ha) as [-> ->]; [done|].
    change (starts_with (lit ",") ((lit "," ++ dec b) ++ ?r)) with true. cbv iota.
    change (drop 1 ((lit "," ++ dec b) ++ ?r)) with (dec b ++ r).
    destruct (Hsp b (lit " +" ++ dec c ++ [] ++ lit " @@") Hb) as [-> _]; [done|].
    change (starts_with (lit " +") (lit " +" ++ ?r)) with true. cbv iota.
    cbn [mbind option_bind].
    change (drop (length (lit " +")) (lit " +" ++ ?r)) with r.
    destruct (Hsp c ([] ++ lit " @@") Hc) as [-> ->]; [done|].
    change (starts_with (lit ",") ([] ++ lit " @@")) with false. cbv iota.
    by rewrite (Hsp0 ([] ++ lit " @@")).
  - destruct (Hsp a ([] ++ lit " +" ++ dec c ++ (lit "," ++ dec d) ++ lit " @@")
                Ha) as [-> ->]; [done|].
    change (starts_with (lit ",") ([] ++ lit " +" ++ ?r)) with false. cbv iota.
    rewrite (Hsp0 ([] ++ lit " +" ++ dec c ++ (lit "," ++ dec d) ++ lit " @@")) by done.
    change (starts_with (lit " +") ([] ++ lit " +" ++ ?r)) with true. cbv iota.
    cbn [mbind option_bind].
    change (drop (length (lit " +")) ([] ++ lit " +" ++ ?r)) with r.
    destruct (Hsp c ((lit "," ++ dec d) ++ lit " @@") Hc) as [-> ->]; [done|].
    change (starts_with (lit ",") ((lit "," ++ dec d) ++ ?r)) with true. cbv iota.
    change (drop 1 ((lit "," ++ dec d) ++ ?r)) with (dec d ++ r).
    by destruct (Hsp d (lit " @@") Hd) as [-> _].
  - destruct (Hsp a ([] ++ lit " +" ++ dec c ++ [] ++ lit " @@") Ha) as [-> ->]; [done|].
    change (starts_with (lit ",") ([] ++ lit " +" ++ ?r)) with false. cbv iota.
    rewrite (Hsp0 ([] ++ lit " +" ++ dec c ++ [] ++ lit " @@")) by done.
    change (starts_with (lit " +") ([] ++ lit " +" ++ ?r)) with true. cbv iota.
    cbn [mbind option_bind].
    change (drop (length (lit " +")) ([] ++ lit " +" ++ ?r)) with r.
    destruct (Hsp c ([] ++ lit " @@") Hc) as [-> ->]; [done|].
    change (starts_with (lit ",") ([] ++ lit " @@")) with false. cbv iota.
    by rewrite (Hsp0 ([] ++ lit " @@")).
Qed.

Lemma output_hunk_hunk_at a b c d : preserves (hunk_at a b c d) output_hunk.
Proof.
  unfold preserves.
  vcg (hunk_at a b c d) ltac:(unfold hunk_at in *; side_basic) no_call.
Qed.

(** X12. A hunk header is read as it is written: for offsets and sizes
    that are not negative, the header [@@ -a,b +c,d @@] matches the pattern
    of the scanner with the four numbers as its groups, a size that is left
    out giving an empty group; and when the scanner completes on it, the
    hunk offsets are [a] and [c], the hunk sizes [b] and [d] (1 for a size
    left out), and the line numbers start at [a] and [c]. *)
Theorem hunk_header_read (a c : Z) (b d : option Z) (st st' : state) :
  0 <= a -> 0 <= default 0 b -> 0 <= c -> 0 <= default 0 d ->
  match_hunk (hunk_header a b c d)
    = Some (dec a, from_option dec [] b, dec c, from_option dec [] d) /\
  (scan_line (hunk_header a b c d) st = (Ok tt, st') ->
   hunk_at a (default 1 b) c (default 1 d) st').
Proof.
  intros Ha Hb Hc Hd. pose proof (match_hunk_header a b c d Ha Hb Hc Hd) as Hm.
  split; [exact Hm|].
  assert (Hf : forall o, 0 <= default 0 o -> hunk_field (from_option dec [] o) = default 1 o).
  { intros [n|] Hn; [by apply hunk_field_dec|done]. }
  assert (H : triple (fun _ => True) (scan_line (hunk_header a b c d))
                (fun _ => hunk_at a (default 1 b) c (default 1 d)) (fun _ _ => True)).
  { unfold scan_line. rewrite Hm.
    change (starts_with (lit "--- ") (hunk_header a b c d)) with false.
    change (starts_with (lit "+++ ") (hunk_header a b c d)) with false. cbv iota.
    rewrite !hunk_field_dec, !Hf by done.
    eapply (triple_bind _ _ _ (fun _ _ => True)); [by apply triple_modify|]. intros _.
    eapply (triple_bind _ _ _ (fun _ _ => True)).
    { intros s _. by destruct (empty_buffer s) as [[?|?] ?]. }
    intros _.
    eapply (triple_bind _ _ _ (fun _ s => hunk_off1 s = a /\ hunk_size1 s = default 1 b /\
                                 hunk_off2 s = c /\ hunk_size2 s = default 1 d));
      [by apply triple_modify|]. intros _.
    eapply (triple_bind _ _ _ (fun _ => hunk_at a (default 1 b) c (default 1 d))).
    { apply triple_modify. intros s (H1 & H2 & H3 & H4). unfold hunk_at. state_simpl.
      by rewrite H1, H3. }
    intros _. eapply triple_conseq; [apply output_hunk_hunk_at|done..]. }
  intros Hrun. specialize (H st I). by rewrite Hrun in H.
Qed.

End Digits.

Lemma sample_env_ascii_digits : ascii_digits sample_env.
Proof. by intros c _. Qed.

Lemma placeholder_counted_witness :
  (ascii_digits sample_env /\ 0 <= 12) /\
  line_increment (E := sample_env) (Some (lines_removed_placeholder 12)) = 12.
Proof.
  assert (H : 0 <= 12) by lia.
  split; [exact (conj sample_env_ascii_digits H)|].
  exact (proj1 (proj2 (placeholder_counted (E := sample_env) sample_env_ascii_digits 12 H))).
Defined.

Lemma hunk_header_read_witness :
  let st := single_file_start in
  let st' := (scan_line (E := sample_env) (cfg := sample_config)
                (hunk_header 3 (Some 7) 5 None) st).2 in
  (ascii_digits sample_env /\ 0 <= 3 /\ 0 <= 7 /\ 0 <= 5 /\ 0 <= 0 /\
   scan_line (E := sample_env) (cfg := sample_config)
     (hunk_header 3 (Some 7) 5 None) st = (Ok tt, st')) /\
  hunk_at 3 7 5 1 st'.
Proof.
  intros st st'.
  assert (H3 : 0 <= 3) by lia. assert (H7 : 0 <= 7) by lia.
  assert (H5 : 0 <= 5) by lia. assert (H0 : 0 <= 0) by lia.
  assert (Hrun : scan_line (E := sample_env) (cfg := sample_config)
                   (hunk_header 3 (Some 7) 5 None) st = (Ok tt, st'))
    by (vm_compute; reflexivity).
  split; [exact (conj sample_env_ascii_digits (conj H3 (conj H7 (conj H5 (conj H0 Hrun)))))|].
  exact (proj2 (hunk_header_read (E := sample_env) (cfg := sample_config)
                  sample_env_ascii_digits 3 5 (Some 7) None st st' H3 H7 H5 H0) Hrun).
Defined.

(** ** The bytes the scanner has read *)

Lemma splitlines_from_line l : forall cur rest,
  one_line l ->
  splitlines_from cur (l ++ NEWLINE :: rest) = (rev cur ++ l) :: splitlines_from [] rest.
Proof.
  induction l as [|c l IH]; intros cur rest Hl.
  - cbn [app splitlines_from]. change (is_line_boundary NEWLINE) with true. cbv iota.
    rewrite app_nil_r. by destruct rest.
  - inversion Hl as [|? ? Hc Hl']; subst. cbn [app splitlines_from]. rewrite Hc.
    rewrite IH by done. cbn [rev]. by rewrite <- app_assoc.
Qed.

Lemma splitlines_unlines ls : Forall one_line ls -> splitlines (unlines ls) = ls.
Proof.
  unfold splitlines, unlines. induction 1 as [|l ls Hl _ IH]; [done|].
  cbn [map concat]. rewrite <- app_assoc. cbn [app].
  rewrite splitlines_from_line by done. cbn [rev app]. by rewrite IH.
Qed.

Lemma len_unlines_snoc ls l : len (unlines (ls ++ [l])) = len (unlines ls) + (len l + 1).
Proof.
  unfold unlines, len. rewrite map_app, concat_app, length_app. cbn [map concat].
  rewrite app_nil_r, length_app. cbn [length]. lia.
Qed.

Lemma len_unlines_take_drop ls k :
  len (unlines ls) = len (unlines (take k ls)) + len (unlines (drop k ls)).
Proof.
  rewrite <- (take_drop k ls) at 1. unfold unlines, len.
  rewrite map_app, concat_app, length_app. lia.
Qed.

Section Bytes.
Context {E : Env} {cfg : Config}.

Lemma empty_buffer_bytes b : preserves (bytes_are b) empty_buffer.
Proof.
  intros st Hst.
  pose proof (empty_buffer_hunk_frame (hunk_size1 st) (hunk_size2 st) b st
                ltac:(by repeat split)) as H.
  destruct (empty_buffer st) as [[?|?] ?]; apply H.
Qed.

Lemma spl_print_bytes b s force : preserves (bytes_are b) (spl_print s force).
Proof.
  unfold preserves. vcg (bytes_are b) ltac:(unfold bytes_are in *; side_basic) no_call.
Qed.

Lemma row_was_output_bytes b : preserves (bytes_are b) row_was_output.
Proof.
  unfold preserves. vcg (bytes_are b) ltac:(unfold bytes_are in *; side_basic) no_call.
Qed.

Lemma scan_line_bytes b l :
  triple (bytes_are b) (scan_line l)
         (fun _ => bytes_are (b + (len l + 1))) (fun _ => bytes_are (b + (len l + 1))).
Proof.
  unfold scan_line.
  eapply (triple_bind _ _ _ (fun _ => bytes_are (b + (len l + 1)))).
  { apply triple_modify. unfold bytes_are. intros st ->. by state_simpl. }
  intros _. unfold output_hunk.
  vcg (bytes_are (b + (len l + 1))) ltac:(unfold bytes_are in *; side_basic)
    ltac:(solve [apply empty_buffer_bytes | apply spl_print_bytes
                | apply row_was_output_bytes]).
Qed.

(** The scan of the lines [ls], after [k] of them: it ends with all read,
    or stops with an exception in a line. *)
Lemma for_in_scan_line_bytes ls : forall done rest,
  ls = done ++ rest ->
  triple (read_lines ls (length done)) (for_in scan_line rest)
    (fun _ => read_lines ls (length ls))
    (fun _ st => exists k, (k <= length ls)%nat /\ read_lines ls k st).
Proof.
  intros done rest. revert done. induction rest as [|l rest IH]; intros done Hls.
  - rewrite app_nil_r in Hls. subst. by intros st Hst.
  - cbn [for_in].
    eapply (triple_bind _ _ _ (fun _ => read_lines ls (length (done ++ [l])))).
    + assert (Htake : take (length (done ++ [l])) ls = take (length done) ls ++ [l]).
      { subst ls. rewrite (take_app_length done), length_app. cbn [length].
        replace (done ++ l :: rest) with ((done ++ [l]) ++ rest) by by rewrite <- app_assoc.
        replace (length done + 1)%nat with (length (done ++ [l]))
          by (rewrite length_app; done).
        by rewrite take_app_length. }
      eapply triple_conseq;
        [apply (scan_line_bytes (len (unlines (take (length done) ls))) l)|..].
      * done.
      * intros ? st Hst. unfold read_lines. by rewrite Htake, len_unlines_snoc.
      * intros ? st Hst. exists (length (done ++ [l])). split.
        -- subst ls. rewrite !length_app. cbn. lia.
        -- unfold read_lines. by rewrite Htake, len_unlines_snoc.
    + intros _. apply IH. subst ls. by rewrite <- app_assoc.
Qed.

(** X17. The scanner counts the bytes of the lines it has read: for a
    diff made of lines that each end with a newline, [splitlines] gives
    the lines back, and however the scan ends, [bytes_processed] is the
    size of the first [k] lines for some [k], so that the bytes the error
    row reports as not shown are the size of the lines left, between 0 and
    the size of the diff; a scan that completes has read them all. *)
Theorem bytes_read_by_scan (ls : list str) (st : state) :
  Forall one_line ls ->
  let r := scan (unlines ls) st in
  splitlines (unlines ls) = ls /\
  exists k, (k <= length ls)%nat /\
    bytes_processed r.2 = len (unlines (take k ls)) /\
    len (unlines ls) - bytes_processed r.2 = len (unlines (drop k ls)) /\
    0 <= len (unlines ls) - bytes_processed r.2 <= len (unlines ls) /\
    (r.1 = Ok true -> k = length ls).
Proof.
  intros Hls. cbv zeta. pose proof (splitlines_unlines ls Hls) as Hsplit.
  split; [exact Hsplit|].
  assert (H : triple (fun _ => True) (scan (unlines ls))
                (fun _ => read_lines ls (length ls))
                (fun _ s => exists k, (k <= length ls)%nat /\ read_lines ls k s)).
  { unfold scan. rewrite Hsplit.
    eapply (triple_bind _ _ _ (fun _ => read_lines ls 0)).
    { apply triple_modify. intros s _. unfold read_lines. by state_simpl. }
    intros _.
    eapply (triple_bind _ _ _ (fun _ => read_lines ls (length ls)));
      [by apply (for_in_scan_line_bytes ls [] ls)|].
    intros _.
    eapply (triple_bind _ _ _ (fun _ => read_lines ls (length ls))).
    - eapply triple_conseq; [apply empty_buffer_bytes|done|done|].
      intros e s Hs. by exists (length ls).
    - intros _. by apply triple_ret. }
  specialize (H st I).
  assert (Hk : exists k, (k <= length ls)%nat /\ read_lines ls k (scan (unlines ls) st).2 /\
                 ((scan (unlines ls) st).1 = Ok true -> k = length ls)).
  { destruct (scan (unlines ls) st) as [[b|e] s]; cbn [fst snd].
    - exists (length ls). by repeat split.
    - destruct H as (k & Hk & Hr). exists k. by repeat split. }
  destruct Hk as (k & Hk & Hr & Hok). exists k. unfold read_lines in Hr.
  split; [done|]. split; [done|].
  pose proof (len_unlines_take_drop ls k) as Hlen.
  assert (0 <= len (unlines (take k ls))) by (unfold len; lia).
  assert (0 <= len (unlines (drop k ls))) by (unfold len; lia).
  split; [lia|]. split; [lia|done].
Qed.

End Bytes.

Lemma bytes_read_by_scan_witness :
  let ls := [lit "@@ -1 +1 @@"; lit " a"] in
  Forall one_line ls /\
  bytes_processed (scan (E := sample_env) (cfg := sample_config)
                     (unlines ls) single_file_start).2 = len (unlines ls).
Proof.
  intros ls.
  assert (H : Forall one_line ls).
  { unfold one_line. apply (bool_decide_unpack _). by vm_compute. }
  split; [exact H|].
  destruct (bytes_read_by_scan (E := sample_env) (cfg := sample_config) ls
              single_file_start H) as (_ & k & _ & Hb & _ & _ & Hk).
  rewrite Hb, Hk, firstn_all; [done|]. vm_compute. reflexivity.
Defined.

(** ** No control character in what [convert] writes *)

Lemma printable_decide s : bool_decide (printable s) = true -> printable s.
Proof. apply bool_decide_eq_true_1. Qed.

Lemma printable_app a b : printable a -> printable b -> printable (a ++ b).
Proof. intros. by apply Forall_app. Qed.

Lemma printable_cons c l : (32 <= c)%N -> printable l -> printable (c :: l).
Proof. by constructor. Qed.

Lemma printable_hex_uint u : printable (lit (HexadecimalString.NilEmpty.string_of_uint u)).
Proof.
  induction u as [|u IHu|u IHu|u IHu|u IHu|u IHu|u IHu|u IHu|u IHu|u IHu|u IHu
                   |u IHu|u IHu|u IHu|u IHu|u IHu|u IHu];
    first [by apply printable_decide | apply printable_cons; [by vm_compute|exact IHu]].
Qed.

Lemma printable_hex n : printable (hex n).
Proof.
  unfold hex. destruct (N.to_hex_uint n); try apply printable_hex_uint.
  by apply printable_decide.
Qed.

Lemma printable_html_escape_char c : (32 <= c)%N -> printable (html_escape_char c).
Proof.
  intros Hc. unfold html_escape_char.
  repeat case_match; first [by apply printable_decide | by apply printable_cons; [|constructor]].
Qed.

Ltac solve_printable :=
  repeat first
    [ assumption
    | apply Forall_nil_2
    | apply printable_app
    | apply printable_hex
    | (apply Forall_replicate; by vm_compute)
    | (apply printable_decide; vm_compute; reflexivity)
    | (apply printable_cons; [by vm_compute|]) ].

Lemma convert_char_printable ponct tag c i t :
  printable tag -> printable t -> printable (convert_char ponct tag c (i, t)).2.
Proof.
  intros Htag Ht. unfold convert_char.
  assert (Hfinal : forall (i' : Z) (t' : str), printable t' ->
    printable (let '(i0, t0) :=
             if bool_decide (length (filter (fun w => w = c) WORDBREAK) = 1%nat)
             then (0, t' ++ [8203%N]) else (i', t') in
           if LINESIZE <? i0 then (0, t0 ++ [8203%N]) else (i0, t0)).2).
  { intros i' t' Ht'. destruct (bool_decide _); destruct (LINESIZE <? _); cbn [snd];
      solve_printable. }
  match goal with |- printable (let '(a, b) := ?p in _).2 =>
    assert (Hp : printable p.2); [|destruct p as [i1 t1]; by apply Hfinal] end.
  destruct (N.eqb_spec c DIFFON); [cbn [snd]; solve_printable|].
  destruct (N.eqb_spec c DIFFOFF); [cbn [snd]; solve_printable|].
  repeat (match goal with |- context [if ?b then _ else _] => destruct b eqn:? end;
          [cbn [snd]; solve_printable|]).
  cbn [snd]. apply printable_app; [done|]. unfold html_escape. cbn [map concat].
  rewrite app_nil_r. apply printable_html_escape_char.
  match goal with H : (c <? 32)%N = false |- _ => apply N.ltb_ge in H; exact H end.
Qed.

(** X23. [convert] writes no control character: for a tag name with no
    code point below 32 and every input and punctuation mode, no code point
    of the result is below 32; tabs, newlines and the other control
    characters of the input, the two markers among them, are all written
    as tags, entities or escapes. *)
Theorem convert_printable (s : str) (ponct : Z) (tag : str) :
  printable tag -> printable (convert s ponct tag).
Proof.
  intros Htag. unfold convert.
  assert (H : forall st, printable st.2 ->
            printable (fold_left (fun st c => convert_char ponct tag c st) s st).2).
  { induction s as [|c s IH]; intros st Hst; [done|]. simpl. apply IH.
    destruct st as [i t]. by apply convert_char_printable. }
  apply H. constructor.
Qed.

Lemma convert_printable_witness :
  printable (lit "del") /\
  printable (convert ([DIFFON; 9%N; 7%N] ++ lit "a b" ++ [DIFFOFF; NEWLINE]) 1 (lit "del")).
Proof.
  assert (H : printable (lit "del")) by (apply printable_decide; vm_compute; reflexivity).
  split; [exact H|].
  exact (convert_printable ([DIFFON; 9%N; 7%N] ++ lit "a b" ++ [DIFFOFF; NEWLINE]) 1
           (lit "del") H).
Defined.

(** ** The [\ No newline] line *)

Section NoNewline.
Context {E : Env} {cfg : Config}.

Lemma removelast_snoc {A} (l : list A) x : removelast (l ++ [x]) = l.
Proof. apply removelast_last. Qed.

Lemma scan_line_no_newline l st :
  starts_with (lit "\ No newline") l = true ->
  scan_line l st = (count_line l;; no_newline l) st.
Proof.
  intros Hl. unfold scan_line, count_line.
  destruct l as [|c0 l]; [done|]. pose proof Hl as Hl'.
  cbn in Hl'. apply andb_prop in Hl' as [Hc _]. apply N.eqb_eq in Hc. subst c0.
  change (starts_with (lit "--- ") (92%N :: l)) with false.
  change (starts_with (lit "+++ ") (92%N :: l)) with false.
  change (match_hunk (92%N :: l)) with (@None (str * str * str * str)).
  change (starts_with (lit "[") (92%N :: l)) with false.
  cbv iota. rewrite Hl. done.
Qed.

(** X16. A line that starts with [\ No newline] is added to the last
    line of the buffer, after a newline: to its second side when the second
    hunk counter is 0, else to its first side; nothing is written and the
    hunk counters are not touched.  With an empty buffer (the line comes
    first in its hunk, or right after a flush) the scanner raises
    [IndexError], and when the side it is added to is absent, [TypeError]. *)
Theorem no_newline_line (l : str) (st : state) :
  starts_with (lit "\ No newline") l = true ->
  let st0 := set_bytes_processed (bytes_processed st + (len l + 1)) st in
  (buf st = [] -> scan_line l st = (Raise IndexError, st0)) /\
  (forall b x y, buf st = b ++ [(x, y)] ->
     scan_line l st =
       if hunk_size2 st =? 0 then
         match y with
         | Some y' => (Ok tt, set_buf (b ++ [(x, Some (y' ++ no_newline_text l))]) st0)
         | None => (Raise TypeError, st0)
         end
       else
         match x with
         | Some x' => (Ok tt, set_buf (b ++ [(Some (x' ++ no_newline_text l), y)]) st0)
         | None => (Raise TypeError, st0)
         end).
Proof.
  intros Hl. cbv zeta. split.
  - intros Hb. rewrite scan_line_no_newline by done. unfold count_line, no_newline.
    run_m. by rewrite Hb.
  - intros b x y Hb. rewrite scan_line_no_newline by done. unfold count_line, no_newline.
    run_m. rewrite Hb, last_snoc, removelast_snoc.
    destruct (hunk_size2 st =? 0); [destruct y; reflexivity|destruct x; reflexivity].
Qed.

End NoNewline.

Lemma no_newline_line_witness :
  let l := lit "\ No newline at end of file" in
  let st := scanned ["@@ -1 +1 @@"]%string in
  (starts_with (lit "\ No newline") l = true /\ buf st = []) /\
  (scan_line (E := sample_env) (cfg := sample_config) l st).1 = Raise IndexError.
Proof.
  intros l st.
  assert (Hb : buf st = []) by (vm_compute; reflexivity).
  split; [exact (conj eq_refl Hb)|].
  rewrite (proj1 (no_newline_line (E := sample_env) (cfg := sample_config) l st eq_refl) Hb).
  reflexivity.
Defined.

(** ** A single-file report writes no page *)

Section NoPage.
Context {E : Env} {cfg : Config}.
Variable fs : list (str * child_page).

Ltac side_fs :=
  unfold single_file_with, files_are, single_file in *; side_basic;
  try (repeat split; first [done | congruence | lia]).

Lemma row_was_output_fs : preserves (single_file_with fs) row_was_output.
Proof.
  intros st [[Hf Hc] Hfs]. rewrite (row_was_output_single_file st None Hc).
  destruct (Z.leb_spec max_diff_block_lines (spl_rows st + 1)); side_fs.
Qed.

Lemma spl_print_fs s force : preserves (single_file_with fs) (spl_print s force).
Proof.
  intros st [[Hf Hc] Hfs]. rewrite spl_print_primary by done.
  rewrite limited_print_func_run. cbv zeta.
  destruct (negb force && _); side_fs.
Qed.

Lemma output_line_fs s1 s2 : preserves (single_file_with fs) (output_line s1 s2).
Proof.
  unfold preserves, output_line, output_side.
  vcg (single_file_with fs) side_fs
    ltac:(solve [apply spl_print_fs | apply row_was_output_fs]).
Qed.

Lemma empty_buffer_fs : preserves (single_file_with fs) empty_buffer.
Proof.
  unfold preserves, empty_buffer.
  vcg (single_file_with fs) side_fs ltac:(solve [apply output_line_fs]).
Qed.

Lemma scan_line_fs l : preserves (single_file_with fs) (scan_line l).
Proof.
  unfold preserves, scan_line, output_hunk.
  vcg (single_file_with fs) side_fs
    ltac:(solve [apply empty_buffer_fs | apply spl_print_fs | apply row_was_output_fs]).
Qed.

Lemma output_unified_diff_table_fs ud hil :
  preserves (single_file_with fs) (output_unified_diff_table ud hil).
Proof.
  unfold preserves, output_unified_diff_table, scan.
  vcg (single_file_with fs) side_fs
    ltac:(solve [apply empty_buffer_fs | apply spl_print_fs | apply scan_line_fs]).
Qed.

Lemma spl_print_exit_fs :
  triple (single_file_with fs) spl_print_exit (fun _ => files_are fs) (fun _ => files_are fs).
Proof.
  intros st [[Hf Hc] Hfs]. unfold spl_print_exit, spl_had_entered_child.
  rewrite !bind_run. cbn [gets]. rewrite Hc. cbn [mret M_ret negb]. done.
Qed.

Lemma limited_print_func_fs s force : preserves (files_are fs) (limited_print_func s force).
Proof.
  intros st Hst. rewrite limited_print_func_run. cbv zeta.
  destruct (negb force && _); side_fs.
Qed.

Lemma output_unified_diff_fs css_url ud hil :
  preserves (files_are fs) (output_unified_diff css_url None ud hil).
Proof.
  unfold preserves, output_unified_diff.
  eapply (triple_bind _ _ _ (fun _ => files_are fs)).
  { unfold new_unified_diff. vcg (files_are fs) side_fs no_call. }
  intros _.
  eapply (triple_bind _ _ _ (fun _ => files_are fs)).
  - eapply (triple_try_finally _ _ _ (fun _ => files_are fs) (fun _ => files_are fs)).
    + eapply (triple_try_except_else _ _ _ _ (fun _ => single_file_with fs)
                (fun _ => single_file_with fs)).
      * eapply (triple_bind _ _ _ (fun _ st => files st = fs
                                    /\ spl_print_func st = Some Primary)).
        { apply triple_modify. intros st H. by state_simpl. }
        intros _.
        eapply (triple_bind _ _ _ (fun _ => single_file_with fs)).
        { apply triple_modify. intros st [H1 H2]. by repeat split. }
        intros _.
        eapply (triple_bind _ _ _ (fun _ => single_file_with fs));
          [apply output_unified_diff_table_fs|].
        intros t. by apply triple_ret.
      * intros truncated.
        eapply (triple_bind _ _ _ (fun _ => files_are fs)); [apply spl_print_exit_fs|].
        intros _. by apply triple_ret.
      * intros e.
        eapply (triple_bind _ _ _ (fun _ => files_are fs)); [apply spl_print_exit_fs|].
        intros suppressed. destruct suppressed; [by apply triple_ret|by apply triple_raise].
    + intros a. vcg (files_are fs) side_fs no_call.
    + intros e. vcg (files_are fs) side_fs no_call.
  - intros truncated.
    vcg (files_are fs) side_fs ltac:(solve [apply limited_print_func_fs]).
Qed.

Lemma output_difference_fs difference :
  forall css_url parents,
  preserves (files_are fs) (output_difference difference css_url None parents).
Proof.
  induction difference as [s1 s2 cs ud hil ds IH] using Difference_nested_ind.
  intros css_url parents.
  assert (IH' : forall x, x ∈ ds ->
            preserves (files_are fs) (output_difference x css_url None (parents ++ [s1]))).
  { intros x Hx. apply list_elem_of_In in Hx.
    apply (proj1 (List.Forall_forall _ _) IH x Hx). }
  clear IH. unfold preserves. cbn [output_difference].
  vcg (files_are fs) side_fs
    ltac:(solve [ apply limited_print_func_fs | by apply IH'
                | apply output_unified_diff_fs ]).
Qed.

End NoPage.

Section NoPageReport.
Context {E : Env} {cfg : Config}.

(** X5. A single-file report writes to no file: whatever the
    difference tree, the limits and the state, and however it ends,
    [output_html] leaves the files of the child pages as they were; all it
    writes goes to the report. *)
Theorem single_file_writes_no_page (difference : Difference) (css_url : option str)
    (st : state) :
  files (output_html difference css_url st).2 = files st.
Proof.
  assert (H : preserves (files_are (files st)) (output_html difference css_url)).
  { unfold preserves, output_html, output_header, output_footer. cbn [call_print].
    vcg (files_are (files st)) ltac:(unfold files_are in *; side_basic)
      ltac:(solve [apply limited_print_func_fs | apply output_difference_fs]). }
  specialize (H st eq_refl).
  by destruct (output_html difference css_url st) as [[?|?] ?].
Qed.

End NoPageReport.

(** ** The rows of [output_line] *)

Section Rows.
Context {E : Env} {cfg : Config}.

Lemma spl_print_rows n o s force : preserves (row_open n o) (spl_print s force).
Proof.
  intros st ([Hf Hc] & Hn & Ho). rewrite spl_print_primary by done.
  rewrite limited_print_func_run. cbv zeta.
  assert (o ∈ out st ++ [s]) by (apply elem_of_app; by left).
  destruct (negb force && _); by repeat split.
Qed.

Lemma output_side_rows n o s line tag :
  preserves (row_open n o) (output_side s line tag).
Proof.
  unfold preserves, output_side.
  vcg (row_open n o) ltac:(unfold row_open, single_file in *; side_basic)
    ltac:(solve [apply spl_print_rows]).
Qed.

Lemma output_line_row s1 s2 st :
  exists s1' s2', output_line s1 s2 st = output_row (row_type s1 s2) s1 s2 s1' s2' st.
Proof.
  unfold output_line, output_row, row_type. cbv zeta.
  repeat match goal with
    | |- context [if ?b then _ else _] => destruct b eqn:?
    end; try (eexists _, _; reflexivity).
  destruct (truncate_line s1) as [a|] eqn:E1, (truncate_line s2) as [b|] eqn:E2;
    try (exfalso; cbn in *; congruence).
  destruct (linediff_sane a b) as (a' & b' & Hl & _). rewrite Hl.
  eexists _, _. reflexivity.
Qed.

Lemma output_line_row_closed (s1 s2 : option str) (st : state) :
  single_file st ->
  let r := output_line s1 s2 st in
  (char_count st + len (row_opening s1 s2) < max_report_size ->
     list.last (out r.2) = Some (lit "</tr>" ++ [NEWLINE]) /\
     row_opening s1 s2 ∈ out r.2 /\
     spl_rows r.2 = spl_rows st + 1) /\
  (max_report_size <= char_count st + len (row_opening s1 s2) ->
     r.1 = Raise PrintLimitReached /\
     out r.2 = out st ++ [row_opening s1 s2] /\
     spl_rows r.2 = spl_rows st).
Proof.
  intros Hsf. pose proof Hsf as [Hf Hc]. cbv zeta.
  destruct (output_line_row s1 s2 st) as (s1' & s2' & ->).
  unfold output_row. fold (row_opening s1 s2).
  rewrite bind_run, spl_print_primary by done.
  rewrite limited_print_func_run. cbv zeta. cbn [negb andb].
  destruct (Z.leb_spec max_report_size (char_count st + len (row_opening s1 s2)))
    as [Hle|Hlt].
  { split; [lia|]. intros _. by state_simpl. }
  split; [|lia]. intros _.
  set (st0 := set_char_count _ _).
  assert (Hst0 : row_open (spl_rows st) (row_opening s1 s2) st0).
  { split; [done|]. split; [done|]. subst st0. state_simpl.
    apply elem_of_app. right. by left. }
  assert (Hbody : preserves (row_open (spl_rows st) (row_opening s1 s2))
            (output_side s1' line1 (lit "del");; output_side s2' line2 (lit "ins"))).
  { eapply (triple_bind _ _ _ (fun _ => row_open (spl_rows st) (row_opening s1 s2)));
      [apply output_side_rows|]. intros _. apply output_side_rows. }
  specialize (Hbody st0 Hst0). clearbody st0.
  rewrite bind_run. unfold try_finally.
  destruct ((output_side s1' line1 (lit "del");; output_side s2' line2 (lit "ins")) st0)
    as [r0 st1].
  assert (H1 : row_open (spl_rows st) (row_opening s1 s2) st1) by by destruct r0.
  destruct H1 as ([Hf1 Hc1] & Hn1 & Ho1).
  rewrite bind_run, spl_print_primary by done.
  rewrite limited_print_func_run. cbv zeta. cbn [negb andb].
  erewrite row_was_output_single_file by (state_simpl; exact Hc1).
  state_simpl.
  assert (Ho2 : row_opening s1 s2 ∈ out st1 ++ [lit "</tr>" ++ [NEWLINE]])
    by (apply elem_of_app; by left).
  destruct (max_diff_block_lines <=? spl_rows st1 + 1); [|destruct r0];
    run_m; (split; [apply last_snoc|]); (split; [exact Ho2|lia]).
Qed.

(** X6. In single-file mode a row whose opening is written below the
    report limit is always closed and counted: however [output_line] ends
    (it may raise either limit), the last text written is [</tr>] with its
    newline, the opening is in the report and the row count is one higher.
    When the opening itself reaches the limit, [PrintLimitReached] is
    raised with only the opening written: the row is left open and is not
    counted.  The class of the row is [row_type]. *)
Theorem row_closed (s1 s2 : option str) (st : state) :
  single_file st ->
  let r := output_line s1 s2 st in
  (char_count st + len (row_opening s1 s2) < max_report_size ->
     list.last (out r.2) = Some (lit "</tr>" ++ [NEWLINE]) /\
     row_opening s1 s2 ∈ out r.2 /\
     spl_rows r.2 = spl_rows st + 1) /\
  (max_report_size <= char_count st + len (row_opening s1 s2) ->
     r.1 = Raise PrintLimitReached /\
     out r.2 = out st ++ [row_opening s1 s2] /\
     spl_rows r.2 = spl_rows st).
Proof. intros Hsf. by apply output_line_row_closed. Qed.

(** A row that completes is counted once. *)
Lemma output_line_counts n s1 s2 :
  triple (fun st => single_file st /\ spl_rows st = n) (output_line s1 s2)
         (fun _ st => single_file st /\ spl_rows st = n + 1) (fun _ _ => True).
Proof.
  intros st [Hsf Hn].
  pose proof (output_line_sf s1 s2 st Hsf) as H1.
  destruct (output_line_row_closed s1 s2 st Hsf) as [Hlt Hge].
  destruct (output_line s1 s2 st) as [[[]|e] st'] eqn:Hrun; [|done].
  split; [exact H1|].
  destruct (Z.leb_spec max_report_size (char_count st + len (row_opening s1 s2))) as [Hle|Hl].
  - by destruct (Hge Hle) as [? _].
  - destruct (Hlt Hl) as (_ & _ & Hr). cbn [snd] in Hr. lia.
Qed.

Lemma for_in_fmap {A B} (g : A -> B) (body : B -> M unit) l st :
  for_in body (map g l) st = for_in (fun x => body (g x)) l st.
Proof.
  revert st. induction l as [|x l IH]; intros st; [done|].
  cbn [map for_in]. rewrite !bind_run. destruct (body (g x) st) as [[u|e] st1]; [|done].
  apply IH.
Qed.

Lemma empty_buffer_flush st :
  empty_buffer st =
  (for_in (fun p => output_line p.1 p.2) (flush_pairs st);;
   modify (set_add_cpt 0);; modify (set_del_cpt 0);; modify (set_buf [])) st.
Proof.
  unfold empty_buffer, flush_pairs. unfold mbind, M_bind, gets. cbv beta iota zeta.
  destruct ((del_cpt st =? 0) || (add_cpt st =? 0)) eqn:Hz; [done|].
  apply orb_false_elim in Hz as [-> ->]. cbn [negb andb].
  rewrite for_in_fmap. cbn [fst snd].
  replace (if (length (omap snd (buf st)) <? length (omap fst (buf st)))%nat
           then length (omap fst (buf st)) else length (omap snd (buf st)))
    with (length (omap fst (buf st)) `max` length (omap snd (buf st)))%nat; [done|].
  destruct (Nat.ltb_spec (length (omap snd (buf st))) (length (omap fst (buf st)))); lia.
Qed.

(** The texts of a row begin with its opening. *)
Lemma output_line_opening s1 s2 st :
  single_file st ->
  exists rest, out (output_line s1 s2 st).2 = out st ++ row_opening s1 s2 :: rest.
Proof.
  intros [Hf Hc].
  destruct (output_line_row s1 s2 st) as (s1' & s2' & ->).
  unfold output_row. fold (row_opening s1 s2).
  rewrite bind_run, spl_print_primary by done.
  rewrite limited_print_func_run. cbv zeta.
  destruct (negb false && _).
  { exists []. by state_simpl. }
  set (k := char_count st + len (row_opening s1 s2)).
  set (l0 := out st ++ [row_opening s1 s2]).
  match goal with |- context [(?m ≫= ?f) ?s] =>
    assert (Hm : preserves (accounted k l0) (m ≫= f));
    [|assert (Hs : accounted k l0 s)
        by (exists []; subst k l0; state_simpl; rewrite app_nil_r; split; [done|cbn; lia]);
      specialize (Hm s Hs);
      assert (Hout : exists new, out ((m ≫= f) s).2 = l0 ++ new)
        by (destruct ((m ≫= f) s) as [[u|e] s']; destruct Hm as (new & Hnew & _);
            by exists new);
      destruct Hout as (new & ->); exists new; subst l0; by rewrite <- app_assoc]
  end.
  unfold preserves, output_side.
  vcg (accounted k l0)
    ltac:(unfold accounted in *; intros;
          repeat match goal with
            | H : _ /\ _ |- _ => destruct H
            | H : exists _, _ |- _ => destruct H
            end;
          state_simpl;
          first [done | congruence | lia | (eexists; split; eassumption) | idtac])
    ltac:(solve [apply spl_print_acc | apply row_was_output_acc]).
Qed.

(** The rows of a list of pairs, when all are completed. *)
Lemma for_in_rows l : forall st st',
  single_file st ->
  for_in (fun p => output_line p.1 p.2) l st = (Ok tt, st') ->
  single_file st' /\
  spl_rows st' = spl_rows st + Z.of_nat (length l) /\
  exists new, out st' = out st ++ new /\
    map (fun p => row_opening p.1 p.2) l `sublist_of` new.
Proof.
  induction l as [|p l IH]; intros st st' Hsf Hrun.
  - cbn in Hrun. injection Hrun as <-. split; [done|]. split; [cbn; lia|].
    exists []. by rewrite app_nil_r.
  - cbn [for_in] in Hrun. rewrite bind_run in Hrun.
    pose proof (output_line_counts (spl_rows st) p.1 p.2 st (conj Hsf eq_refl)) as Hc.
    destruct (output_line_opening p.1 p.2 st Hsf) as (rest & Hrest).
    destruct (output_line p.1 p.2 st) as [[[]|e] st1]; [|done].
    destruct Hc as [Hsf1 Hn1]. cbn [snd] in Hrest.
    destruct (IH st1 st' Hsf1 Hrun) as (Hsf' & Hn' & new & Hnew & Hsub).
    split; [done|]. split; [cbn [length]; lia|].
    exists (row_opening p.1 p.2 :: rest ++ new). split.
    + rewrite Hnew, Hrest, <- app_assoc. done.
    + cbn [map]. apply sublist_skip. by apply sublist_inserts_l.
Qed.

(** X7. What a flush of the buffer writes.  [empty_buffer] is the calls
    of [output_line] on the pairs of [flush_pairs], in order, and then the
    reset of the buffer and of the two counters.  The pairs are chosen on
    the counters [del_cpt] and [add_cpt], not on what the buffer holds:
    when one of them is zero (no line counted as deleted, or none as added:
    context lines, one side only, or placeholders of zero lines) they are
    the pairs of the buffer as they are; when neither is zero, the [i]-th
    pair is the [i]-th left side of the buffer and its [i]-th right side,
    the empty text standing for a side that has run out, and there are as
    many pairs as the longer side has lines.  In single-file mode a flush
    that completes has counted one row for each pair and has written the
    openings of their rows, in order, after what the report held. *)
Theorem rows_per_flush (st : state) :
  let l0 := omap fst (buf st) in
  let l1 := omap snd (buf st) in
  empty_buffer st =
    (for_in (fun p => output_line p.1 p.2) (flush_pairs st);;
     modify (set_add_cpt 0);; modify (set_del_cpt 0);; modify (set_buf [])) st /\
  (del_cpt st = 0 \/ add_cpt st = 0 -> flush_pairs st = buf st) /\
  (del_cpt st <> 0 -> add_cpt st <> 0 ->
     length (flush_pairs st) = (length l0 `max` length l1)%nat /\
     forall i, (i < length l0 `max` length l1)%nat ->
       flush_pairs st !! i = Some (Some (default [] (l0 !! i)), Some (default [] (l1 !! i)))) /\
  (forall st', single_file st -> empty_buffer st = (Ok tt, st') ->
     spl_rows st' = spl_rows st + Z.of_nat (length (flush_pairs st)) /\
     (exists new, out st' = out st ++ new /\
        map (fun p => row_opening p.1 p.2) (flush_pairs st) `sublist_of` new) /\
     buf st' = [] /\ add_cpt st' = 0 /\ del_cpt st' = 0).
Proof.
  cbv zeta. split; [apply empty_buffer_flush|]. split; [|split].
  - intros Hz. unfold flush_pairs.
    destruct Hz as [-> | ->]; [done|]. by rewrite orb_true_r.
  - intros Hd Ha. unfold flush_pairs.
    apply Z.eqb_neq in Hd, Ha. rewrite Hd, Ha. cbn [orb]. cbv zeta.
    split; [by rewrite length_map, length_seq|].
    intros i Hi. rewrite list_lookup_fmap, lookup_seq_lt by done. done.
  - intros st' Hsf Hrun.
    pose proof (empty_buffer_resets st) as Hr. rewrite Hrun in Hr.
    rewrite empty_buffer_flush, bind_run in Hrun.
    destruct (for_in _ (flush_pairs st) st) as [[[]|e] st1] eqn:Hfor; [|done].
    destruct (for_in_rows _ st st1 Hsf Hfor) as (_ & Hn & new & Hnew & Hsub).
    revert Hrun. run_m. intros [= <-]. state_simpl.
    split; [exact Hn|]. split; [by exists new|]. apply Hr.
Qed.

End Rows.

Lemma rows_per_flush_witness :
  let st := scanned ["@@ -1,2 +1,3 @@"; "-a"; "-b"; "+c"; "+d"; "+e"]%string in
  let st' := (empty_buffer (E := sample_env) (cfg := sample_config) st).2 in
  (single_file st /\
   empty_buffer (E := sample_env) (cfg := sample_config) st = (Ok tt, st')) /\
  flush_pairs st = [(Some (lit "a"), Some (lit "c")); (Some (lit "b"), Some (lit "d"));
                    (Some [], Some (lit "e"))] /\
  spl_rows st' = spl_rows st + 3.
Proof.
  intros st st'.
  assert (H1 : single_file st) by (split; vm_compute; reflexivity).
  assert (H2 : empty_buffer (E := sample_env) (cfg := sample_config) st = (Ok tt, st'))
    by (vm_compute; reflexivity).
  assert (H3 : flush_pairs st = [(Some (lit "a"), Some (lit "c"));
                                 (Some (lit "b"), Some (lit "d"));
                                 (Some [], Some (lit "e"))]) by (vm_compute; reflexivity).
  split; [exact (conj H1 H2)|]. split; [exact H3|].
  change 3 with (Z.of_nat (length [(Some (lit "a"), Some (lit "c"));
                                   (Some (lit "b"), Some (lit "d"));
                                   (Some ([] : str), Some (lit "e"))])).
  rewrite <- H3.
  exact (proj1 (proj2 (proj2 (proj2
           (rows_per_flush (E := sample_env) (cfg := sample_config) st))) st' H1 H2)).
Defined.

(** A placeholder of zero lines leaves [del_cpt] at zero: the deleted and
    the added line that follow each other are written on two rows. *)
Lemma zero_lines_placeholder_flush :
  let st := scanned ["@@ -1,2 +1,3 @@"; "-[ 0 lines removed ]"; "+x"]%string in
  let st' := (empty_buffer (E := sample_env) (cfg := sample_config) st).2 in
  del_cpt st = 0 /\ add_cpt st = 1 /\
  flush_pairs st = [(Some (lit "[ 0 lines removed ]"), None); (None, Some (lit "x"))] /\
  (empty_buffer (E := sample_env) (cfg := sample_config) st).1 = Ok tt /\
  spl_rows st' = spl_rows st + 2.
Proof. vm_compute. repeat split; reflexivity. Qed.

Lemma row_closed_witness :
  let r := output_line (E := sample_env) (cfg := sample_config)
             (Some (lit "a")) (Some (lit "b")) single_file_start in
  single_file single_file_start /\
  list.last (out r.2) = Some (lit "</tr>" ++ [NEWLINE]) /\
  q "<tr class=`diffchanged`>" ∈ out r.2 /\
  spl_rows r.2 = 1.
Proof.
  cbv zeta.
  assert (H : single_file single_file_start) by (split; reflexivity).
  split; [exact H|].
  apply (proj1 (row_closed (E := sample_env) (cfg := sample_config)
                  (Some (lit "a")) (Some (lit "b")) single_file_start H)).
  vm_compute. reflexivity.
Defined.

(** ** The error row of the block limit *)

(** A quotient of at most 1 is a float: the division does not overflow. *)
Lemma nearest_binary64_small n d :
  0 <= n <= d -> is_Some (nearest_binary64 n d).
Proof.
  intros Hn. unfold nearest_binary64. destruct (n =? 0) eqn:Hz; [by eexists|].
  apply Z.eqb_neq in Hz.
  assert (Hr : log2_ratio n d <= 0).
  { unfold log2_ratio. pose proof (Z.log2_le_mono n d ltac:(lia)).
    cbv zeta. repeat case_match; lia. }
  assert (He : (0 <=? Z.max (log2_ratio n d - 52) (-1074)) = false)
    by (apply Z.leb_gt; lia).
  cbv zeta. rewrite He. cbn [andb]. by eexists.
Qed.

Lemma true_divide_small a b :
  Z.abs a <= Z.abs b -> is_Some (true_divide a b).
Proof.
  intros H. unfold true_divide.
  destruct (nearest_binary64_small (Z.abs a) (Z.abs b) ltac:(lia)) as [r ->].
  by eexists.
Qed.

(** The lines of a text with a newline after each are no longer than the
    text, but for the newline that ends a last line without one. *)
Lemma len_unlines_splitlines_from : forall n x cur,
  (length x <= n)%nat ->
  len (unlines (splitlines_from cur x)) <= len cur + len x + 1 /\
  (cur = [] -> x = [] -> len (unlines (splitlines_from cur x)) = 0).
Proof.
  assert (Hcons : forall (l : str) ls, len (unlines (l :: ls)) = len l + 1 + len (unlines ls)).
  { intros l ls. unfold unlines, len. cbn [map concat]. rewrite !length_app.
    cbn [length]. lia. }
  induction n as [|n IH]; intros x cur Hx.
  - destruct x; [|cbn in Hx; lia]. cbn [splitlines_from]. split.
    + destruct cur; [unfold unlines, len; cbn; lia|].
      rewrite Hcons. unfold len at 1. rewrite length_rev.
      change (len (unlines [])) with 0. unfold len. cbn [length]. lia.
    + by intros -> _.
  - destruct x as [|c rest].
    { cbn [splitlines_from]. split.
      + destruct cur; [unfold unlines, len; cbn; lia|].
        rewrite Hcons. unfold len at 1. rewrite length_rev.
        change (len (unlines [])) with 0. unfold len. cbn [length]. lia.
      + by intros -> _. }
    cbn [length] in Hx. split; [|done]. cbn [splitlines_from].
    destruct (is_line_boundary c).
    + rewrite Hcons. unfold len at 1. rewrite length_rev.
      destruct rest as [|c' rest'].
      { change (len (unlines [])) with 0. unfold len. cbn [length]. lia. }
      destruct (N.eqb c 13 && N.eqb c' 10).
      * destruct (IH rest' [] ltac:(cbn [length] in Hx; lia)) as [H _].
        unfold len in *. cbn [length] in *. lia.
      * destruct (IH (c' :: rest') [] ltac:(cbn [length] in *; lia)) as [H _].
        unfold len in *. cbn [length] in *. lia.
    + destruct (IH rest (c :: cur) ltac:(lia)) as [H _].
      unfold len in *. cbn [length] in *. lia.
Qed.

Lemma len_unlines_splitlines x : len (unlines (splitlines x)) <= len x + 1.
Proof.
  destruct (len_unlines_splitlines_from (length x) x [] ltac:(lia)) as [H _].
  unfold splitlines. unfold len in *. cbn [length] in H. lia.
Qed.

Section ErrorRow.
Context {E : Env} {cfg : Config}.

(** However the scan of a diff ends, the bytes it has counted are those of
    the first [k] of its lines. *)
Lemma scan_read_lines unified_diff :
  let ls := splitlines unified_diff in
  triple (fun _ => True) (scan unified_diff)
    (fun _ => read_lines ls (length ls))
    (fun _ st => exists k, (k <= length ls)%nat /\ read_lines ls k st).
Proof.
  intros ls. unfold scan. fold ls.
  eapply (triple_bind _ _ _ (fun _ => read_lines ls 0)).
  { apply triple_modify. intros s _. unfold read_lines. by state_simpl. }
  intros _.
  eapply (triple_bind _ _ _ (fun _ => read_lines ls (length ls)));
    [by apply (for_in_scan_line_bytes ls [] ls)|].
  intros _.
  eapply (triple_bind _ _ _ (fun _ => read_lines ls (length ls))).
  - eapply triple_conseq; [apply empty_buffer_bytes|done|done|].
    intros e s Hs. by exists (length ls).
  - intros _. by apply triple_ret.
Qed.



End ErrorRow.


Section BlockLimit.
Context {E : Env} {cfg : Config}.


End BlockLimit.


(** ** The exceptions of a single-file report *)

Lemma triple_and {A} (P1 P2 : state -> Prop) (m : M A) (Q1 Q2 : A -> state -> Prop)
    (X1 X2 : exn -> state -> Prop) :
  triple P1 m Q1 X1 -> triple P2 m Q2 X2 ->
  triple (fun st => P1 st /\ P2 st) m (fun a st => Q1 a st /\ Q2 a st)
         (fun e st => X1 e st /\ X2 e st).
Proof.
  intros H1 H2 st [Hp1 Hp2]. specialize (H1 st Hp1). specialize (H2 st Hp2).
  by destruct (m st) as [[a|e] st'].
Qed.

Section Raises.
Context {E : Env} {cfg : Config}.
Variable extra : exn -> Prop.

Ltac side_lim :=
  unfold limit_or, print_limit_or, is_limit, on_parent, single_file in *; side_basic;
  try (repeat split;
       first [done | congruence | lia | by left | by right
             | by (left; left) | by (left; right)]).

Lemma row_was_output_lim :
  triple on_parent row_was_output (fun _ => on_parent) (limit_or extra).
Proof.
  intros st [[Hf Hc] Hp]. rewrite (row_was_output_single_file st None Hc).
  destruct (Z.leb_spec max_diff_block_lines (spl_rows st + 1)); side_lim.
Qed.

Lemma spl_print_plim s force :
  triple on_parent (spl_print s force) (fun _ => on_parent) (print_limit_or extra).
Proof.
  intros st [[Hf Hc] Hp]. unfold spl_print. run_m. rewrite Hf. cbn [call_print].
  rewrite limited_print_func_run. cbv zeta.
  destruct (negb force && _); side_lim.
Qed.

Lemma spl_print_lim s force :
  triple on_parent (spl_print s force) (fun _ => on_parent) (limit_or extra).
Proof.
  intros st [[Hf Hc] Hp]. unfold spl_print. run_m. rewrite Hf. cbn [call_print].
  rewrite limited_print_func_run. cbv zeta.
  destruct (negb force && _); side_lim.
Qed.

Lemma spl_print_forced s :
  triple on_parent (spl_print s true) (fun _ => on_parent) (fun _ _ => False).
Proof.
  intros st [[Hf Hc] Hp]. unfold spl_print. run_m. rewrite Hf. cbn [call_print].
  rewrite limited_print_func_run. cbv zeta. cbn [negb andb]. side_lim.
Qed.

Lemma output_side_lim s line tag :
  triple on_parent (output_side s line tag) (fun _ => on_parent) (limit_or extra).
Proof.
  unfold output_side.
  vcg on_parent side_lim ltac:(solve [apply spl_print_lim]).
Qed.

Lemma output_line_lim s1 s2 :
  triple on_parent (output_line s1 s2) (fun _ => on_parent) (limit_or extra).
Proof.
  unfold output_line.
  eapply (triple_bind _ _ _ (fun _ => on_parent)).
  { repeat match goal with
      | |- triple _ (if ?b then _ else _) _ _ => destruct b eqn:?
      end; try (apply triple_ret; done).
    destruct (truncate_line s1) as [a|] eqn:E1, (truncate_line s2) as [b|] eqn:E2;
      try (exfalso; cbn in *; congruence).
    destruct (linediff_sane a b) as (a' & b' & -> & _). by apply triple_ret. }
  intros [[tn s1'] s2'].
  eapply (triple_bind _ _ _ (fun _ => on_parent)); [apply spl_print_lim|].
  intros _.
  eapply (triple_bind _ _ _ (fun _ => on_parent)).
  - eapply (triple_try_finally _ _ _ (fun _ => on_parent) (limit_or extra)).
    + vcg on_parent side_lim ltac:(solve [apply output_side_lim]).
    + intros _. vcg on_parent side_lim
        ltac:(solve [apply spl_print_lim | apply row_was_output_lim]).
    + intros e.
      eapply triple_conseq with (P' := fun st => on_parent st /\ (is_limit e \/ extra e))
                                (Q' := fun _ st => on_parent st /\ (is_limit e \/ extra e));
        [|intros st H; exact H|intros _ st H; exact H|intros; eassumption].
      apply triple_pure. intros He.
      eapply (triple_bind _ _ _ (fun _ => on_parent)); [apply spl_print_lim|].
      intros _. eapply triple_conseq; [apply row_was_output_lim|done| |done].
      intros ? st Hst. by split.
  - intros _. vcg on_parent side_lim no_call.
Qed.

Lemma empty_buffer_lim :
  triple on_parent empty_buffer (fun _ => on_parent) (limit_or extra).
Proof.
  unfold empty_buffer.
  vcg on_parent side_lim ltac:(solve [apply output_line_lim]).
Qed.

Lemma no_newline_lim l :
  (forall e, no_newline_error e -> extra e) ->
  triple on_parent (no_newline l) (fun _ => on_parent) (limit_or extra).
Proof.
  intros Hx. unfold no_newline.
  vcg on_parent
    ltac:(side_lim; try (split; [by repeat split|]; right; apply Hx; first [by left | by right]))
    no_call.
Qed.

Lemma scan_line_lim l :
  line_within extra l ->
  triple on_parent (scan_line l) (fun _ => on_parent) (limit_or extra).
Proof.
  intros [Hl|Hx]; unfold scan_line.
  - rewrite Hl.
    vcg on_parent side_lim
      ltac:(solve [apply empty_buffer_lim | apply spl_print_lim | apply row_was_output_lim]).
  - vcg on_parent side_lim
      ltac:(solve [ apply empty_buffer_lim | apply spl_print_lim | apply row_was_output_lim
                  | by apply no_newline_lim ]).
Qed.

Lemma scan_lim ud :
  Forall (line_within extra) (splitlines ud) ->
  triple on_parent (scan ud) (fun _ => on_parent) (limit_or extra).
Proof.
  intros Hud. unfold scan in *. rewrite list.Forall_forall in Hud.
  vcg on_parent side_lim
    ltac:(solve [apply empty_buffer_lim | apply scan_line_lim; by apply Hud]).
Qed.

Lemma spl_had_entered_child_parent st :
  on_parent st -> spl_had_entered_child st = (Ok false, st).
Proof.
  intros [[Hf Hc] Hp]. unfold spl_had_entered_child. rewrite !bind_run. cbn [gets].
  by rewrite Hc.
Qed.

(** The table of a diff that is not empty: the assertion of the print
    limit handler holds, the division is by a size that is not zero and
    does not overflow. *)
Lemma output_unified_diff_table_lim ud hil :
  ud <> [] -> Forall (line_within extra) (splitlines ud) ->
  triple on_parent (output_unified_diff_table ud hil) (fun _ => on_parent)
         (print_limit_or extra).
Proof.
  intros Hne Hud. unfold output_unified_diff_table.
  assert (Hpos : 0 < len ud).
  { destruct ud; [done|]. unfold len. cbn [length]. lia. }
  assert (Hlen : (len ud =? 0) = false) by (apply Z.eqb_neq; lia).
  rewrite Hlen.
  eapply (triple_bind _ _ _ (fun _ => on_parent)); [vcg on_parent side_lim no_call|].
  intros _.
  eapply (triple_bind _ _ _ (fun _ => on_parent)); [apply spl_print_plim|].
  intros _.
  eapply (triple_try_finally _ _ _ (fun _ => on_parent) (print_limit_or extra)).
  - eapply (triple_try_except _ _ _ _
              (fun e st => limit_or extra e st /\
                           -1 <= len ud - bytes_processed st <= len ud)).
    + eapply triple_conseq;
        [apply (triple_and _ _ _ _ _ _ _ (scan_lim ud Hud) (scan_read_lines ud))
        |by intros st H|by intros ? st [H _]|].
      intros e st [Hl (k & Hk & Hr)]. split; [exact Hl|].
      unfold read_lines in Hr. rewrite Hr.
      pose proof (len_unlines_take_drop (splitlines ud) k) as Hlen'.
      pose proof (len_unlines_splitlines ud) as Hle.
      assert (0 <= len (unlines (take k (splitlines ud)))) by (unfold len; lia).
      assert (0 <= len (unlines (drop k (splitlines ud)))) by (unfold len; lia).
      lia.
    + intros e h Hh. destruct e; simplify_eq Hh; intros <-.
      * (* PrintLimitReached *)
        intros st [[Hsf _] _].
        rewrite bind_run, (spl_had_entered_child_parent st Hsf), bind_run.
        pose proof (spl_print_forced
          (lit "<tr class='error'><td colspan='4'>Max output size reached.</td></tr>")
          st Hsf) as Hp.
        destruct (spl_print _ true st) as [[[]|e] st']; [|done].
        split; [exact Hp|by left].
      * (* DiffBlockLimitReached *)
        intros st [[Hsf _] Hb]. rewrite bind_run. cbn [gets].
        destruct (true_divide_small (len ud - bytes_processed st) (len ud) ltac:(lia))
          as [frac ->].
        rewrite bind_run.
        pose proof (spl_print_forced
          (block_limit_row (len ud - bytes_processed st) (len ud) (float_times_100 frac))
          st Hsf) as Hp.
        by destruct (spl_print _ true st) as [[[]|e] st'].
    + intros e st Hh [[Hsf [[->| ->]|Hx]] _]; try discriminate.
      split; [exact Hsf|by right].
  - intros _. eapply triple_conseq; [apply spl_print_forced|done|done|done].
  - intros e.
    apply triple_conseq with (P' := fun st => on_parent st /\ (e = PrintLimitReached \/ extra e))
      (Q' := fun _ st => on_parent st /\ (e = PrintLimitReached \/ extra e))
      (X' := print_limit_or extra);
      [|intros st H; exact H|intros ? st H; exact H|done].
    apply triple_pure. intros He.
    eapply triple_conseq; [apply spl_print_forced|done| |done].
    intros ? st Hst. by split.
Qed.

Lemma spl_print_exit_parent st :
  on_parent st -> spl_print_exit st = (Ok false, st).
Proof.
  intros H. unfold spl_print_exit. by rewrite bind_run, (spl_had_entered_child_parent st H).
Qed.

(** [output_unified_diff] of a single-file report, from any state: the
    page is the parent page, and [truncated] is bound when it is read. *)
Lemma output_unified_diff_lim css_url ud hil :
  ud <> [] -> Forall (line_within extra) (splitlines ud) ->
  triple (fun _ => True) (output_unified_diff css_url None ud hil) (fun _ _ => True)
         (fun e _ => e = PrintLimitReached \/ extra e).
Proof.
  intros Hne Hud. unfold output_unified_diff.
  eapply (triple_bind _ _ _ (fun _ st => spl_current_page st = 0)).
  { unfold new_unified_diff. intros st _. by run_m. }
  intros _.
  eapply (triple_bind _ _ _ (fun _ st => spl_current_page st = 0)).
  - eapply (triple_try_finally _ _ _ (fun _ st => spl_current_page st = 0)
              (fun e st => spl_current_page st = 0 /\ (e = PrintLimitReached \/ extra e))).
    + eapply (triple_try_except_else _ _ _ _ (fun _ => on_parent) (print_limit_or extra)).
      * eapply (triple_bind _ _ _ (fun _ st => spl_current_page st = 0
                                    /\ spl_print_func st = Some Primary)).
        { apply triple_modify. intros st H. by state_simpl. }
        intros _.
        eapply (triple_bind _ _ _ (fun _ => on_parent)).
        { apply triple_modify. intros st [H1 H2]. by repeat split. }
        intros _.
        eapply (triple_bind _ _ _ (fun _ => on_parent));
          [by apply output_unified_diff_table_lim|].
        intros t. by apply triple_ret.
      * intros truncated st Hst. rewrite bind_run, (spl_print_exit_parent st Hst).
        cbn [mret M_ret]. apply Hst.
      * intros e st [Hst He]. rewrite bind_run, (spl_print_exit_parent st Hst).
        cbn [raise]. split; [apply Hst|exact He].
    + intros a st Hst. by run_m.
    + intros e st [Hst He]. by run_m.
  - intros truncated. apply triple_bind_gets. intros page (st & Hst & <-).
    rewrite Hst. cbn [Z.ltb Z.compare]. by apply triple_ret.
Qed.

Lemma limited_print_func_plim s force :
  triple (fun _ => True) (limited_print_func s force) (fun _ _ => True)
         (fun e _ => e = PrintLimitReached \/ extra e).
Proof.
  intros st _. rewrite limited_print_func_run. cbv zeta.
  destruct (negb force && _); [by left|done].
Qed.

Lemma limited_print_func_forced s :
  triple (fun _ => True) (limited_print_func s true) (fun _ _ => True) (fun _ _ => False).
Proof. intros st _. by rewrite limited_print_func_run. Qed.

Lemma plain_diff_within ud : plain_diff ud -> Forall (line_within extra) (splitlines ud).
Proof. intros H. eapply List.Forall_impl; [|exact H]. intros l Hl. by left. Qed.

Lemma output_difference_lim difference :
  difference_within extra difference ->
  forall css_url parents,
  triple (fun _ => True) (output_difference difference css_url None parents)
         (fun _ _ => True) (fun e _ => e = PrintLimitReached \/ extra e).
Proof.
  induction difference as [s1 s2 cs ud hil ds IH] using Difference_nested_ind.
  intros Hd css_url parents.
  assert (Hud : Forall (line_within extra) (splitlines (default [] ud))).
  { destruct Hd as [Hd|Hx].
    - inversion Hd; subst. by apply plain_diff_within.
    - apply list.Forall_forall. intros l _. by right. }
  assert (IH' : forall x, x ∈ ds ->
            triple (fun _ => True) (output_difference x css_url None (parents ++ [s1]))
                   (fun _ _ => True) (fun e _ => e = PrintLimitReached \/ extra e)).
  { intros x Hx. apply list_elem_of_In in Hx.
    apply (proj1 (List.Forall_forall _ _) IH x Hx).
    destruct Hd as [Hd|Hd]; [left|by right].
    inversion Hd; subst.
    match goal with Hds : Forall plain_difference ds |- _ =>
      exact (proj1 (List.Forall_forall _ _) Hds x Hx) end. }
  clear IH Hd.
  cbn [output_difference].
  eapply (triple_bind _ _ _ (fun _ _ => True)); [apply limited_print_func_plim|].
  intros _.
  eapply (triple_try_finally _ _ _ (fun _ _ => True)
            (fun e _ => e = PrintLimitReached \/ extra e)).
  - vcg (fun _ : state => True) ltac:(try done)
      ltac:(solve [ apply limited_print_func_plim
                  | by apply IH'
                  | destruct ud as [u|]; [|discriminate];
                    apply output_unified_diff_lim; [by destruct u|assumption] ]).
  - intros _. eapply triple_conseq; [apply limited_print_func_forced|done|done|done].
  - intros e. eapply triple_conseq with
      (P' := fun st => True /\ (e = PrintLimitReached \/ extra e))
      (Q' := fun _ st => True /\ (e = PrintLimitReached \/ extra e))
      (X' := fun e _ => e = PrintLimitReached \/ extra e);
      [|by intros st H|by intros ? st [_ H]|done].
    apply triple_pure. intros He.
    eapply triple_conseq; [apply limited_print_func_forced|done|done|done].
Qed.

(** [output_html] handles the print limit: what it raises is in [extra],
    and when it returns the last text written is the footer. *)
Lemma output_html_raises difference css_url st :
  difference_within extra difference ->
  match output_html difference css_url st with
  | (Ok _, st') => list.last (out st') = Some (FOOTER VERSION)
  | (Raise e, _) => extra e
  end.
Proof.
  intros Hd. unfold output_html. rewrite bind_run. cbn [modify].
  set (st0 := set_char_count 0 st).
  assert (Hbody : triple (fun _ => True)
            (output_header css_url (Some Primary);;
             output_difference difference css_url None [])
            (fun _ _ => True) (fun e _ => e = PrintLimitReached \/ extra e)).
  { eapply (triple_bind _ _ _ (fun _ _ => True)).
    - unfold output_header. cbn [call_print]. apply limited_print_func_plim.
    - intros _. by apply output_difference_lim. }
  specialize (Hbody st0 I).
  assert (Hfooter : forall s, exists s', output_footer (Some Primary) s = (Ok tt, s') /\
            list.last (out s') = Some (FOOTER VERSION)).
  { intros s. unfold output_footer. cbn [call_print]. rewrite limited_print_func_run.
    cbv zeta. cbn [negb andb]. eexists. split; [done|]. state_simpl. apply last_snoc. }
  rewrite bind_run. unfold try_except at 1.
  destruct ((output_header css_url (Some Primary);;
             output_difference difference css_url None []) st0) as [[[]|e] st1].
  - by destruct (Hfooter st1) as (s' & -> & H).
  - destruct (decide (e = PrintLimitReached)) as [->|Hne].
    + rewrite limited_print_func_run. cbv zeta. cbn [negb andb].
      match goal with |- context [output_footer _ ?s] =>
        by destruct (Hfooter s) as (s' & -> & H) end.
    + destruct Hbody as [->|Hx]; [done|]. by destruct e.
Qed.

End Raises.

Section NoInternalError.
Context {E : Env} {cfg : Config}.

(** X1. A single-file report raises nothing of what the presenter
    raises by itself, but for the two errors of a [\ No newline] line:
    whatever the tree, the limits and the state [output_html] starts from,
    it raises neither of the two limits, which are handled, nor
    [AssertionError] (the print limit is always reached on the parent
    page), nor [ZeroDivisionError] or [OverflowError] (the error row of the
    block limit divides by the size of a diff that is not empty, and the
    bytes left are at most that size), nor [UnboundLocalError] or
    [AttributeError] (no child page is entered); for a tree with no
    [\ No newline] line it raises neither [IndexError] nor [TypeError];
    and when it returns, the last text written is the footer. *)
Theorem no_internal_error (difference : Difference) (css_url : option str) (st : state) :
  let r := output_html difference css_url st in
  Forall (fun e => r.1 <> Raise e)
    [PrintLimitReached; DiffBlockLimitReached; AssertionError; ZeroDivisionError;
     OverflowError; UnboundLocalError; AttributeError] /\
  (plain_difference difference -> r.1 <> Raise IndexError /\ r.1 <> Raise TypeError) /\
  (forall st', r = (Ok tt, st') -> list.last (out st') = Some (FOOTER VERSION)).
Proof.
  cbv zeta. split; [|split].
  - pose proof (output_html_raises no_newline_error difference css_url st
                  ltac:(by right)) as H.
    destruct (output_html difference css_url st) as [[u|e] st']; cbn [fst].
    + repeat constructor; discriminate.
    + repeat constructor; intros [= ->]; by destruct H.
  - intros Hd.
    pose proof (output_html_raises (fun _ => False) difference css_url st
                  ltac:(by left)) as H.
    by destruct (output_html difference css_url st) as [[u|e] st'].
  - intros st' Hr.
    pose proof (output_html_raises no_newline_error difference css_url st
                  ltac:(by right)) as H.
    by rewrite Hr in H.
Qed.

End NoInternalError.

Lemma e4_difference_plain : plain_difference e4_difference.
Proof.
  constructor; [|constructor].
  unfold plain_diff. apply (bool_decide_unpack _). by vm_compute.
Qed.

Lemma no_internal_error_witness :
  let r := output_html (E := sample_env) (cfg := with_limits 2048000 2 50)
             e4_difference None initial_state in
  plain_difference e4_difference /\
  r.1 <> Raise AssertionError /\ r.1 <> Raise IndexError /\ r.1 <> Raise TypeError.
Proof.
  intros r.
  destruct (no_internal_error (E := sample_env) (cfg := with_limits 2048000 2 50)
              e4_difference None initial_state) as (H1 & H2 & _).
  split; [exact e4_difference_plain|].
  split; [exact (Forall_inv (Forall_inv_tail (Forall_inv_tail H1)))|].
  exact (H2 e4_difference_plain).
Defined.
